(** * A discrete-event queueing simulator: buffer, devices, controller

    Shallow embedding of [Simulation.hpp] / [Simulation.cpp].

    Modelling conventions.
    - Simulated time (a [double], in hours) is a rational [Q] in the event
      loop: comparisons are the exact ones, and [+] / [-] are the exact
      operations.  [formatTime], whose result depends on how the product is
      rounded, takes an IEEE 754 binary64 number instead.
    - [int] values are integers [Z]; the counters are shown to stay between
      0 and the target.  Conversions that C++ leaves undefined (a [double]
      that does not fit an [int], an out-of-range vector index, a pointer
      to no object) make the modelled function return [None].
    - [std::shared_ptr<Request>] is an address into a store of [Request]
      objects, so that a setter call is seen through every alias.
    - [std::priority_queue<Event>] is an abstract data type: any
      implementation whose [pop] returns an event of least [time].
    - [std::mt19937] together with [std::exponential_distribution] is a
      stream of durations; console output is not modelled. *)

From Stdlib Require Import ZArith QArith Lqa String Ascii SpecFloat.
From stdpp Require Import base option list gmap.

Local Open Scope Z_scope.

(** ** Time formatter *)

Module Fmt.

Definition INT_MIN : Z := - 2 ^ 31.
Definition INT_MAX : Z := 2 ^ 31 - 1.

(** The argument of [formatTime] is an IEEE 754 binary64 number, and the
    product by [60.0] is the rounded one. *)
Definition prec : Z := 53.
Definition emax : Z := 1024.

Definition double_of (m e : Z) : spec_float :=
  binary_normalize prec emax m e false.

(** The literal [60.0], which is [1.875 * 2^5]. *)
Definition sixty : spec_float := S754_finite false 8444249301319680 (-47).

(** [0.0 <= x], false for a NaN. *)
Definition non_negative (x : spec_float) : bool :=
  SFleb (S754_zero false) x.

(** The integer that [std::floor] yields; an infinity or a NaN has none. *)
Definition floor (x : spec_float) : option Z :=
  match x with
  | S754_zero _ => Some 0
  | S754_finite s m e =>
      let v := if s then Z.neg m else Z.pos m in
      Some (if 0 <=? e then v * 2 ^ e else v / 2 ^ (- e))
  | S754_infinity _ | S754_nan => None
  end.

(** [static_cast<int>(x)] for an integral [double] [x]: undefined when the
    value is not representable. *)
Definition static_cast_int (z : Z) : option Z :=
  if (INT_MIN <=? z) && (z <=? INT_MAX) then Some z else None.

Definition digit (d : Z) : ascii := ascii_of_nat (48 + Z.to_nat d).

(** Decimal digits of a non-negative integer, most significant first. *)
Fixpoint decimal_aux (fuel : nat) (n : Z) : string :=
  match fuel with
  | O => EmptyString
  | S fuel' =>
      let q := n / 10 in
      let d := String (digit (n mod 10)) EmptyString in
      if q =? 0 then d else (decimal_aux fuel' q ++ d)%string
  end.

Definition decimal (n : Z) : string :=
  decimal_aux (S (Z.to_nat (Z.log2 n))) n.

(** The conversion [%02d] of printf: sign, digits, zero padding to width 2. *)
Definition fmt_02d (z : Z) : string :=
  let s := if z <? 0 then String "-" (decimal (- z)) else decimal z in
  if (String.length s <? 2)%nat then String "0" s else s.

(** [snprintf(buffer, size, ...)] keeps at most [size - 1] characters. *)
Definition snprintf (size : nat) (s : string) : string :=
  substring 0 (size - 1) s.

Definition formatTime (simulationTimeHours : spec_float) : option string :=
  match floor (SFmul prec emax simulationTimeHours sixty) with
  | None => None
  | Some minutes_floor =>
      match static_cast_int minutes_floor with
      | None => None
      | Some totalMinutes =>
          let hours := Z.rem (Z.quot totalMinutes 60) 24 in
          let minutes := Z.rem totalMinutes 60 in
          Some (snprintf 6 (fmt_02d hours ++ ":" ++ fmt_02d minutes)%string)
      end
  end.

(** What the specification calls a field "zero-padded to two digits". *)
Definition two_digits (n : Z) : string :=
  String (digit (n / 10)) (String (digit (n mod 10)) EmptyString).

(** The rendering [HH:MM] of an amount of minutes, on a 24-hour wrap. *)
Definition HHMM (totalMinutes : Z) : string :=
  (two_digits ((totalMinutes / 60) mod 24) ++ ":" ++
   two_digits (totalMinutes mod 60))%string.

End Fmt.

(** ** Priorities, requests and the object store *)

Inductive Priority := CORPORATE | PREMIUM | FREE.

(** [static_cast<int>(priority)] *)
Definition priority_int (p : Priority) : Z :=
  match p with CORPORATE => 0 | PREMIUM => 1 | FREE => 2 end.

#[global] Instance Priority_eq_dec : EqDecision Priority.
Proof. solve_decision. Defined.

#[global] Instance Priority_countable : Countable Priority :=
  inj_countable'
    (fun p => Z.to_nat (priority_int p))
    (fun n => match n with O => CORPORATE | S O => PREMIUM | _ => FREE end)
    (fun p => match p with CORPORATE | PREMIUM | FREE => eq_refl end).

Module Request.

Record t := mk {
  id_ : Z;
  priority_ : Priority;
  arrivalTime_ : Q;
  sourceIndex_ : Z;
  bufferEnterTime_ : Q;
  startServiceTime_ : Q
}.

(** The constructor [Request::Request]. *)
Definition new (id : Z) (priority : Priority) (arrivalTime : Q)
    (sourceIndex : Z) : t :=
  mk id priority arrivalTime sourceIndex arrivalTime 0.

Definition setBufferEnterTime (x : Q) (r : t) : t :=
  mk (id_ r) (priority_ r) (arrivalTime_ r) (sourceIndex_ r) x
     (startServiceTime_ r).

Definition setStartServiceTime (x : Q) (r : t) : t :=
  mk (id_ r) (priority_ r) (arrivalTime_ r) (sourceIndex_ r)
     (bufferEnterTime_ r) x.

End Request.

(** A [shared_ptr<Request>] is an address of the store; [make_shared]
    allocates at the end, and objects are never moved. *)
Abbreviation ptr := nat (only parsing).
Abbreviation store := (list Request.t) (only parsing).

Definition make_shared (r : Request.t) (m : store) : ptr * store :=
  (length m, m ++ [r]).

(** [p->setter(...)]: undefined when [p] does not point to an object. *)
Definition store_update (p : ptr) (f : Request.t -> Request.t) (m : store)
    : option store :=
  match m !! p with
  | Some r => Some (<[p := f r]> m)
  | None => None
  end.

(** [std::find_if] over a container of pointers: the index of the first
    element whose object satisfies [pred], the length when there is none. *)
Fixpoint find_if (pred : Request.t -> bool) (m : store) (l : list ptr)
    : option nat :=
  match l with
  | [] => Some O
  | p :: l' =>
      match m !! p with
      | None => None
      | Some r => if pred r then Some O else S <$> find_if pred m l'
      end
  end.

(** ** Random streams *)

(** The state of a generator: the durations it will produce, and how many
    were taken already. *)
Record mt19937 := mkRng { draws : nat -> Q; drawn : nat }.

(** One sample of [std::exponential_distribution] from the generator. *)
Definition exponential_distribution (g : mt19937) : Q * mt19937 :=
  (draws g (drawn g), mkRng (draws g) (S (drawn g))).

(** ** Events and the event queue *)

Inductive EventType := REQUEST_GENERATED | REQUEST_SERVED.

#[global] Instance EventType_eq_dec : EqDecision EventType.
Proof. solve_decision. Defined.

Module Event.

Record t := mk {
  type : EventType;
  time : Q;
  request : ptr;
  deviceId : Z
}.

End Event.

(** [std::priority_queue<Event>] ordered by [Event::operator<]: the top is
    an event of least time.  Which one among several of the same time is
    left to the implementation. *)
Record EventQueue := {
  pq_car : Type;
  pq_new : pq_car;
  pq_push : Event.t -> pq_car -> pq_car;
  pq_pop : pq_car -> option (Event.t * pq_car);
  pq_items : pq_car -> list Event.t;
  pq_items_new : pq_items pq_new = [];
  pq_items_push : forall e q, pq_items (pq_push e q) ≡ₚ e :: pq_items q;
  pq_pop_None : forall q, pq_pop q = None -> pq_items q = [];
  pq_pop_Some : forall q e q',
    pq_pop q = Some (e, q') ->
    pq_items q ≡ₚ e :: pq_items q' /\
    Forall (fun e' => (Event.time e <= Event.time e')%Q) (pq_items q)
}.

(** ** Devices *)

Module Device.

Record t := mk {
  id_ : Z;
  busy_ : bool;
  finishTime_ : Q;
  busyTotalTime_ : Q;
  startBusyTime_ : Q;
  currentRequest_ : option ptr;
  serviceTimeHours_ : Q;
  rng_ : mt19937
}.

Definition new (id : Z) (seed : mt19937) : t :=
  mk id false 0 0 0 None 0 seed.

Definition loadRequest (req : ptr) (currentTimeHours : Q) (d : t) (m : store)
    : option (t * store) :=
  let '(serviceTimeHours, g) := exponential_distribution (rng_ d) in
  match store_update req (Request.setStartServiceTime currentTimeHours) m with
  | None => None
  | Some m' =>
      Some (mk (id_ d) true (currentTimeHours + serviceTimeHours)%Q
               (busyTotalTime_ d) currentTimeHours (Some req)
               serviceTimeHours g, m')
  end.

Definition freeDevice (timeHours : Q) (d : t) : t :=
  mk (id_ d) false (finishTime_ d)
     (busyTotalTime_ d + (timeHours - startBusyTime_ d))%Q
     (startBusyTime_ d) None (serviceTimeHours_ d) (rng_ d).

End Device.

(** ** Sources *)

Module Source.

Record t := mk {
  priority_ : Priority;
  sourceIndex_ : Z;
  rng_ : mt19937
}.

(** The rate [getArrivalRate currentTimeHours] only shapes the distribution
    of the sample, which is any duration of the stream. *)
Definition generateInterArrivalTime (currentTimeHours : Q) (s : t) : Q * t :=
  let '(delta, g) := exponential_distribution (rng_ s) in
  (delta, mk (priority_ s) (sourceIndex_ s) g).

Definition createRequest (requestId : Z) (arrivalTimeHours : Q) (s : t)
    : Request.t :=
  Request.new requestId (priority_ s) arrivalTimeHours (sourceIndex_ s).

End Source.

(** ** A reference event queue: an unordered list, [pop] takes the first
    event of least time *)

Fixpoint list_pop (l : list Event.t) : option (Event.t * list Event.t) :=
  match l with
  | [] => None
  | e :: l' =>
      match list_pop l' with
      | None => Some (e, [])
      | Some (m, rest) =>
          if Qle_bool (Event.time e) (Event.time m)
          then Some (e, l')
          else Some (m, e :: rest)
      end
  end.

Lemma list_pop_None l : list_pop l = None -> l = [].
Proof.
  destruct l as [|e l]; [done|]. simpl.
  destruct (list_pop l) as [[m rest]|]; [|done].
  by destruct (Qle_bool _ _).
Qed.

Lemma list_pop_Some l e l' :
  list_pop l = Some (e, l') ->
  l ≡ₚ e :: l' /\ Forall (fun e' => (Event.time e <= Event.time e')%Q) l.
Proof.
  revert e l'. induction l as [|x l IH]; intros e l' H; [done|].
  simpl in H. destruct (list_pop l) as [[m rest]|] eqn:Hl.
  - destruct (IH _ _ eq_refl) as [Hperm Hmin].
    destruct (Qle_bool (Event.time x) (Event.time m)) eqn:Hle.
    + injection H as <- <-. split; [done|].
      apply Qle_bool_iff in Hle. constructor; [apply Qle_refl|].
      eapply Forall_impl; [exact Hmin|]. intros y Hy. simpl in Hy.
      eapply Qle_trans; eauto.
    + injection H as <- <-. split.
      * rewrite Hperm. apply perm_swap.
      * constructor; [|done].
        destruct (Qlt_le_dec (Event.time m) (Event.time x)) as [Hlt|Hge].
        -- by apply Qlt_le_weak.
        -- apply Qle_bool_iff in Hge. congruence.
  - injection H as <- <-. apply list_pop_None in Hl as ->.
    split; [done|]. constructor; [apply Qle_refl|constructor].
Qed.

Definition ListPQ : EventQueue :=
  {| pq_car := list Event.t;
     pq_new := [];
     pq_push := cons;
     pq_pop := list_pop;
     pq_items := fun q => q;
     pq_items_new := eq_refl;
     pq_items_push := fun e q => reflexivity (e :: q);
     pq_pop_None := list_pop_None;
     pq_pop_Some := list_pop_Some |}.

(** ** The controller, its buffer and the event loop *)

Definition BUFFER_SIZE : nat := 8.

Section Simulation.

Context {PQ : EventQueue}.

(** The fields of [Controller], with the [requests_] of its [Buffer] as
    [buffer_], and the store [mem] of the [Request] objects. *)
Record Controller := mkController {
  events_ : pq_car PQ;
  sources_ : list Source.t;
  devices_ : list Device.t;
  buffer_ : list ptr;
  globalRequestId_ : Z;
  maxRequests_ : Z;
  generatedRequestsCount_ : Z;
  rejectedRequests_ : Z;
  rejectedByPriority_ : gmap Priority Z;
  totalWaitTime_ : Q;
  servedRequestsCount_ : Z;
  lastEventTime_ : Q;
  mem : store
}.

Definition with_events (x : pq_car PQ) (c : Controller) : Controller :=
  mkController x (sources_ c) (devices_ c) (buffer_ c) (globalRequestId_ c)
    (maxRequests_ c) (generatedRequestsCount_ c) (rejectedRequests_ c)
    (rejectedByPriority_ c) (totalWaitTime_ c) (servedRequestsCount_ c)
    (lastEventTime_ c) (mem c).

Definition with_sources (x : list Source.t) (c : Controller) : Controller :=
  mkController (events_ c) x (devices_ c) (buffer_ c) (globalRequestId_ c)
    (maxRequests_ c) (generatedRequestsCount_ c) (rejectedRequests_ c)
    (rejectedByPriority_ c) (totalWaitTime_ c) (servedRequestsCount_ c)
    (lastEventTime_ c) (mem c).

Definition with_devices (x : list Device.t) (c : Controller) : Controller :=
  mkController (events_ c) (sources_ c) x (buffer_ c) (globalRequestId_ c)
    (maxRequests_ c) (generatedRequestsCount_ c) (rejectedRequests_ c)
    (rejectedByPriority_ c) (totalWaitTime_ c) (servedRequestsCount_ c)
    (lastEventTime_ c) (mem c).

Definition with_buffer (x : list ptr) (c : Controller) : Controller :=
  mkController (events_ c) (sources_ c) (devices_ c) x (globalRequestId_ c)
    (maxRequests_ c) (generatedRequestsCount_ c) (rejectedRequests_ c)
    (rejectedByPriority_ c) (totalWaitTime_ c) (servedRequestsCount_ c)
    (lastEventTime_ c) (mem c).

Definition with_globalRequestId (x : Z) (c : Controller) : Controller :=
  mkController (events_ c) (sources_ c) (devices_ c) (buffer_ c) x
    (maxRequests_ c) (generatedRequestsCount_ c) (rejectedRequests_ c)
    (rejectedByPriority_ c) (totalWaitTime_ c) (servedRequestsCount_ c)
    (lastEventTime_ c) (mem c).

Definition with_generatedRequestsCount (x : Z) (c : Controller)
    : Controller :=
  mkController (events_ c) (sources_ c) (devices_ c) (buffer_ c)
    (globalRequestId_ c) (maxRequests_ c) x (rejectedRequests_ c)
    (rejectedByPriority_ c) (totalWaitTime_ c) (servedRequestsCount_ c)
    (lastEventTime_ c) (mem c).

Definition with_totalWaitTime (x : Q) (c : Controller) : Controller :=
  mkController (events_ c) (sources_ c) (devices_ c) (buffer_ c)
    (globalRequestId_ c) (maxRequests_ c) (generatedRequestsCount_ c)
    (rejectedRequests_ c) (rejectedByPriority_ c) x (servedRequestsCount_ c)
    (lastEventTime_ c) (mem c).

Definition with_servedRequestsCount (x : Z) (c : Controller) : Controller :=
  mkController (events_ c) (sources_ c) (devices_ c) (buffer_ c)
    (globalRequestId_ c) (maxRequests_ c) (generatedRequestsCount_ c)
    (rejectedRequests_ c) (rejectedByPriority_ c) (totalWaitTime_ c) x
    (lastEventTime_ c) (mem c).

Definition with_mem (x : store) (c : Controller) : Controller :=
  mkController (events_ c) (sources_ c) (devices_ c) (buffer_ c)
    (globalRequestId_ c) (maxRequests_ c) (generatedRequestsCount_ c)
    (rejectedRequests_ c) (rejectedByPriority_ c) (totalWaitTime_ c)
    (servedRequestsCount_ c) (lastEventTime_ c) x.

Definition incrementRejectedRequests (c : Controller) : Controller :=
  mkController (events_ c) (sources_ c) (devices_ c) (buffer_ c)
    (globalRequestId_ c) (maxRequests_ c) (generatedRequestsCount_ c)
    (rejectedRequests_ c + 1) (rejectedByPriority_ c) (totalWaitTime_ c)
    (servedRequestsCount_ c) (lastEventTime_ c) (mem c).

(** [rejectedByPriority_[pr]++], where [operator[]] of [std::map] creates a
    missing entry with value 0. *)
Definition incrementRejectedByPriority (pr : Priority) (c : Controller)
    : Controller :=
  mkController (events_ c) (sources_ c) (devices_ c) (buffer_ c)
    (globalRequestId_ c) (maxRequests_ c) (generatedRequestsCount_ c)
    (rejectedRequests_ c)
    (<[pr := default 0 (rejectedByPriority_ c !! pr) + 1]>
       (rejectedByPriority_ c))
    (totalWaitTime_ c) (servedRequestsCount_ c) (lastEventTime_ c) (mem c).

Definition getRejectedByPriority (p : Priority) (c : Controller) : Z :=
  match rejectedByPriority_ c !! p with
  | Some n => n
  | None => 0
  end.

Definition updateLastEventTime (x : Q) (c : Controller) : Controller :=
  mkController (events_ c) (sources_ c) (devices_ c) (buffer_ c)
    (globalRequestId_ c) (maxRequests_ c) (generatedRequestsCount_ c)
    (rejectedRequests_ c) (rejectedByPriority_ c) (totalWaitTime_ c)
    (servedRequestsCount_ c)
    (if Qle_bool x (lastEventTime_ c) then lastEventTime_ c else x) (mem c).

Definition pushEvent (ev : Event.t) (c : Controller) : Controller :=
  with_events (pq_push PQ ev (events_ c)) c.

(** *** Buffer *)

(** The predicate of the ordered insertion: the first occupant that must
    stay behind the incoming request. *)
Definition insert_before (req r : Request.t) : bool :=
  if priority_int (Request.priority_ r) <? priority_int (Request.priority_ req)
  then false
  else if bool_decide (Request.priority_ r = Request.priority_ req)
          && negb (Qle_bool (Request.arrivalTime_ req) (Request.arrivalTime_ r))
  then false
  else true.

Definition has_priority (pr : Priority) (r : Request.t) : bool :=
  bool_decide (Request.priority_ r = pr).

Definition reject (newPr : Priority) (c : Controller) : Controller :=
  incrementRejectedByPriority newPr (incrementRejectedRequests c).

(** The eviction branch shared by the three [if (it != requests_.end())]
    blocks: erase the occupant at [it], count it as rejected, then
    [push_back] the incoming request. *)
Definition evict (it : nat) (req : ptr) (r : Request.t) (c : Controller)
    : option (bool * Controller) :=
  match buffer_ c !! it with
  | None => None
  | Some evictedReq =>
      match mem c !! evictedReq with
      | None => None
      | Some evicted =>
          let c1 := with_buffer (delete it (buffer_ c)) c in
          let c2 := incrementRejectedRequests c1 in
          let c3 := incrementRejectedByPriority (Request.priority_ evicted) c2 in
          let c4 := with_buffer (buffer_ c3 ++ [req]) c3 in
          match store_update req
                  (Request.setBufferEnterTime (Request.arrivalTime_ r))
                  (mem c4) with
          | None => None
          | Some m' => Some (true, with_mem m' c4)
          end
      end
  end.

Definition addRequest (req : ptr) (c : Controller)
    : option (bool * Controller) :=
  match mem c !! req with
  | None => None
  | Some r =>
      if (length (buffer_ c) <? BUFFER_SIZE)%nat then
        match find_if (insert_before r) (mem c) (buffer_ c) with
        | None => None
        | Some it =>
            let c1 :=
              with_buffer (take it (buffer_ c) ++ req :: drop it (buffer_ c)) c in
            match store_update req
                    (Request.setBufferEnterTime (Request.arrivalTime_ r))
                    (mem c1) with
            | None => None
            | Some m' => Some (true, with_mem m' c1)
            end
        end
      else
        let newPr := Request.priority_ r in
        match newPr with
        | FREE => Some (false, reject newPr c)
        | PREMIUM =>
            match find_if (has_priority FREE) (mem c) (buffer_ c) with
            | None => None
            | Some itFree =>
                if (itFree <? length (buffer_ c))%nat
                then evict itFree req r c
                else Some (false, reject newPr c)
            end
        | CORPORATE =>
            match find_if (has_priority FREE) (mem c) (buffer_ c) with
            | None => None
            | Some itFree =>
                if (itFree <? length (buffer_ c))%nat
                then evict itFree req r c
                else
                  match find_if (has_priority PREMIUM) (mem c) (buffer_ c) with
                  | None => None
                  | Some itPrem =>
                      if (itPrem <? length (buffer_ c))%nat
                      then evict itPrem req r c
                      else Some (false, reject newPr c)
                  end
            end
        end
  end.

Definition popRequest (c : Controller) : option ptr * Controller :=
  match buffer_ c with
  | [] => (None, c)
  | req :: rest => (Some req, with_buffer rest c)
  end.

(** *** Construction *)

(** One of the three loops that create the sources of a class; [seed]
    gives each source, by its index, its own generator. *)
Fixpoint makeSources (n : nat) (pr : Priority) (sourceIndex : Z)
    (seed : Z -> mt19937) : list Source.t :=
  match n with
  | O => []
  | S n' =>
      Source.mk pr sourceIndex (seed sourceIndex)
      :: makeSources n' pr (sourceIndex + 1) seed
  end.

(** The loop [for (int i = 1; i <= numDevices; ++i)], from [i] on. *)
Fixpoint makeDevices (n : nat) (i : Z) (seed : Z -> mt19937)
    : list Device.t :=
  match n with
  | O => []
  | S n' => Device.new i (seed i) :: makeDevices n' (i + 1) seed
  end.

(** [Controller::Controller]; a loop over a count that is not positive
    runs no iteration. *)
Definition newController (numCorporate numPremium numFree numDevices
    maxRequests : Z) (sourceSeed deviceSeed : Z -> mt19937) : Controller :=
  let corporate := makeSources (Z.to_nat numCorporate) CORPORATE 0 sourceSeed in
  let premium :=
    makeSources (Z.to_nat numPremium) PREMIUM
      (Z.of_nat (length corporate)) sourceSeed in
  let free :=
    makeSources (Z.to_nat numFree) FREE
      (Z.of_nat (length corporate + length premium)) sourceSeed in
  mkController (pq_new PQ)
    (corporate ++ premium ++ free)
    (makeDevices (Z.to_nat numDevices) 1 deviceSeed)
    []
    0 maxRequests 0 0
    (<[FREE := 0]> (<[PREMIUM := 0]> (<[CORPORATE := 0]> ∅)))
    0 0 0 [].

(** What [initRequests] and [scheduleNextRequest] both do once the ceiling
    check has passed: draw the gap from the source at index [i], allocate
    the request and push its arrival. *)
Definition generate (i : nat) (src : Source.t) (currentTime : Q)
    (c : Controller) : Controller :=
  let '(delta, src') := Source.generateInterArrivalTime currentTime src in
  let arrivalTime := (currentTime + delta)%Q in
  let c1 := with_sources (<[i := src']> (sources_ c)) c in
  let c2 := with_globalRequestId (globalRequestId_ c1 + 1) c1 in
  let newReqId := globalRequestId_ c2 in
  let '(newReq, m') :=
    make_shared (Source.createRequest newReqId arrivalTime src') (mem c2) in
  let c3 := with_mem m' c2 in
  let c4 := with_generatedRequestsCount (generatedRequestsCount_ c3 + 1) c3 in
  pushEvent (Event.mk REQUEST_GENERATED arrivalTime newReq (-1)) c4.

(** The loop of [initRequests] over [sources_], from index [i] on. *)
Fixpoint initRequests_from (todo : nat) (i : nat) (c : Controller)
    : Controller :=
  match todo with
  | O => c
  | S todo' =>
      match sources_ c !! i with
      | None => c
      | Some src =>
          if maxRequests_ c <=? generatedRequestsCount_ c then c
          else initRequests_from todo' (S i) (generate i src 0 c)
      end
  end.

Definition initRequests (c : Controller) : Controller :=
  initRequests_from (length (sources_ c)) O c.

(** [Source::scheduleNextRequest], called on the source at index [i]. *)
Definition scheduleNextRequest (i : nat) (currentTime : Q) (c : Controller)
    : Controller :=
  match sources_ c !! i with
  | None => c
  | Some src =>
      if maxRequests_ c <=? generatedRequestsCount_ c then c
      else generate i src currentTime c
  end.

(** *** Dispatch *)

(** The body of the loop of [loadRequestsToFreeDevices] for an idle device
    at index [i] and a request [nextReq] popped from the buffer. *)
Definition dispatch (i : nat) (device : Device.t) (nextReq : ptr)
    (currentTime : Q) (c : Controller) : option Controller :=
  match Device.loadRequest nextReq currentTime device (mem c) with
  | None => None
  | Some (device', m') =>
      match m' !! nextReq with
      | None => None
      | Some r =>
          let waitTime := (currentTime - Request.bufferEnterTime_ r)%Q in
          let c1 := with_mem m' (with_devices (<[i := device']> (devices_ c)) c) in
          let c2 := with_totalWaitTime (totalWaitTime_ c1 + waitTime)%Q c1 in
          let c3 := with_servedRequestsCount (servedRequestsCount_ c2 + 1) c2 in
          let serviceDuration := Device.serviceTimeHours_ device' in
          Some (pushEvent
                  (Event.mk REQUEST_SERVED (currentTime + serviceDuration)%Q
                     nextReq (Device.id_ device')) c3)
      end
  end.

(** The loop of [loadRequestsToFreeDevices] over [devices_], from index
    [i] on. *)
Fixpoint loadRequests_from (todo : nat) (i : nat) (currentTime : Q)
    (c : Controller) : option Controller :=
  match todo with
  | O => Some c
  | S todo' =>
      match devices_ c !! i with
      | None => Some c
      | Some device =>
          if Device.busy_ device
          then loadRequests_from todo' (S i) currentTime c
          else
            match popRequest c with
            | (None, c1) => Some c1
            | (Some nextReq, c1) =>
                match dispatch i device nextReq currentTime c1 with
                | None => None
                | Some c2 => loadRequests_from todo' (S i) currentTime c2
                end
            end
      end
  end.

Definition loadRequestsToFreeDevices (currentTime : Q) (c : Controller)
    : option Controller :=
  loadRequests_from (length (devices_ c)) O currentTime c.

(** *** Event handlers and the main loop *)

Definition handleRequestGenerated (req : ptr) (currentTime : Q)
    (c : Controller) : option Controller :=
  match addRequest req c with
  | None => None
  | Some (added, c1) =>
      match (if added then loadRequestsToFreeDevices currentTime c1
             else Some c1) with
      | None => None
      | Some c2 =>
          match mem c2 !! req with
          | None => None
          | Some r =>
              let srcIdx := Request.sourceIndex_ r in
              if (0 <=? srcIdx) && (srcIdx <? Z.of_nat (length (sources_ c2)))
              then Some (scheduleNextRequest (Z.to_nat srcIdx) currentTime c2)
              else Some c2
          end
      end
  end.

(** [devices_[deviceId - 1]] is undefined outside the vector. *)
Definition handleRequestFinished (deviceId : Z) (currentTime : Q) (req : ptr)
    (c : Controller) : option Controller :=
  if (1 <=? deviceId) && (deviceId <=? Z.of_nat (length (devices_ c))) then
    let i := Z.to_nat (deviceId - 1) in
    match devices_ c !! i with
    | None => None
    | Some d =>
        loadRequestsToFreeDevices currentTime
          (with_devices (<[i := Device.freeDevice currentTime d]> (devices_ c)) c)
    end
  else None.

Definition handleEvent (currentEvent : Event.t) (c : Controller)
    : option Controller :=
  let currentTime := Event.time currentEvent in
  let c1 := updateLastEventTime currentTime c in
  match Event.type currentEvent with
  | REQUEST_GENERATED =>
      handleRequestGenerated (Event.request currentEvent) currentTime c1
  | REQUEST_SERVED =>
      handleRequestFinished (Event.deviceId currentEvent) currentTime
        (Event.request currentEvent) c1
  end.

(** How a call of [work] ends. *)
Inductive Run :=
| Returns (c : Controller)
| Undefined
| OutOfFuel.

(** The [while] loop of [work], for at most [fuel] iterations. *)
Fixpoint work_loop (fuel : nat) (c : Controller) : Run :=
  if servedRequestsCount_ c <? maxRequests_ c then
    match pq_pop PQ (events_ c) with
    | None => Returns c
    | Some (currentEvent, q) =>
        match fuel with
        | O => OutOfFuel
        | S fuel' =>
            match handleEvent currentEvent (with_events q c) with
            | None => Undefined
            | Some c' => work_loop fuel' c'
            end
        end
    end
  else Returns c.

(** A bound on the number of iterations left: a pending arrival may still
    enter the buffer, be dispatched and complete; every request not yet
    generated may do the same. *)
Definition count_type (ty : EventType) (l : list Event.t) : nat :=
  length (filter (fun e => Event.type e = ty) l).

Definition iterations_left (c : Controller) : nat :=
  3 * count_type REQUEST_GENERATED (pq_items PQ (events_ c))
  + count_type REQUEST_SERVED (pq_items PQ (events_ c))
  + 2 * length (buffer_ c)
  + 3 * Z.to_nat (maxRequests_ c - generatedRequestsCount_ c).

Definition work (c : Controller) : Run :=
  work_loop (iterations_left c) c.

(** [main]: construct, [initRequests], [work]. *)
Definition start (numCorporate numPremium numFree numDevices maxRequests : Z)
    (sourceSeed deviceSeed : Z -> mt19937) : Controller :=
  initRequests
    (newController numCorporate numPremium numFree numDevices maxRequests
       sourceSeed deviceSeed).

(** *** Notions used by the properties *)

(** The object of the occupant at position [i] of the buffer. *)
Definition occupant (c : Controller) (i : nat) : option Request.t :=
  match buffer_ c !! i with
  | Some p => mem c !! p
  | None => None
  end.

(** [a] may stand before [b] in the buffer. *)
Definition may_precede (a b : Request.t) : Prop :=
  priority_int (Request.priority_ a) < priority_int (Request.priority_ b)
  \/ (Request.priority_ a = Request.priority_ b
      /\ (Request.arrivalTime_ a <= Request.arrivalTime_ b)%Q).

Definition buffer_ordered (c : Controller) : Prop :=
  forall i j a b, (i < j)%nat ->
    occupant c i = Some a -> occupant c j = Some b -> may_precede a b.

(** The occupant at [i] is the first one of priority [pr]. *)
Definition first_with (pr : Priority) (c : Controller) (i : nat) : Prop :=
  (exists e, occupant c i = Some e /\ Request.priority_ e = pr)
  /\ forall j e, (j < i)%nat -> occupant c j = Some e -> Request.priority_ e <> pr.

Definition none_with (pr : Priority) (c : Controller) : Prop :=
  forall i e, occupant c i = Some e -> Request.priority_ e <> pr.

Definition all_with (pr : Priority) (c : Controller) : Prop :=
  forall i, (i < length (buffer_ c))%nat ->
    exists e, occupant c i = Some e /\ Request.priority_ e = pr.

(** From [c] to [c'] the counters of rejections charge one request of
    priority [pr]. *)
Definition charges (pr : Priority) (c c' : Controller) : Prop :=
  rejectedRequests_ c' = rejectedRequests_ c + 1
  /\ forall pr', getRejectedByPriority pr' c'
       = getRejectedByPriority pr' c + (if decide (pr' = pr) then 1 else 0).

(** From [c] to [c'] the occupant at [i] is evicted for [req]. *)
Definition evicts (i : nat) (req : ptr) (c c' : Controller) : Prop :=
  buffer_ c' = delete i (buffer_ c) ++ [req]
  /\ length (buffer_ c') = length (buffer_ c)
  /\ exists e, occupant c i = Some e /\ charges (Request.priority_ e) c c'.

(** Calls of the public interface of [Buffer]. *)
Inductive BufferCall :=
| CallAdd (req : ptr)
| CallPop.

Definition call (k : BufferCall) (c : Controller) : option Controller :=
  match k with
  | CallAdd req =>
      match addRequest req c with
      | Some (_, c') => Some c'
      | None => None
      end
  | CallPop => Some (snd (popRequest c))
  end.

Fixpoint calls (ks : list BufferCall) (c : Controller) : option Controller :=
  match ks with
  | [] => Some c
  | k :: ks' =>
      match call k c with
      | Some c' => calls ks' c'
      | None => None
      end
  end.

(** The states at the head of the loop of [work], from [c0] on. *)
Inductive reachable (c0 : Controller) : Controller -> Prop :=
| reachable_start : reachable c0 c0
| reachable_iteration c ev q c' :
    reachable c0 c ->
    servedRequestsCount_ c < maxRequests_ c ->
    pq_pop PQ (events_ c) = Some (ev, q) ->
    handleEvent ev (with_events q c) = Some c' ->
    reachable c0 c'.

(** Arrivals generated and not yet processed. *)
Definition pending_arrivals (c : Controller) : nat :=
  count_type REQUEST_GENERATED (pq_items PQ (events_ c)).

(** Devices that hold a request. *)
Definition in_service (c : Controller) : nat :=
  length (filter (fun d => Device.busy_ d = true) (devices_ c)).

(** [p] was dispatched and is still referenced: by the device that serves
    it or by its pending completion. *)
Definition dispatched (c : Controller) (p : ptr) : Prop :=
  (exists e, e ∈ pq_items PQ (events_ c)
             /\ Event.type e = REQUEST_SERVED /\ Event.request e = p)
  \/ (exists d, d ∈ devices_ c /\ Device.currentRequest_ d = Some p).

(** Every sample of every generator is a duration. *)
Definition durations (seed : Z -> mt19937) : Prop :=
  forall i n, (0 <= draws (seed i) n)%Q.

(** Every pointer of [l] points into the store [m]. *)
Definition live (m : store) (l : list ptr) : Prop :=
  Forall (fun p => (p < length m)%nat) l.

Definition admitted (req : ptr) (r : Request.t) (m : store) : store :=
  <[req := Request.setBufferEnterTime (Request.arrivalTime_ r) r]> m.

Inductive admission (req : ptr) (r : Request.t) (c : Controller)
  : bool -> Controller -> Prop :=
| admission_insert it :
    (length (buffer_ c) < BUFFER_SIZE)%nat ->
    find_if (insert_before r) (mem c) (buffer_ c) = Some it ->
    admission req r c true
      (with_mem (admitted req r (mem c))
         (with_buffer (take it (buffer_ c) ++ req :: drop it (buffer_ c)) c))
| admission_evict it e :
    (BUFFER_SIZE <= length (buffer_ c))%nat ->
    occupant c it = Some e ->
    priority_int (Request.priority_ r) < priority_int (Request.priority_ e) ->
    admission req r c true
      (with_mem (admitted req r (mem c))
         (with_buffer (delete it (buffer_ c) ++ [req])
            (reject (Request.priority_ e) c)))
| admission_reject :
    (BUFFER_SIZE <= length (buffer_ c))%nat ->
    admission req r c false (reject (Request.priority_ r) c).

(** Requests generated and not accounted for by the counters, the buffer
    or the pending arrivals. *)
Definition unaccounted (c : Controller) : Z :=
  generatedRequestsCount_ c
  - (servedRequestsCount_ c + rejectedRequests_ c
     + Z.of_nat (length (buffer_ c)) + Z.of_nat (pending_arrivals c)).

(** The store keeps [bufferEnterTime_] equal to [arrivalTime_]. *)
Definition store_ok (m : store) : Prop :=
  Forall (fun r => Request.bufferEnterTime_ r = Request.arrivalTime_ r) m.

(** The entry of a priority in the map of rejections, 0 when it has
    none. *)
Definition rejected_of (m : gmap Priority Z) (pr : Priority) : Z :=
  default 0 (m !! pr).

(** Well-formed states: pointers point into the store, completions name
    a device of the pool, the device at index [i] has id [i + 1], and the
    counters are within their bounds. *)
Record wf (c : Controller) : Prop := {
  wf_buffer : live (mem c) (buffer_ c);
  wf_events :
    Forall (fun e => (Event.request e < length (mem c))%nat)
      (pq_items PQ (events_ c));
  wf_served :
    Forall (fun e => Event.type e = REQUEST_SERVED ->
                     1 <= Event.deviceId e <= Z.of_nat (length (devices_ c)))
      (pq_items PQ (events_ c));
  wf_devices :
    forall i d, devices_ c !! i = Some d -> Device.id_ d = Z.of_nat i + 1;
  wf_store : store_ok (mem c);
  wf_counters :
    0 <= servedRequestsCount_ c /\ 0 <= rejectedRequests_ c
    /\ 0 <= generatedRequestsCount_ c <= Z.max 0 (maxRequests_ c)
    /\ globalRequestId_ c = generatedRequestsCount_ c;
  wf_by_priority :
    (forall pr, 0 <= rejected_of (rejectedByPriority_ c) pr)
    /\ rejected_of (rejectedByPriority_ c) CORPORATE
       + rejected_of (rejectedByPriority_ c) PREMIUM
       + rejected_of (rejectedByPriority_ c) FREE
       = rejectedRequests_ c
}.

(** The arrival time of the request that [p] points to. *)
Definition arrival (m : store) (p : ptr) : Q :=
  match m !! p with
  | Some r => Request.arrivalTime_ r
  | None => 0%Q
  end.

(** The timestamps of a request in service are in order. *)
Definition stamps_in_order (r : Request.t) : Prop :=
  (Request.arrivalTime_ r <= Request.bufferEnterTime_ r)%Q
  /\ (Request.bufferEnterTime_ r <= Request.startServiceTime_ r)%Q.

(** States in which simulated time is consistent: no pending event lies
    before the last processed one, no occupant of the buffer and no pending
    arrival is ahead of its own arrival time, requests in service have
    their timestamps in order, and every generator yields durations. *)
Record timely (c : Controller) : Prop := {
  timely_events :
    Forall (fun e => (lastEventTime_ c <= Event.time e)%Q)
      (pq_items PQ (events_ c));
  timely_buffer :
    Forall (fun p => (arrival (mem c) p <= lastEventTime_ c)%Q) (buffer_ c);
  timely_arrivals :
    Forall (fun e => Event.type e = REQUEST_GENERATED ->
                     (arrival (mem c) (Event.request e) <= Event.time e)%Q)
      (pq_items PQ (events_ c));
  timely_dispatched :
    forall p, dispatched c p ->
      exists r, mem c !! p = Some r /\ stamps_in_order r;
  timely_sources :
    Forall (fun s => forall n, (0 <= draws (Source.rng_ s) n)%Q) (sources_ c);
  timely_devices :
    Forall (fun d => forall n, (0 <= draws (Device.rng_ d) n)%Q) (devices_ c)
}.

(** The total of [x - arrival] over the requests [ps], added to [acc] in
    the order of dispatch. *)
Definition charge_waits (m : store) (x : Q) (ps : list ptr) (acc : Q) : Q :=
  fold_left (fun a p => (a + (x - arrival m p))%Q) ps acc.

(** The part of the state that a dispatch leaves alone. *)
Definition same_setting (c c' : Controller) : Prop :=
  maxRequests_ c' = maxRequests_ c
  /\ generatedRequestsCount_ c' = generatedRequestsCount_ c
  /\ rejectedRequests_ c' = rejectedRequests_ c
  /\ rejectedByPriority_ c' = rejectedByPriority_ c
  /\ sources_ c' = sources_ c
  /\ lastEventTime_ c' = lastEventTime_ c
  /\ length (devices_ c') = length (devices_ c)
  /\ length (mem c') = length (mem c).

(** What a sweep at time [x] from [c0] has done when it is at [c]: it has
    dispatched the requests [ps], and charged their waits. *)
Definition swept (c0 : Controller) (x : Q) (ps : list ptr) (c : Controller)
    : Prop :=
  servedRequestsCount_ c = servedRequestsCount_ c0 + Z.of_nat (length ps)
  /\ totalWaitTime_ c = charge_waits (mem c0) x ps (totalWaitTime_ c0)
  /\ (forall q, arrival (mem c) q = arrival (mem c0) q)
  /\ Forall (fun p => exists e, e ∈ pq_items PQ (events_ c)
                                /\ Event.type e = REQUEST_SERVED
                                /\ Event.request e = p) ps.

(** The loop of [work] is left with the target reached or the queue
    empty. *)
Definition finished (c : Controller) : Prop :=
  maxRequests_ c <= servedRequestsCount_ c \/ pq_items PQ (events_ c) = [].

(** *** More of the interface *)

(** [Buffer::isEmpty] *)
Definition isEmpty (c : Controller) : bool :=
  match buffer_ c with
  | [] => true
  | _ :: _ => false
  end.

(** No occupant has a priority strictly lower than [r]'s (a greater
    number). *)
Definition none_lower (r : Request.t) (c : Controller) : Prop :=
  forall i e, occupant c i = Some e ->
    priority_int (Request.priority_ e) <= priority_int (Request.priority_ r).

(** *** Invariants of a run *)

(** Requests are numbered in the order of their creation, and each one
    carries the index and the priority of the source that created it. *)
Record identified (c : Controller) : Prop := {
  identified_ids :
    forall p r, mem c !! p = Some r -> Request.id_ r = Z.of_nat p + 1;
  identified_count :
    Z.of_nat (length (mem c)) = generatedRequestsCount_ c;
  identified_sources :
    forall i s, sources_ c !! i = Some s ->
      Source.sourceIndex_ s = Z.of_nat i;
  identified_origin :
    forall p r, mem c !! p = Some r ->
      exists s,
        sources_ c !! Z.to_nat (Request.sourceIndex_ r) = Some s
        /\ 0 <= Request.sourceIndex_ r
        /\ Source.priority_ s = Request.priority_ r
}.

(** No request waits while a device is idle. *)
Definition conserving (c : Controller) : Prop :=
  buffer_ c = [] \/ Forall (fun d => Device.busy_ d = true) (devices_ c).

(** The pending completions of the device of id [id]. *)
Definition completions_of (id : Z) (l : list Event.t) : list Event.t :=
  filter (fun e => Event.type e = REQUEST_SERVED /\ Event.deviceId e = id) l.

(** Among the pending events [l], a busy device has exactly one
    completion, at its [finishTime_] and for its [currentRequest_]; an idle
    device has none, and no request. *)
Definition paired (l : list Event.t) (d : Device.t) : Prop :=
  length (completions_of (Device.id_ d) l)
  = (if Device.busy_ d then 1 else 0)%nat
  /\ Forall (fun e => Event.time e = Device.finishTime_ d
                      /\ Device.currentRequest_ d = Some (Event.request e))
       (completions_of (Device.id_ d) l)
  /\ (Device.busy_ d = false -> Device.currentRequest_ d = None).

(** At the time [now], the busy time of a device is within the elapsed
    time. *)
Definition timed (now : Q) (d : Device.t) : Prop :=
  (0 <= Device.busyTotalTime_ d)%Q
  /\ if Device.busy_ d
     then (Device.busyTotalTime_ d <= Device.startBusyTime_ d)%Q
          /\ (Device.startBusyTime_ d <= Device.finishTime_ d)%Q
          /\ (Device.startBusyTime_ d <= now)%Q
     else (Device.busyTotalTime_ d <= now)%Q.

Record clocked (c : Controller) : Prop := {
  clocked_paired : Forall (paired (pq_items PQ (events_ c))) (devices_ c);
  clocked_timed : Forall (timed (lastEventTime_ c)) (devices_ c);
  clocked_wait : (0 <= totalWaitTime_ c)%Q
}.

(** The device [d] once [loadRequest] has loaded the request [p] at time
    [x]. *)
Definition loaded (p : ptr) (x : Q) (d : Device.t) : Device.t :=
  Device.mk (Device.id_ d) true
    (x + fst (exponential_distribution (Device.rng_ d)))%Q
    (Device.busyTotalTime_ d) x (Some p)
    (fst (exponential_distribution (Device.rng_ d)))
    (snd (exponential_distribution (Device.rng_ d))).

(** *** Statistics *)

(** The average waiting time that [printStatistics] prints. *)
Definition avgWaitTime (c : Controller) : Q :=
  if 0 <? servedRequestsCount_ c
  then (totalWaitTime_ c / inject_Z (servedRequestsCount_ c))%Q
  else 0%Q.

(** The utilization of a device that [printStatistics] computes; the load
    printed is a hundred times this. *)
Definition utilization (c : Controller) (dev : Device.t) : Q :=
  let busyTime := Device.busyTotalTime_ dev in
  if negb (Qle_bool (lastEventTime_ c) 0)
  then (busyTime / lastEventTime_ c)%Q
  else 0%Q.

(** *** The pending events *)

(** The index of the source that created the request of the event [e]. *)
Definition source_of (m : store) (e : Event.t) : Z :=
  match m !! Event.request e with
  | Some r => Request.sourceIndex_ r
  | None => -1
  end.

Definition arrivals (l : list Event.t) : list Event.t :=
  filter (fun e => Event.type e = REQUEST_GENERATED) l.

(** The sources of the pending arrivals. *)
Definition pending_sources (c : Controller) : list Z :=
  source_of (mem c) <$> arrivals (pq_items PQ (events_ c)).

(** From [c] to [c'] the pending arrivals are the same, and every request
    keeps its source. *)
Definition same_arrivals (c c' : Controller) : Prop :=
  (forall e, source_of (mem c') e = source_of (mem c) e)
  /\ arrivals (pq_items PQ (events_ c'))
     ≡ₚ arrivals (pq_items PQ (events_ c)).

End Simulation.

(** The queue is named where nothing else determines it. *)
Arguments Controller PQ : clear implicits.
Arguments mkController PQ : clear implicits.
Arguments Run PQ : clear implicits.
Arguments newController PQ : clear implicits.
Arguments start PQ : clear implicits.
Arguments reachable_start PQ : clear implicits.
Arguments reachable_iteration PQ : clear implicits.
Arguments admission_insert PQ : clear implicits.
Arguments admission_evict PQ : clear implicits.
Arguments admission_reject PQ : clear implicits.

(** ** Concrete states and runs, with the reference queue *)

Definition constant_seed (d : Q) : Z -> mt19937 :=
  fun _ => mkRng (fun _ => d) 0.

(** A controller without sources or devices, used to call the buffer. *)
Definition bare : Controller ListPQ :=
  newController ListPQ 0 0 0 0 0 (constant_seed 0) (constant_seed 0).

(** Eight FREE requests, arrived at hours 0 to 7, and one more request. *)
Definition free_requests : list Request.t :=
  map (fun k => Request.new (Z.of_nat k) FREE (Z.of_nat k # 1) 0) (seq 0 8).

Definition store_with (extra : Request.t) : Controller ListPQ :=
  with_mem (free_requests ++ [extra]) bare.

Definition full_of_free (extra : Request.t) : Controller ListPQ :=
  with_buffer (seq 0 8) (store_with extra).

(** Nine admissions: of the eight FREE requests, then of the request at
    address 8. *)
Definition nine_admissions : list BufferCall :=
  map CallAdd (seq 0 9).

(** The state after the nine admissions. *)
Definition after_nine_admissions : Controller ListPQ :=
  match calls nine_admissions (store_with (Request.new 8 PREMIUM 8 0)) with
  | Some c => c
  | None => bare
  end.

(** One CORPORATE source, one device, a target of one request; every gap
    between arrivals is half an hour and every service takes 40 minutes. *)
Definition one_request : Controller ListPQ :=
  start ListPQ 1 0 0 1 1 (constant_seed (1 # 2)) (constant_seed (2 # 3)).

(** The arrival of the only request, and the state once it is handled:
    the request is on the device and its completion is pending. *)
Definition first_arrival : Event.t :=
  Event.mk REQUEST_GENERATED (0 + (1 # 2)) 0%nat (-1).

Definition in_service_state : Controller ListPQ :=
  match handleEvent first_arrival (with_events (PQ:=ListPQ) [] one_request) with
  | Some c => c
  | None => one_request
  end.

(** The completion that the dispatch has pushed. *)
Definition first_completion : Event.t :=
  Event.mk REQUEST_SERVED (0 + (1 # 2) + (2 # 3)) 0%nat 1.

(** The string that [formatTime] builds for an amount of minutes within a
    day. *)
Definition render (k : Z) : string :=
  Fmt.snprintf 6 (Fmt.fmt_02d (k / 60) ++ ":" ++ Fmt.fmt_02d (k mod 60))%string.

(** Two FREE requests waiting, and a CORPORATE request at address 8. *)
Definition two_waiting : Controller ListPQ :=
  with_buffer (seq 0 2) (store_with (Request.new 8 CORPORATE 8 0)).

(** The state after a FREE request was refused by the full buffer. *)
Definition after_refusal : Controller ListPQ :=
  match addRequest 8%nat (full_of_free (Request.new 8 FREE 8 0)) with
  | Some (_, c) => c
  | None => bare
  end.

(** One FREE source and one device with a target of twelve requests; an
    arrival every half hour and a service of a hundred hours: the buffer
    fills up and the last arrivals are rejected. *)
Definition overloaded : Controller ListPQ :=
  start ListPQ 0 0 1 1 12 (constant_seed (1 # 2)) (constant_seed 100).

Definition overloaded_end : Controller ListPQ :=
  match work overloaded with
  | Returns c => c
  | _ => overloaded
  end.

(** ** Properties *)

Section Properties.

Context (PQ : EventQueue).

Implicit Types c : Controller PQ.

(** *** Searching the buffer *)

Lemma find_if_Some pred m l i :
  find_if pred m l = Some i ->
  (i <= length l)%nat
  /\ (forall j p, (j < i)%nat -> l !! j = Some p ->
        exists r, m !! p = Some r /\ pred r = false)
  /\ ((i < length l)%nat ->
        exists p r, l !! i = Some p /\ m !! p = Some r /\ pred r = true).
Proof.
  revert i. induction l as [|p l IH]; intros i H; simpl in H.
  - injection H as <-. repeat split; simpl; intros; lia.
  - destruct (m !! p) as [r|] eqn:Hp; [|done].
    destruct (pred r) eqn:Hr.
    + injection H as <-. repeat split; simpl; [lia|intros; lia|].
      intros _. by exists p, r.
    + destruct (find_if pred m l) as [i'|] eqn:Hl; [|done].
      injection H as <-. destruct (IH _ eq_refl) as (Hle & Hbefore & Hat).
      repeat split; simpl; [lia| |].
      * intros [|j] p' Hj Hp'; simpl in Hp'.
        -- injection Hp' as <-. by exists r.
        -- apply (Hbefore j); [lia|done].
      * intros Hlt. apply Hat. lia.
Qed.

Lemma find_if_is_Some pred m l :
  Forall (fun p => is_Some (m !! p)) l -> is_Some (find_if pred m l).
Proof.
  induction 1 as [|p l [r Hr] _ IH]; simpl; [by eexists|].
  rewrite Hr. destruct (pred r); [by eexists|].
  destruct IH as [i ->]. by eexists.
Qed.

(** *** Rejection *)

Lemma getRejectedByPriority_increment pr pr' c :
  getRejectedByPriority pr' (incrementRejectedByPriority pr c)
  = getRejectedByPriority pr' c + (if decide (pr' = pr) then 1 else 0).
Proof.
  unfold getRejectedByPriority, incrementRejectedByPriority. simpl.
  destruct (decide (pr' = pr)) as [->|Hne].
  - rewrite lookup_insert_eq. by destruct (rejectedByPriority_ c !! pr).
  - rewrite lookup_insert_ne by done. lia.
Qed.

Lemma reject_charges pr c : charges pr c (reject pr c).
Proof.
  split; [done|]. intros pr'. unfold reject.
  by rewrite getRejectedByPriority_increment.
Qed.

(** C4: a FREE request offered to a full buffer is refused, the buffer
    and the stored requests stay as they were, and the global and the FREE
    rejection counters each grow by one. *)
Theorem C4_full_buffer_refuses_FREE c req r :
  mem c !! req = Some r ->
  Request.priority_ r = FREE ->
  length (buffer_ c) = BUFFER_SIZE ->
  exists c',
    addRequest req c = Some (false, c')
    /\ buffer_ c' = buffer_ c
    /\ mem c' = mem c
    /\ rejectedRequests_ c' = rejectedRequests_ c + 1
    /\ getRejectedByPriority FREE c' = getRejectedByPriority FREE c + 1
    /\ getRejectedByPriority PREMIUM c' = getRejectedByPriority PREMIUM c
    /\ getRejectedByPriority CORPORATE c' = getRejectedByPriority CORPORATE c.
Proof.
  intros Hreq Hpr Hfull. exists (reject FREE c).
  unfold addRequest. rewrite Hreq, Hfull, Hpr. simpl.
  destruct (reject_charges FREE c) as [Hrej Hby].
  repeat split; try done; rewrite Hby; simpl; lia.
Qed.

(** *** Eviction *)

Lemma has_priority_true pr r :
  has_priority pr r = true <-> Request.priority_ r = pr.
Proof. unfold has_priority. apply bool_decide_eq_true. Qed.

Lemma has_priority_false pr r :
  has_priority pr r = false <-> Request.priority_ r <> pr.
Proof. unfold has_priority. apply bool_decide_eq_false. Qed.

Lemma find_if_first_with pr c i :
  find_if (has_priority pr) (mem c) (buffer_ c) = Some i ->
  (i < length (buffer_ c))%nat ->
  first_with pr c i.
Proof.
  intros H Hlt. apply find_if_Some in H as (_ & Hbefore & Hat).
  destruct (Hat Hlt) as (p & r & Hp & Hr & Hpr). split.
  - exists r. unfold occupant. rewrite Hp. by apply has_priority_true in Hpr.
  - intros j e Hj He. unfold occupant in He.
    destruct (buffer_ c !! j) as [p'|] eqn:Hp'; [|done].
    destruct (Hbefore j p' Hj Hp') as (r' & Hr' & Hpr').
    apply has_priority_false in Hpr'. congruence.
Qed.

Lemma find_if_none_with pr c i :
  find_if (has_priority pr) (mem c) (buffer_ c) = Some i ->
  ~ (i < length (buffer_ c))%nat ->
  none_with pr c.
Proof.
  intros H Hge. apply find_if_Some in H as (Hle & Hbefore & _).
  intros j e He. unfold occupant in He.
  destruct (buffer_ c !! j) as [p|] eqn:Hp; [|done].
  assert (j < i)%nat as Hj by (apply lookup_lt_Some in Hp; lia).
  destruct (Hbefore j p Hj Hp) as (r & Hr & Hpr).
  apply has_priority_false in Hpr. congruence.
Qed.

Lemma evict_Some it req r c e :
  mem c !! req = Some r ->
  occupant c it = Some e ->
  exists m',
    store_update req (Request.setBufferEnterTime (Request.arrivalTime_ r))
      (mem c) = Some m'
    /\ evict it req r c
       = Some (true,
           with_mem m'
             (with_buffer (delete it (buffer_ c) ++ [req])
                (reject (Request.priority_ e) c))).
Proof.
  intros Hreq He. unfold occupant in He.
  destruct (buffer_ c !! it) as [p|] eqn:Hp; [|done].
  unfold evict. rewrite Hp, He. simpl.
  unfold store_update. rewrite Hreq. eexists. split; reflexivity.
Qed.

Lemma evict_evicts it req r c e c' :
  mem c !! req = Some r ->
  occupant c it = Some e ->
  evict it req r c = Some (true, c') ->
  evicts it req c c'.
Proof.
  intros Hreq He H.
  destruct (evict_Some it req r c e Hreq He) as (m' & _ & Heq).
  rewrite Heq in H. injection H as <-.
  split; [done|]. split.
  - simpl. rewrite length_app, length_delete; simpl.
    + unfold occupant in He.
      destruct (buffer_ c !! it) eqn:Hp; [|done].
      apply lookup_lt_Some in Hp. lia.
    + unfold occupant in He. by destruct (buffer_ c !! it).
  - exists e. split; [done|]. apply (reject_charges (Request.priority_ e) c).
Qed.

(** C2: a CORPORATE request offered to a full buffer evicts the first FREE
    occupant if there is one, else the first PREMIUM occupant if there is
    one, and is refused only when every occupant is CORPORATE.  An eviction
    keeps the length and charges one rejection, globally and to the priority
    of the evicted occupant. *)
Theorem C2_full_buffer_CORPORATE c req r :
  mem c !! req = Some r ->
  Request.priority_ r = CORPORATE ->
  length (buffer_ c) = BUFFER_SIZE ->
  (forall i, (i < length (buffer_ c))%nat -> is_Some (occupant c i)) ->
  exists added c',
    addRequest req c = Some (added, c')
    /\ ((exists i, first_with FREE c i /\ added = true /\ evicts i req c c')
        \/ (none_with FREE c /\
            exists i, first_with PREMIUM c i /\ added = true
                      /\ evicts i req c c')
        \/ (all_with CORPORATE c /\ added = false
            /\ buffer_ c' = buffer_ c /\ mem c' = mem c
            /\ charges CORPORATE c c')).
Proof.
  intros Hreq Hpr Hfull Hlive.
  assert (Hptr : Forall (fun p => is_Some (mem c !! p)) (buffer_ c)).
  { apply Forall_lookup. intros i p Hp.
    specialize (Hlive i (lookup_lt_Some _ _ _ Hp)).
    unfold occupant in Hlive. by rewrite Hp in Hlive. }
  unfold addRequest. rewrite Hreq, Hfull, Hpr. simpl.
  destruct (find_if_is_Some (has_priority FREE) _ _ Hptr) as [iF HiF].
  rewrite HiF. rewrite Hfull in *.
  destruct (iF <? BUFFER_SIZE)%nat eqn:HltF.
  - apply Nat.ltb_lt in HltF.
    destruct (Hlive iF HltF) as [e He].
    destruct (evict_Some iF req r c e Hreq He) as (m' & _ & Hev).
    rewrite <- Hfull in HltF.
    eexists true, _. split; [exact Hev|]. left. exists iF.
    split; [by apply find_if_first_with|]. split; [done|].
    by eapply evict_evicts.
  - apply Nat.ltb_ge in HltF.
    assert (HnoF : none_with FREE c).
    { eapply find_if_none_with; [exact HiF|]. rewrite Hfull. lia. }
    destruct (find_if_is_Some (has_priority PREMIUM) _ _ Hptr) as [iP HiP].
    rewrite HiP.
    destruct (iP <? BUFFER_SIZE)%nat eqn:HltP.
    + apply Nat.ltb_lt in HltP.
      destruct (Hlive iP HltP) as [e He].
      destruct (evict_Some iP req r c e Hreq He) as (m' & _ & Hev).
      rewrite <- Hfull in HltP.
      eexists true, _. split; [exact Hev|]. right. left.
      split; [done|]. exists iP.
      split; [by apply find_if_first_with|]. split; [done|].
      by eapply evict_evicts.
    + apply Nat.ltb_ge in HltP.
      assert (HnoP : none_with PREMIUM c).
      { eapply find_if_none_with; [exact HiP|]. rewrite Hfull. lia. }
      eexists false, _. split; [reflexivity|]. right. right.
      split; [|repeat split; try done; apply (reject_charges CORPORATE c)].
      intros i Hi. rewrite Hfull in Hi. destruct (Hlive i Hi) as [e He].
      exists e. split; [done|].
      specialize (HnoF i e He). specialize (HnoP i e He).
      by destruct (Request.priority_ e).
Qed.

(** *** The three outcomes of an admission *)

Lemma live_is_Some m l :
  live m l -> Forall (fun p => is_Some (m !! p)) l.
Proof.
  intros H. eapply Forall_impl; [exact H|].
  intros p Hp. by apply lookup_lt_is_Some.
Qed.

Lemma store_update_Some p f m r :
  m !! p = Some r -> store_update p f m = Some (<[p := f r]> m).
Proof. intros H. unfold store_update. by rewrite H. Qed.

Lemma evict_admission it req r c e :
  mem c !! req = Some r ->
  (BUFFER_SIZE <= length (buffer_ c))%nat ->
  occupant c it = Some e ->
  priority_int (Request.priority_ r) < priority_int (Request.priority_ e) ->
  exists c', evict it req r c = Some (true, c') /\ admission req r c true c'.
Proof.
  intros Hreq Hfull He Hlt.
  destruct (evict_Some it req r c e Hreq He) as (m' & Hm' & Hev).
  rewrite (store_update_Some _ _ _ _ Hreq) in Hm'. injection Hm' as <-.
  eexists. split; [exact Hev|]. by apply admission_evict.
Qed.

Lemma addRequest_admission req r c :
  mem c !! req = Some r ->
  live (mem c) (buffer_ c) ->
  exists added c',
    addRequest req c = Some (added, c') /\ admission req r c added c'.
Proof.
  intros Hreq Hlive. apply live_is_Some in Hlive.
  unfold addRequest. rewrite Hreq.
  destruct (length (buffer_ c) <? BUFFER_SIZE)%nat eqn:Hsize.
  - apply Nat.ltb_lt in Hsize.
    destruct (find_if_is_Some (insert_before r) _ _ Hlive) as [it Hit].
    rewrite Hit. simpl. rewrite (store_update_Some _ _ _ _ Hreq).
    eexists true, _. split; [reflexivity|]. by apply admission_insert.
  - apply Nat.ltb_ge in Hsize.
    destruct (find_if_is_Some (has_priority FREE) _ _ Hlive) as [iF HiF].
    destruct (find_if_is_Some (has_priority PREMIUM) _ _ Hlive) as [iP HiP].
    destruct (Request.priority_ r) eqn:Hpr.
    + rewrite HiF. destruct (iF <? length (buffer_ c))%nat eqn:HltF.
      * apply Nat.ltb_lt in HltF.
        destruct (find_if_first_with _ _ _ HiF HltF) as [(e & He & Hpe) _].
        destruct (evict_admission iF req r c e) as (c' & Hev & Hadm);
          [done|done|done|rewrite Hpr, Hpe; simpl; lia|].
        by exists true, c'.
      * rewrite HiP. destruct (iP <? length (buffer_ c))%nat eqn:HltP.
        -- apply Nat.ltb_lt in HltP.
           destruct (find_if_first_with _ _ _ HiP HltP) as [(e & He & Hpe) _].
           destruct (evict_admission iP req r c e) as (c' & Hev & Hadm);
             [done|done|done|rewrite Hpr, Hpe; simpl; lia|].
           by exists true, c'.
        -- eexists false, _. split; [reflexivity|].
           rewrite <- Hpr. by apply admission_reject.
    + rewrite HiF. destruct (iF <? length (buffer_ c))%nat eqn:HltF.
      * apply Nat.ltb_lt in HltF.
        destruct (find_if_first_with _ _ _ HiF HltF) as [(e & He & Hpe) _].
        destruct (evict_admission iF req r c e) as (c' & Hev & Hadm);
          [done|done|done|rewrite Hpr, Hpe; simpl; lia|].
        by exists true, c'.
      * eexists false, _. split; [reflexivity|].
        rewrite <- Hpr. by apply admission_reject.
    + eexists false, _. split; [reflexivity|].
      rewrite <- Hpr. by apply admission_reject.
Qed.

Lemma admission_mem_length req r c added c' :
  admission req r c added c' -> length (mem c') = length (mem c).
Proof.
  destruct 1; simpl; unfold admitted; by rewrite ?length_insert.
Qed.

Lemma occupant_lookup c i e :
  occupant c i = Some e -> exists p, buffer_ c !! i = Some p /\ mem c !! p = Some e.
Proof.
  unfold occupant. destruct (buffer_ c !! i) as [p|]; [|done]. by exists p.
Qed.

Lemma admission_buffer_length req r c added c' :
  admission req r c added c' ->
  (length (buffer_ c) <= BUFFER_SIZE)%nat ->
  (length (buffer_ c') <= BUFFER_SIZE)%nat.
Proof.
  destruct 1 as [it Hlt _|it e Hfull He _|Hfull]; simpl; intros Hle.
  - rewrite length_app. simpl. rewrite length_take, length_drop. lia.
  - apply occupant_lookup in He as (p & Hp & _).
    rewrite length_app, length_delete by eauto. simpl.
    apply lookup_lt_Some in Hp. lia.
  - done.
Qed.

Lemma admission_live req r c added c' :
  admission req r c added c' ->
  mem c !! req = Some r ->
  live (mem c) (buffer_ c) ->
  live (mem c') (buffer_ c').
Proof.
  intros Hadm Hreq Hlive. pose proof (admission_mem_length _ _ _ _ _ Hadm) as Hlen.
  apply lookup_lt_Some in Hreq. unfold live in *. rewrite Hlen.
  destruct Hadm as [it _ _|it e _ _ _|_]; simpl.
  - apply Forall_app. split; [by apply Forall_take|].
    constructor; [done|by apply Forall_drop].
  - apply Forall_app. split; [by apply Forall_delete|]. by constructor.
  - done.
Qed.

Lemma popRequest_buffer c :
  buffer_ (snd (popRequest c)) = tail (buffer_ c)
  /\ mem (snd (popRequest c)) = mem c.
Proof. unfold popRequest. by destruct (buffer_ c) eqn:Hb. Qed.

(** *** Capacity *)

Lemma calls_capacity ks : forall c,
  (length (buffer_ c) <= BUFFER_SIZE)%nat ->
  live (mem c) (buffer_ c) ->
  (forall req, CallAdd req ∈ ks -> (req < length (mem c))%nat) ->
  exists c', calls ks c = Some c'
             /\ (length (buffer_ c') <= BUFFER_SIZE)%nat.
Proof.
  induction ks as [|k ks IH]; intros c Hcap Hlive Hreqs; simpl.
  - by exists c.
  - destruct k as [req|]; simpl.
    + assert (req < length (mem c))%nat as Hreq by (apply Hreqs; left).
      apply lookup_lt_is_Some in Hreq as [r Hr].
      destruct (addRequest_admission req r c Hr Hlive) as (added & c1 & -> & Hadm).
      apply IH.
      * by eapply admission_buffer_length.
      * by eapply admission_live.
      * intros req' Hin. rewrite (admission_mem_length _ _ _ _ _ Hadm).
        apply Hreqs. by right.
    + destruct (popRequest_buffer c) as [Hb Hm]. apply IH.
      * rewrite Hb. destruct (buffer_ c); simpl in *; lia.
      * rewrite Hb, Hm. unfold live in *.
        destruct (buffer_ c); [done|]. simpl. by inversion Hlive.
      * intros req' Hin. rewrite Hm. apply Hreqs. by right.
Qed.

(** C5: from the empty buffer, after any sequence of [addRequest] and
    [popRequest] calls (on requests of the store) the buffer holds at most
    8 requests, and so it does after each call of the sequence: after its
    first [n] calls, for every [n]. *)
Theorem C5_capacity ks c n :
  buffer_ c = [] ->
  (forall req, CallAdd req ∈ ks -> is_Some (mem c !! req)) ->
  exists c', calls (take n ks) c = Some c' /\ (length (buffer_ c') <= 8)%nat.
Proof.
  intros Hempty Hreqs. apply calls_capacity.
  - rewrite Hempty. simpl. unfold BUFFER_SIZE. lia.
  - rewrite Hempty. constructor.
  - intros req Hin. apply lookup_lt_is_Some, Hreqs.
    eapply elem_of_sublist; [exact Hin|apply sublist_take].
Qed.

(** *** Effect of each operation on well-formed states *)

Lemma count_type_cons ty e l :
  count_type ty (e :: l)
  = ((if decide (Event.type e = ty) then 1 else 0) + count_type ty l)%nat.
Proof.
  unfold count_type. rewrite filter_cons. by destruct (decide _).
Qed.

Lemma count_type_perm ty l l' : l ≡ₚ l' -> count_type ty l = count_type ty l'.
Proof. intros H. unfold count_type. by rewrite H. Qed.

Lemma pop_items c ev q :
  pq_pop PQ (events_ c) = Some (ev, q) ->
  pq_items PQ (events_ c) ≡ₚ ev :: pq_items PQ q.
Proof. intros H. by apply pq_pop_Some in H as [H _]. Qed.

Lemma pop_wf c ev q :
  wf c ->
  pq_pop PQ (events_ c) = Some (ev, q) ->
  wf (with_events q c)
  /\ (Event.request ev < length (mem c))%nat
  /\ (Event.type ev = REQUEST_SERVED ->
      1 <= Event.deviceId ev <= Z.of_nat (length (devices_ c))).
Proof.
  intros [Hb He Hs Hd Hm Hc Hy] Hpop. apply pop_items in Hpop.
  rewrite Hpop in He, Hs.
  apply Forall_cons in He as [He1 He], Hs as [Hs1 Hs].
  split; [|done]. by constructor.
Qed.

Lemma pop_count c ev q ty :
  pq_pop PQ (events_ c) = Some (ev, q) ->
  count_type ty (pq_items PQ (events_ c))
  = ((if decide (Event.type ev = ty) then 1 else 0)
     + count_type ty (pq_items PQ q))%nat.
Proof.
  intros Hpop. apply pop_items in Hpop.
  by rewrite (count_type_perm _ _ _ Hpop), count_type_cons.
Qed.

Lemma updateLastEventTime_wf x c : wf c -> wf (updateLastEventTime x c).
Proof. intros [Hb He Hs Hd Hm Hc Hy]. by constructor. Qed.

Lemma store_ok_admitted req r m :
  store_ok m -> store_ok (admitted req r m).
Proof.
  intros Hm. unfold store_ok, admitted.
  destruct (decide (req < length m)%nat) as [Hlt|Hge].
  - apply Forall_insert; done.
  - rewrite list_insert_ge by lia. done.
Qed.

Lemma rejected_of_increment (m : gmap Priority Z) pr pr' :
  rejected_of (<[pr := default 0 (m !! pr) + 1]> m) pr'
  = rejected_of m pr' + (if decide (pr' = pr) then 1 else 0).
Proof.
  unfold rejected_of. destruct (decide (pr' = pr)) as [->|Hne].
  - by rewrite lookup_insert_eq.
  - rewrite lookup_insert_ne by done. lia.
Qed.

Lemma tally_increment (m : gmap Priority Z) pr n :
  (forall pr', 0 <= rejected_of m pr')
  /\ rejected_of m CORPORATE + rejected_of m PREMIUM + rejected_of m FREE = n ->
  (forall pr', 0 <= rejected_of (<[pr := default 0 (m !! pr) + 1]> m) pr')
  /\ rejected_of (<[pr := default 0 (m !! pr) + 1]> m) CORPORATE
     + rejected_of (<[pr := default 0 (m !! pr) + 1]> m) PREMIUM
     + rejected_of (<[pr := default 0 (m !! pr) + 1]> m) FREE = n + 1.
Proof.
  intros [Hpos Hsum]. split.
  - intros pr'. rewrite rejected_of_increment. specialize (Hpos pr').
    destruct (decide (pr' = pr)); lia.
  - rewrite !rejected_of_increment.
    destruct pr; repeat case_decide; try done; lia.
Qed.

Lemma admission_wf req r c added c' :
  admission req r c added c' ->
  mem c !! req = Some r ->
  wf c ->
  wf c'.
Proof.
  intros Hadm Hreq Hwf.
  pose proof (admission_live _ _ _ _ _ Hadm Hreq (wf_buffer _ Hwf)) as Hlive.
  pose proof (admission_mem_length _ _ _ _ _ Hadm) as Hlen.
  destruct Hwf as [Hb He Hs Hd Hm Hc Hy].
  constructor; try done.
  - rewrite Hlen. by destruct Hadm.
  - by destruct Hadm.
  - by destruct Hadm.
  - destruct Hadm; simpl; try done; by apply store_ok_admitted.
  - destruct Hadm; simpl; try done; lia.
  - destruct Hadm; simpl; try done; by apply tally_increment.
Qed.

Lemma admission_frame req r c added c' :
  admission req r c added c' ->
  events_ c' = events_ c /\ sources_ c' = sources_ c
  /\ devices_ c' = devices_ c /\ maxRequests_ c' = maxRequests_ c
  /\ generatedRequestsCount_ c' = generatedRequestsCount_ c
  /\ servedRequestsCount_ c' = servedRequestsCount_ c
  /\ lastEventTime_ c' = lastEventTime_ c
  /\ totalWaitTime_ c' = totalWaitTime_ c.
Proof. by destruct 1. Qed.

Lemma admission_unaccounted req r c added c' :
  admission req r c added c' ->
  unaccounted c' = unaccounted c - 1
  /\ (iterations_left c' <= iterations_left c + 2)%nat.
Proof.
  destruct 1 as [it Hlt _|it e Hfull He _|Hfull];
    unfold unaccounted, iterations_left, pending_arrivals; simpl.
  - rewrite length_app. simpl. rewrite length_take, length_drop. lia.
  - apply occupant_lookup in He as (p & Hp & _).
    rewrite length_app, length_delete by eauto. simpl.
    apply lookup_lt_Some in Hp. lia.
  - lia.
Qed.

Lemma push_Forall (P : Event.t -> Prop) e q :
  P e -> Forall P (pq_items PQ q) -> Forall P (pq_items PQ (pq_push PQ e q)).
Proof. intros He Hq. rewrite pq_items_push. by constructor. Qed.

Lemma push_count ty e q :
  count_type ty (pq_items PQ (pq_push PQ e q))
  = ((if decide (Event.type e = ty) then 1 else 0)
     + count_type ty (pq_items PQ q))%nat.
Proof.
  by rewrite (count_type_perm _ _ _ (pq_items_push PQ e q)), count_type_cons.
Qed.

Lemma store_ok_setStartServiceTime p x r m :
  store_ok m -> m !! p = Some r ->
  store_ok (<[p := Request.setStartServiceTime x r]> m).
Proof.
  intros Hm Hp. apply Forall_insert; [done|]. simpl.
  by apply (Forall_lookup_1 _ _ _ _ Hm Hp).
Qed.

Lemma same_setting_refl c : same_setting c c.
Proof. by repeat split. Qed.

Lemma same_setting_trans c1 c2 c3 :
  same_setting c1 c2 -> same_setting c2 c3 -> same_setting c1 c3.
Proof. unfold same_setting. intros H1 H2. intuition congruence. Qed.

Lemma dispatch_wf i d p x c :
  wf c ->
  devices_ c !! i = Some d ->
  (p < length (mem c))%nat ->
  exists c',
    dispatch i d p x c = Some c'
    /\ wf c'
    /\ same_setting c c'
    /\ buffer_ c' = buffer_ c
    /\ servedRequestsCount_ c' = servedRequestsCount_ c + 1
    /\ unaccounted c' = unaccounted c - 1
    /\ iterations_left c' = S (iterations_left c).
Proof.
  intros [Hb He Hs Hd Hm Hc Hy] Hi Hp.
  apply lookup_lt_is_Some in Hp as [r Hr].
  unfold dispatch, Device.loadRequest. simpl.
  rewrite (store_update_Some _ _ _ _ Hr).
  rewrite list_lookup_insert_eq by (by eapply lookup_lt_Some).
  eexists. split; [reflexivity|].
  pose proof (lookup_lt_Some _ _ _ Hi) as Hlt.
  split; [|split; [|split; [|split]]].
  - constructor; simpl.
    + unfold live. by rewrite length_insert.
    + apply push_Forall; simpl; rewrite length_insert; [by eapply lookup_lt_Some|done].
    + apply push_Forall; simpl; rewrite length_insert.
      * intros _. rewrite (Hd _ _ Hi). lia.
      * done.
    + intros j d' Hj. destruct (decide (i = j)) as [->|Hne].
      * rewrite list_lookup_insert_eq in Hj by done. injection Hj as <-.
        simpl. by apply Hd.
      * rewrite list_lookup_insert_ne in Hj by done. by apply Hd.
    + by apply store_ok_setStartServiceTime.
    + lia.
    + done.
  - repeat split; simpl; by rewrite ?length_insert.
  - done.
  - simpl. done.
  - unfold unaccounted, iterations_left, pending_arrivals. simpl.
    rewrite !push_count. simpl. split; lia.
Qed.

Lemma popRequest_wf c : wf c -> wf (snd (popRequest c)).
Proof.
  intros [Hb He Hs Hd Hm Hc Hy]. unfold popRequest.
  destruct (buffer_ c) as [|p rest] eqn:Hbuf; simpl; constructor; simpl;
    rewrite ?Hbuf; try done.
  unfold live in *. by inversion Hb.
Qed.

Lemma loadRequests_from_wf x todo : forall i c,
  wf c ->
  exists c',
    loadRequests_from todo i x c = Some c'
    /\ wf c'
    /\ same_setting c c'
    /\ servedRequestsCount_ c <= servedRequestsCount_ c'
    /\ unaccounted c' = unaccounted c
    /\ (iterations_left c' <= iterations_left c)%nat.
Proof.
  induction todo as [|todo IH]; intros i c Hwf; simpl.
  { exists c. split; [done|]. split; [done|]. repeat split; (done || lia). }
  destruct (devices_ c !! i) as [d|] eqn:Hd.
  2:{ exists c. split; [done|]. split; [done|]. repeat split; (done || lia). }
  destruct (Device.busy_ d); [by apply IH|].
  unfold popRequest. destruct (buffer_ c) as [|p rest] eqn:Hbuf.
  { exists c. split; [done|]. split; [done|]. repeat split; (done || lia). }
  pose proof (popRequest_wf c Hwf) as Hwf1.
  unfold popRequest in Hwf1. rewrite Hbuf in Hwf1. simpl in Hwf1.
  assert (p < length (mem c))%nat as Hp.
  { pose proof (wf_buffer _ Hwf) as Hlive. unfold live in Hlive.
    rewrite Hbuf in Hlive. by inversion Hlive. }
  destruct (dispatch_wf i d p x (with_buffer rest c) Hwf1 Hd Hp)
    as (c2 & -> & Hwf2 & Hset2 & Hbuf2 & Hserved2 & Hun2 & Hit2).
  destruct (IH (S i) c2 Hwf2) as (c' & -> & Hwf' & Hset' & Hserved' & Hun' & Hit').
  exists c'. split; [done|]. split; [done|]. split.
  { eapply same_setting_trans; [|exact Hset']. exact Hset2. }
  simpl in Hserved2. split; [lia|].
  unfold unaccounted, iterations_left, pending_arrivals in *.
  simpl in *. rewrite Hbuf. simpl. split; lia.
Qed.

Lemma loadRequestsToFreeDevices_wf x c :
  wf c ->
  exists c',
    loadRequestsToFreeDevices x c = Some c'
    /\ wf c'
    /\ same_setting c c'
    /\ servedRequestsCount_ c <= servedRequestsCount_ c'
    /\ unaccounted c' = unaccounted c
    /\ (iterations_left c' <= iterations_left c)%nat.
Proof. apply loadRequests_from_wf. Qed.

(** Generating a request. *)

Lemma store_ok_new m id pr x src :
  store_ok m -> store_ok (m ++ [Request.new id pr x src]).
Proof. intros Hm. apply Forall_app. split; [done|]. by constructor. Qed.

Lemma generate_wf i src x c :
  wf c ->
  generatedRequestsCount_ c < maxRequests_ c ->
  wf (generate i src x c)
  /\ unaccounted (generate i src x c) = unaccounted c
  /\ iterations_left (generate i src x c) = iterations_left c
  /\ maxRequests_ (generate i src x c) = maxRequests_ c
  /\ servedRequestsCount_ (generate i src x c) = servedRequestsCount_ c
  /\ devices_ (generate i src x c) = devices_ c
  /\ buffer_ (generate i src x c) = buffer_ c
  /\ length (sources_ (generate i src x c)) = length (sources_ c).
Proof.
  intros [Hb He Hs Hd Hm Hc Hy] Hlt. unfold generate. simpl.
  split; [|split; [|split]].
  - constructor; simpl.
    + unfold live in *. rewrite length_app. simpl.
      eapply Forall_impl; [exact Hb|]. simpl. intros; lia.
    + apply push_Forall; simpl; rewrite length_app; simpl; [lia|].
      eapply Forall_impl; [exact He|]. simpl. intros; lia.
    + apply push_Forall; simpl; done.
    + done.
    + by apply store_ok_new.
    + lia.
    + done.
  - unfold unaccounted, pending_arrivals. simpl. rewrite push_count. simpl. lia.
  - unfold iterations_left. simpl. rewrite !push_count. simpl. lia.
  - repeat split; simpl; by rewrite ?length_insert.
Qed.

Lemma scheduleNextRequest_wf i x c :
  wf c ->
  wf (scheduleNextRequest i x c)
  /\ unaccounted (scheduleNextRequest i x c) = unaccounted c
  /\ iterations_left (scheduleNextRequest i x c) = iterations_left c
  /\ maxRequests_ (scheduleNextRequest i x c) = maxRequests_ c
  /\ servedRequestsCount_ (scheduleNextRequest i x c) = servedRequestsCount_ c
  /\ devices_ (scheduleNextRequest i x c) = devices_ c
  /\ buffer_ (scheduleNextRequest i x c) = buffer_ c
  /\ length (sources_ (scheduleNextRequest i x c)) = length (sources_ c).
Proof.
  intros Hwf. unfold scheduleNextRequest.
  destruct (sources_ c !! i) as [src|]; [|done].
  destruct (maxRequests_ c <=? generatedRequestsCount_ c) eqn:Hmax; [done|].
  apply Z.leb_gt in Hmax. by apply generate_wf.
Qed.

(** One iteration of the loop of [work]. *)

Lemma freeDevice_wf i d x c :
  wf c ->
  devices_ c !! i = Some d ->
  wf (with_devices (<[i := Device.freeDevice x d]> (devices_ c)) c).
Proof.
  intros [Hb He Hs Hd Hm Hc Hy] Hi. constructor; simpl; try done.
  - by rewrite length_insert.
  - intros j d' Hj. destruct (decide (i = j)) as [->|Hne].
    + rewrite list_lookup_insert_eq in Hj by (by eapply lookup_lt_Some).
      injection Hj as <-. simpl. by apply Hd.
    + rewrite list_lookup_insert_ne in Hj by done. by apply Hd.
Qed.

Lemma handleRequestGenerated_wf req x c :
  wf c ->
  (req < length (mem c))%nat ->
  exists c',
    handleRequestGenerated req x c = Some c'
    /\ wf c'
    /\ unaccounted c' = unaccounted c - 1
    /\ (iterations_left c' <= iterations_left c + 2)%nat
    /\ maxRequests_ c' = maxRequests_ c
    /\ servedRequestsCount_ c <= servedRequestsCount_ c'
    /\ length (devices_ c') = length (devices_ c).
Proof.
  intros Hwf Hreq. apply lookup_lt_is_Some in Hreq as [r Hr].
  destruct (addRequest_admission req r c Hr (wf_buffer _ Hwf))
    as (added & c1 & Hadd & Hadm).
  pose proof (admission_wf _ _ _ _ _ Hadm Hr Hwf) as Hwf1.
  destruct (admission_unaccounted _ _ _ _ _ Hadm) as [Hun1 Hit1].
  destruct (admission_frame _ _ _ _ _ Hadm)
    as (_ & _ & Hdev1 & Hmax1 & _ & Hserved1 & _ & _).
  pose proof (admission_mem_length _ _ _ _ _ Hadm) as Hlen1.
  unfold handleRequestGenerated. rewrite Hadd.
  assert (exists c2,
    (if added then loadRequestsToFreeDevices x c1 else Some c1) = Some c2
    /\ wf c2 /\ same_setting c1 c2
    /\ servedRequestsCount_ c1 <= servedRequestsCount_ c2
    /\ unaccounted c2 = unaccounted c1
    /\ (iterations_left c2 <= iterations_left c1)%nat)
    as (c2 & -> & Hwf2 & Hset2 & Hserved2 & Hun2 & Hit2).
  { destruct added; [by apply loadRequestsToFreeDevices_wf|].
    exists c1. split; [done|]. split; [done|].
    split; [apply same_setting_refl|]. repeat split; (done || lia). }
  destruct Hset2 as (Hmax2 & _ & _ & _ & _ & _ & Hdev2 & Hlen2).
  assert (is_Some (mem c2 !! req)) as [r' ->].
  { apply lookup_lt_is_Some. rewrite Hlen2, Hlen1. by eapply lookup_lt_Some. }
  destruct (scheduleNextRequest_wf (Z.to_nat (Request.sourceIndex_ r')) x c2 Hwf2)
    as (Hwf3 & Hun3 & Hit3 & Hmax3 & Hserved3 & Hdev3 & _).
  destruct ((0 <=? Request.sourceIndex_ r')
            && (Request.sourceIndex_ r' <? Z.of_nat (length (sources_ c2)))).
  - eexists. split; [reflexivity|]. split; [done|].
    repeat split; (lia || congruence).
  - eexists. split; [reflexivity|]. split; [done|].
    repeat split; (lia || congruence).
Qed.

Lemma handleRequestFinished_wf deviceId x req c :
  wf c ->
  1 <= deviceId <= Z.of_nat (length (devices_ c)) ->
  exists c',
    handleRequestFinished deviceId x req c = Some c'
    /\ wf c'
    /\ unaccounted c' = unaccounted c
    /\ (iterations_left c' <= iterations_left c)%nat
    /\ maxRequests_ c' = maxRequests_ c
    /\ servedRequestsCount_ c <= servedRequestsCount_ c'
    /\ length (devices_ c') = length (devices_ c).
Proof.
  intros Hwf Hid. unfold handleRequestFinished.
  assert ((1 <=? deviceId) && (deviceId <=? Z.of_nat (length (devices_ c)))
          = true) as ->.
  { apply andb_true_iff. split; apply Z.leb_le; lia. }
  assert (is_Some (devices_ c !! Z.to_nat (deviceId - 1))) as [d Hd].
  { apply lookup_lt_is_Some. lia. }
  rewrite Hd.
  pose proof (freeDevice_wf _ _ x _ Hwf Hd) as Hwf1.
  destruct (loadRequestsToFreeDevices_wf x _ Hwf1)
    as (c' & -> & Hwf' & Hset' & Hserved' & Hun' & Hit').
  exists c'. split; [done|]. split; [done|].
  destruct Hset' as (Hmax' & _ & _ & _ & _ & _ & Hdev' & _). simpl in *.
  rewrite length_insert in Hdev'.
  repeat split; (done || lia).
Qed.

Lemma handleEvent_wf ev q c :
  wf c ->
  pq_pop PQ (events_ c) = Some (ev, q) ->
  exists c',
    handleEvent ev (with_events q c) = Some c'
    /\ wf c'
    /\ unaccounted c' = unaccounted c
    /\ (iterations_left c' < iterations_left c)%nat
    /\ maxRequests_ c' = maxRequests_ c
    /\ servedRequestsCount_ c <= servedRequestsCount_ c'
    /\ length (devices_ c') = length (devices_ c).
Proof.
  intros Hwf Hpop.
  destruct (pop_wf _ _ _ Hwf Hpop) as (Hwf1 & Hreq & Hid).
  pose proof (pop_count _ _ _ REQUEST_GENERATED Hpop) as Hgen.
  pose proof (pop_count _ _ _ REQUEST_SERVED Hpop) as Hser.
  apply (updateLastEventTime_wf (Event.time ev)) in Hwf1.
  unfold handleEvent. destruct (Event.type ev) eqn:Hty.
  - destruct (handleRequestGenerated_wf (Event.request ev) (Event.time ev)
                _ Hwf1 Hreq)
      as (c' & -> & Hwf' & Hun' & Hit' & Hmax' & Hserved' & Hdev').
    exists c'. split; [done|]. split; [done|].
    unfold unaccounted, iterations_left, pending_arrivals in *. simpl in *.
    rewrite Hgen, Hser. simpl.
    repeat split; (done || lia).
  - destruct (handleRequestFinished_wf (Event.deviceId ev) (Event.time ev)
                (Event.request ev) _ Hwf1 (Hid eq_refl))
      as (c' & -> & Hwf' & Hun' & Hit' & Hmax' & Hserved' & Hdev').
    exists c'. split; [done|]. split; [done|].
    unfold unaccounted, iterations_left, pending_arrivals in *. simpl in *.
    rewrite Hgen, Hser. simpl.
    repeat split; (done || lia).
Qed.

(** *** The initial state *)

Lemma makeDevices_length n i seed : length (makeDevices n i seed) = n.
Proof. revert i. induction n as [|n IH]; intros i; simpl; by rewrite ?IH. Qed.

Lemma makeDevices_lookup n i seed k d :
  makeDevices n i seed !! k = Some d -> Device.id_ d = i + Z.of_nat k.
Proof.
  revert i k. induction n as [|n IH]; intros i k H; simpl in H; [done|].
  destruct k as [|k]; simpl in H.
  - injection H as <-. simpl. lia.
  - apply IH in H. lia.
Qed.

Lemma newController_wf nC nP nF nD maxR sseed dseed :
  wf (newController PQ nC nP nF nD maxR sseed dseed).
Proof.
  constructor; simpl.
  - constructor.
  - rewrite pq_items_new. constructor.
  - rewrite pq_items_new. constructor.
  - intros i d H. apply makeDevices_lookup in H. lia.
  - constructor.
  - lia.
  - split; [intros []|]; by vm_compute.
Qed.

Lemma newController_unaccounted nC nP nF nD maxR sseed dseed :
  unaccounted (newController PQ nC nP nF nD maxR sseed dseed) = 0.
Proof.
  unfold unaccounted, pending_arrivals. simpl.
  by rewrite pq_items_new.
Qed.

Lemma initRequests_from_wf todo : forall i c,
  wf c ->
  wf (initRequests_from todo i c)
  /\ unaccounted (initRequests_from todo i c) = unaccounted c
  /\ maxRequests_ (initRequests_from todo i c) = maxRequests_ c
  /\ servedRequestsCount_ (initRequests_from todo i c) = servedRequestsCount_ c
  /\ devices_ (initRequests_from todo i c) = devices_ c
  /\ buffer_ (initRequests_from todo i c) = buffer_ c.
Proof.
  induction todo as [|todo IH]; intros i c Hwf; simpl; [done|].
  destruct (sources_ c !! i) as [src|]; [|done].
  destruct (maxRequests_ c <=? generatedRequestsCount_ c) eqn:Hmax; [done|].
  apply Z.leb_gt in Hmax.
  destruct (generate_wf i src 0 c Hwf Hmax)
    as (Hwf1 & Hun1 & _ & Hmax1 & Hserved1 & Hdev1 & Hbuf1 & _).
  destruct (IH (S i) _ Hwf1) as (Hwf2 & Hun2 & Hmax2 & Hserved2 & Hdev2 & Hbuf2).
  split; [done|]. repeat split; congruence.
Qed.

Lemma start_wf nC nP nF nD maxR sseed dseed :
  wf (start PQ nC nP nF nD maxR sseed dseed)
  /\ unaccounted (start PQ nC nP nF nD maxR sseed dseed) = 0
  /\ maxRequests_ (start PQ nC nP nF nD maxR sseed dseed) = maxR
  /\ servedRequestsCount_ (start PQ nC nP nF nD maxR sseed dseed) = 0
  /\ length (devices_ (start PQ nC nP nF nD maxR sseed dseed)) = Z.to_nat nD
  /\ buffer_ (start PQ nC nP nF nD maxR sseed dseed) = [].
Proof.
  unfold start, initRequests.
  destruct (initRequests_from_wf
              (length (sources_ (newController PQ nC nP nF nD maxR sseed dseed))) 0
              _ (newController_wf nC nP nF nD maxR sseed dseed))
    as (Hwf & Hun & Hmax & Hserved & Hdev & Hbuf).
  split; [done|]. rewrite Hun, Hmax, Hserved, Hdev, Hbuf.
  rewrite newController_unaccounted. simpl.
  by rewrite makeDevices_length.
Qed.

(** *** Reachable states and termination of [work] *)

Lemma reachable_trans c0 c1 c2 :
  reachable c0 c1 -> reachable c1 c2 -> reachable c0 c2.
Proof.
  intros H1 H2. induction H2; [done|]. by eapply reachable_iteration.
Qed.

Lemma reachable_wf c0 c :
  wf c0 ->
  reachable c0 c ->
  wf c
  /\ unaccounted c = unaccounted c0
  /\ maxRequests_ c = maxRequests_ c0
  /\ length (devices_ c) = length (devices_ c0).
Proof.
  intros Hwf0. induction 1 as [|c ev q c' _ IH _ Hpop Hev]; [done|].
  destruct IH as (Hwf & Hun & Hmax & Hdev).
  destruct (handleEvent_wf ev q c Hwf Hpop)
    as (c'' & Hev' & Hwf' & Hun' & _ & Hmax' & _ & Hdev').
  rewrite Hev in Hev'. injection Hev' as <-.
  split; [done|]. repeat split; congruence.
Qed.

Lemma work_loop_unfold fuel c :
  work_loop fuel c =
  if servedRequestsCount_ c <? maxRequests_ c then
    match pq_pop PQ (events_ c) with
    | None => Returns c
    | Some (currentEvent, q) =>
        match fuel with
        | O => OutOfFuel
        | S fuel' =>
            match handleEvent currentEvent (with_events q c) with
            | None => Undefined
            | Some c' => work_loop fuel' c'
            end
        end
    end
  else Returns c.
Proof. by destruct fuel. Qed.

Lemma pop_iterations_left c ev q :
  pq_pop PQ (events_ c) = Some (ev, q) -> (0 < iterations_left c)%nat.
Proof.
  intros Hpop. unfold iterations_left.
  rewrite (pop_count _ _ _ REQUEST_GENERATED Hpop).
  rewrite (pop_count _ _ _ REQUEST_SERVED Hpop).
  destruct (Event.type ev); simpl; lia.
Qed.

Lemma work_loop_returns fuel : forall c,
  wf c ->
  (iterations_left c <= fuel)%nat ->
  exists c', work_loop fuel c = Returns c' /\ reachable c c' /\ finished c'.
Proof.
  induction fuel as [|fuel IH]; intros c Hwf Hfuel;
    rewrite work_loop_unfold;
    destruct (servedRequestsCount_ c <? maxRequests_ c) eqn:Hlt.
  - destruct (pq_pop PQ (events_ c)) as [[ev q]|] eqn:Hpop.
    + apply pop_iterations_left in Hpop. lia.
    + exists c. split; [done|]. split; [constructor|].
      right. by apply pq_pop_None.
  - exists c. split; [done|]. split; [constructor|].
    left. by apply Z.ltb_ge.
  - destruct (pq_pop PQ (events_ c)) as [[ev q]|] eqn:Hpop.
    + destruct (handleEvent_wf ev q c Hwf Hpop)
        as (c1 & Hev & Hwf1 & _ & Hit1 & _).
      rewrite Hev.
      destruct (IH c1 Hwf1) as (c' & Hret & Hreach & Hfin); [lia|].
      exists c'. split; [done|]. split; [|done].
      eapply reachable_trans; [|exact Hreach].
      eapply reachable_iteration; [constructor| |exact Hpop|exact Hev].
      by apply Z.ltb_lt.
    + exists c. split; [done|]. split; [constructor|].
      right. by apply pq_pop_None.
  - exists c. split; [done|]. split; [constructor|].
    left. by apply Z.ltb_ge.
Qed.

Lemma work_returns c :
  wf c -> exists c', work c = Returns c' /\ reachable c c' /\ finished c'.
Proof. intros Hwf. by apply work_loop_returns. Qed.

(** *** Conservation, device ids and the exit of the loop *)

Lemma reachable_start_wf nC nP nF nD maxR sseed dseed c :
  reachable (start PQ nC nP nF nD maxR sseed dseed) c ->
  wf c
  /\ unaccounted c = 0
  /\ maxRequests_ c = maxR
  /\ length (devices_ c) = Z.to_nat nD.
Proof.
  intros Hreach.
  destruct (start_wf nC nP nF nD maxR sseed dseed)
    as (Hwf0 & Hun0 & Hmax0 & _ & Hdev0 & _).
  destruct (reachable_wf _ _ Hwf0 Hreach) as (Hwf & Hun & Hmax & Hdev).
  split; [done|]. repeat split; congruence.
Qed.

(** In every reachable state, every generated request is counted as
    served (dispatched, whether or not its service is over), counted as
    rejected, waiting in the buffer, or still ahead as a pending arrival. *)
Lemma conservation_invariant nC nP nF nD maxR sseed dseed c :
  reachable (start PQ nC nP nF nD maxR sseed dseed) c ->
  generatedRequestsCount_ c
  = servedRequestsCount_ c + rejectedRequests_ c
    + Z.of_nat (length (buffer_ c)) + Z.of_nat (pending_arrivals c).
Proof.
  intros Hreach. apply reachable_start_wf in Hreach as (_ & Hun & _).
  unfold unaccounted in Hun. lia.
Qed.

(** C3, as the code has it: when [work] returns, no arrival is pending and
    every generated request is counted as served, counted as rejected, or
    waiting in the buffer.  The served counter grows at dispatch, so the
    requests that are on a device are among the served ones already. *)
Theorem C3_conservation nC nP nF nD maxR sseed dseed :
  exists c',
    work (start PQ nC nP nF nD maxR sseed dseed) = Returns c'
    /\ pending_arrivals c' = 0%nat
    /\ generatedRequestsCount_ c'
       = servedRequestsCount_ c' + rejectedRequests_ c'
         + Z.of_nat (length (buffer_ c')).
Proof.
  destruct (start_wf nC nP nF nD maxR sseed dseed) as (Hwf0 & _).
  destruct (work_returns _ Hwf0) as (c' & Hret & Hreach & Hfin).
  exists c'. split; [done|].
  pose proof (conservation_invariant _ _ _ _ _ _ _ _ Hreach) as Hcons.
  apply reachable_start_wf in Hreach as (Hwf & _ & Hmax & _).
  destruct (wf_counters _ Hwf) as (Hs & Hr & Hg & _).
  assert (pending_arrivals c' = 0%nat) as Hpending.
  { destruct Hfin as [Htarget|Hempty].
    - lia.
    - unfold pending_arrivals. by rewrite Hempty. }
  split; [done|]. lia.
Qed.

(** C9: in every reachable state, a pending completion carries the id of
    a device of the pool: an id between 1 and the number of devices, which
    is the id of the device at index [deviceId - 1]. *)
Theorem C9_completion_names_a_device nC nP nF nD maxR sseed dseed c e :
  reachable (start PQ nC nP nF nD maxR sseed dseed) c ->
  e ∈ pq_items PQ (events_ c) ->
  Event.type e = REQUEST_SERVED ->
  length (devices_ c) = Z.to_nat nD
  /\ 1 <= Event.deviceId e <= Z.of_nat (length (devices_ c))
  /\ exists d, devices_ c !! Z.to_nat (Event.deviceId e - 1) = Some d
               /\ Device.id_ d = Event.deviceId e.
Proof.
  intros Hreach Hin Hty.
  apply reachable_start_wf in Hreach as (Hwf & _ & _ & Hdev).
  split; [done|].
  pose proof (wf_served _ Hwf) as Hs.
  rewrite Forall_forall in Hs. specialize (Hs e Hin Hty).
  split; [done|].
  assert (is_Some (devices_ c !! Z.to_nat (Event.deviceId e - 1))) as [d Hd].
  { apply lookup_lt_is_Some. lia. }
  exists d. split; [done|]. rewrite (wf_devices _ Hwf _ _ Hd). lia.
Qed.

(** C10, as the code has it: [work] returns with the queue empty or the
    target reached, and the served counter never passes a target that is
    not negative: no more requests are generated than the target. *)
Theorem C10_exit_of_work nC nP nF nD maxR sseed dseed :
  exists c',
    work (start PQ nC nP nF nD maxR sseed dseed) = Returns c'
    /\ (pq_items PQ (events_ c') = [] \/ maxR <= servedRequestsCount_ c')
    /\ servedRequestsCount_ c' <= generatedRequestsCount_ c'
    /\ generatedRequestsCount_ c' <= Z.max 0 maxR.
Proof.
  destruct (start_wf nC nP nF nD maxR sseed dseed) as (Hwf0 & _).
  destruct (work_returns _ Hwf0) as (c' & Hret & Hreach & Hfin).
  exists c'. split; [done|].
  apply reachable_start_wf in Hreach as (Hwf & Hun & Hmax & _).
  destruct (wf_counters _ Hwf) as (Hs & Hr & Hg & _).
  unfold unaccounted in Hun. unfold finished in Hfin. rewrite Hmax in *.
  split; [destruct Hfin; auto|]. split; lia.
Qed.

(** No iteration of the loop takes the served counter past the target. *)
Lemma served_at_most_target nC nP nF nD maxR sseed dseed c :
  reachable (start PQ nC nP nF nD maxR sseed dseed) c ->
  servedRequestsCount_ c <= Z.max 0 maxR.
Proof.
  intros Hreach.
  apply reachable_start_wf in Hreach as (Hwf & Hun & Hmax & _).
  destruct (wf_counters _ Hwf) as (Hs & Hr & Hg & _).
  unfold unaccounted in Hun. rewrite Hmax in *. lia.
Qed.

(** The counters stay between 0 and the target, so that no [int] of the
    program overflows. *)
Lemma counters_within_target nC nP nF nD maxR sseed dseed c :
  reachable (start PQ nC nP nF nD maxR sseed dseed) c ->
  0 <= generatedRequestsCount_ c <= Z.max 0 maxR
  /\ globalRequestId_ c = generatedRequestsCount_ c
  /\ 0 <= servedRequestsCount_ c <= generatedRequestsCount_ c
  /\ 0 <= rejectedRequests_ c <= generatedRequestsCount_ c
  /\ forall pr, 0 <= getRejectedByPriority pr c <= rejectedRequests_ c.
Proof.
  intros Hreach.
  apply reachable_start_wf in Hreach as (Hwf & Hun & Hmax & _).
  destruct (wf_counters _ Hwf) as (Hs & Hr & Hg & Hid).
  destruct (wf_by_priority _ Hwf) as (Hpos & Hsum).
  unfold unaccounted in Hun. rewrite Hmax in *.
  split; [lia|]. split; [done|]. split; [lia|]. split; [lia|].
  intros pr.
  assert (getRejectedByPriority pr c = rejected_of (rejectedByPriority_ c) pr)
    as ->.
  { unfold getRejectedByPriority, rejected_of.
    by destruct (rejectedByPriority_ c !! pr). }
  pose proof (Hpos CORPORATE). pose proof (Hpos PREMIUM). pose proof (Hpos FREE).
  destruct pr; lia.
Qed.

(** *** Simulated time *)

Lemma updateLastEventTime_last x c :
  (lastEventTime_ c <= x)%Q ->
  (lastEventTime_ (updateLastEventTime x c) <= x)%Q
  /\ (x <= lastEventTime_ (updateLastEventTime x c))%Q
  /\ (lastEventTime_ c <= lastEventTime_ (updateLastEventTime x c))%Q.
Proof.
  intros Hle. simpl. destruct (Qle_bool x (lastEventTime_ c)) eqn:Hb.
  - apply Qle_bool_iff in Hb. repeat split; (done || apply Qle_refl).
  - repeat split; (done || apply Qle_refl).
Qed.

Lemma arrival_insert m p q f r :
  m !! q = Some r ->
  Request.arrivalTime_ (f r) = Request.arrivalTime_ r ->
  arrival (<[q := f r]> m) p = arrival m p.
Proof.
  intros Hq Hf. unfold arrival. destruct (decide (q = p)) as [->|Hne].
  - rewrite list_lookup_insert_eq by (by eapply lookup_lt_Some).
    by rewrite Hq.
  - by rewrite list_lookup_insert_ne.
Qed.

Lemma arrival_app m p r :
  (p < length m)%nat -> arrival (m ++ [r]) p = arrival m p.
Proof. intros Hp. unfold arrival. by rewrite lookup_app_l. Qed.

Lemma arrival_admitted req r m p :
  m !! req = Some r -> arrival (admitted req r m) p = arrival m p.
Proof. intros Hr. unfold admitted. by apply arrival_insert. Qed.

Lemma dispatched_mono c c' :
  pq_items PQ (events_ c') ⊆ pq_items PQ (events_ c) ->
  devices_ c' ⊆ devices_ c ->
  forall p, dispatched c' p -> dispatched c p.
Proof.
  intros He Hd p [(e & Hin & Hty & Hp)|(d & Hin & Hp)].
  - left. exists e. split; [by apply He|done].
  - right. exists d. split; [by apply Hd|done].
Qed.

Lemma pop_timely c ev q :
  timely c ->
  pq_pop PQ (events_ c) = Some (ev, q) ->
  timely (updateLastEventTime (Event.time ev) (with_events q c))
  /\ (lastEventTime_ (updateLastEventTime (Event.time ev) (with_events q c))
      <= Event.time ev)%Q
  /\ (Event.type ev = REQUEST_GENERATED ->
      (arrival (mem c) (Event.request ev) <= Event.time ev)%Q).
Proof.
  intros [Te Tb Ta Td Ts Tv] Hpop.
  destruct (pq_pop_Some PQ _ _ _ Hpop) as [Hperm Hmin].
  rewrite Hperm in Te, Ta, Hmin.
  apply Forall_cons in Te as [Te1 Te], Ta as [Ta1 Ta], Hmin as [_ Hmin].
  destruct (updateLastEventTime_last (Event.time ev) (with_events q c) Te1)
    as (Hle & Hge & Hmono).
  split; [|done]. constructor; try done.
  - change (events_ (updateLastEventTime (Event.time ev) (with_events q c)))
      with q.
    apply Forall_forall. intros e He.
    rewrite Forall_forall in Hmin. specialize (Hmin e He). simpl in Hmin.
    eapply Qle_trans; [exact Hle|exact Hmin].
  - eapply Forall_impl; [exact Tb|]. intros p Hp. simpl in Hp.
    eapply Qle_trans; [exact Hp|exact Hmono].
  - intros p Hdisp. apply Td. revert Hdisp. apply dispatched_mono; simpl.
    + rewrite Hperm. set_solver.
    + done.
Qed.

Lemma admitted_lookup req r m p r0 :
  m !! req = Some r ->
  m !! p = Some r0 ->
  stamps_in_order r0 ->
  exists r', admitted req r m !! p = Some r' /\ stamps_in_order r'.
Proof.
  intros Hreq Hp [H1 H2]. unfold admitted.
  destruct (decide (req = p)) as [->|Hne].
  - rewrite list_lookup_insert_eq by (by eapply lookup_lt_Some).
    eexists. split; [reflexivity|].
    assert (r0 = r) as -> by congruence.
    split; simpl; [apply Qle_refl|].
    eapply Qle_trans; [exact H1|exact H2].
  - rewrite list_lookup_insert_ne by done. by exists r0.
Qed.

Lemma admission_timely req r c added c' :
  admission req r c added c' ->
  mem c !! req = Some r ->
  (arrival (mem c) req <= lastEventTime_ c)%Q ->
  timely c ->
  timely c'.
Proof.
  intros Hadm Hreq Harr [Te Tb Ta Td Ts Tv].
  assert (Hmem : forall p, arrival (mem c') p = arrival (mem c) p).
  { intros p. destruct Hadm; simpl; try done; by apply arrival_admitted. }
  assert (Hdisp : forall p, dispatched c' p ->
                   exists r', mem c' !! p = Some r' /\ stamps_in_order r').
  { intros p Hd.
    assert (dispatched c p) as Hd0 by (by destruct Hadm).
    destruct (Td p Hd0) as (r0 & Hr0 & Hok).
    destruct Hadm; simpl; try (by eapply admitted_lookup).
    by exists r0. }
  constructor; try done.
  - by destruct Hadm.
  - apply Forall_forall. intros p Hp. rewrite Hmem.
    assert (p = req \/ p ∈ buffer_ c) as [->|Hin].
    { destruct Hadm; simpl in Hp.
      - apply elem_of_app in Hp as [Hp|Hp].
        + right. eapply elem_of_sublist; [exact Hp|apply sublist_take].
        + apply elem_of_cons in Hp as [->|Hp]; [by left|].
          right. eapply elem_of_sublist; [exact Hp|apply sublist_drop].
      - apply elem_of_app in Hp as [Hp|Hp].
        + right. eapply elem_of_sublist; [exact Hp|apply sublist_delete].
        + apply list_elem_of_singleton in Hp. by left.
      - by right. }
    + by destruct Hadm.
    + rewrite Forall_forall in Tb. specialize (Tb p Hin). by destruct Hadm.
  - destruct Hadm; simpl; try done;
      (eapply Forall_impl; [exact Ta|]); intros ev Hev Hty; simpl;
      rewrite arrival_admitted by done; by apply Hev.
  - by destruct Hadm.
  - by destruct Hadm.
Qed.

Lemma elem_of_insert_inv {A} (l : list A) i y x :
  x ∈ <[i:=y]> l -> x = y \/ x ∈ l.
Proof.
  intros H. apply list_elem_of_lookup in H as [j Hj].
  destruct (decide (i = j)) as [->|Hne].
  - destruct (decide (j < length l)%nat).
    + rewrite list_lookup_insert_eq in Hj by done. left. congruence.
    + rewrite list_insert_ge in Hj by lia. right.
      by eapply list_elem_of_lookup_2.
  - rewrite list_lookup_insert_ne in Hj by done. right.
    by eapply list_elem_of_lookup_2.
Qed.

Lemma dispatch_fields i d p x c r :
  mem c !! p = Some r ->
  exists c' d' ev,
    dispatch i d p x c = Some c'
    /\ mem c' = <[p := Request.setStartServiceTime x r]> (mem c)
    /\ devices_ c' = <[i := d']> (devices_ c)
    /\ Device.currentRequest_ d' = Some p
    /\ draws (Device.rng_ d') = draws (Device.rng_ d)
    /\ pq_items PQ (events_ c') ≡ₚ ev :: pq_items PQ (events_ c)
    /\ Event.type ev = REQUEST_SERVED
    /\ Event.request ev = p
    /\ Event.time ev = (x + draws (Device.rng_ d) (drawn (Device.rng_ d)))%Q
    /\ totalWaitTime_ c'
       = (totalWaitTime_ c + (x - Request.bufferEnterTime_ r))%Q
    /\ servedRequestsCount_ c' = servedRequestsCount_ c + 1
    /\ buffer_ c' = buffer_ c
    /\ sources_ c' = sources_ c
    /\ lastEventTime_ c' = lastEventTime_ c.
Proof.
  intros Hr. unfold dispatch, Device.loadRequest. simpl.
  rewrite (store_update_Some _ _ _ _ Hr).
  rewrite list_lookup_insert_eq by (by eapply lookup_lt_Some).
  eexists _, _, _. split; [reflexivity|]. simpl.
  repeat split; try reflexivity.
  - apply pq_items_push.
  - reflexivity.
  - reflexivity.
  - reflexivity.
Qed.

Lemma dispatch_timely i d p x c c' :
  wf c ->
  timely c ->
  devices_ c !! i = Some d ->
  (p < length (mem c))%nat ->
  (lastEventTime_ c <= x)%Q ->
  (arrival (mem c) p <= x)%Q ->
  dispatch i d p x c = Some c' ->
  timely c'.
Proof.
  intros Hwf [Te Tb Ta Td Ts Tv] Hi Hp Hlast Harr Hc'.
  apply lookup_lt_is_Some in Hp as [r Hr].
  destruct (dispatch_fields i d p x c r Hr)
    as (c2 & d' & ev & Heq & Hmem & Hdev & Hcur & Hrng & Hitems & Hty & Hreq
        & Htime & _ & _ & Hbuf & Hsrc & Hl).
  rewrite Hc' in Heq. injection Heq as <-.
  assert (Harrival : forall q, arrival (mem c') q = arrival (mem c) q).
  { intros q. rewrite Hmem. by apply arrival_insert. }
  assert (Hd : forall n, (0 <= draws (Device.rng_ d) n)%Q).
  { rewrite Forall_forall in Tv. apply Tv. by eapply list_elem_of_lookup_2. }
  constructor.
  - rewrite Hitems, Hl. constructor; [|done].
    rewrite Htime. specialize (Hd (drawn (Device.rng_ d))). lra.
  - rewrite Hbuf, Hl. eapply Forall_impl; [exact Tb|].
    intros q Hq. simpl in Hq. by rewrite Harrival.
  - rewrite Hitems. constructor; [by rewrite Hty|].
    eapply Forall_impl; [exact Ta|].
    intros e He Hte. simpl. rewrite Harrival. by apply He.
  - intros q Hdisp.
    destruct (decide (p = q)) as [<-|Hne].
    + rewrite Hmem, list_lookup_insert_eq by (by eapply lookup_lt_Some).
      eexists. split; [reflexivity|].
      pose proof (Forall_lookup_1 _ _ _ _ (wf_store _ Hwf) Hr) as Hok.
      simpl in Hok. unfold arrival in Harr. rewrite Hr in Harr.
      split; simpl; rewrite Hok; [apply Qle_refl|done].
    + rewrite Hmem, list_lookup_insert_ne by done.
      apply (Td q).
      destruct Hdisp as [(e & Hin & Hte & Hpe)|(d0 & Hin & Hpd)].
      * rewrite Hitems in Hin. apply elem_of_cons in Hin as [->|Hin];
          [congruence|].
        left. by exists e.
      * rewrite Hdev in Hin. apply elem_of_insert_inv in Hin as [->|Hin];
          [congruence|].
        right. by exists d0.
  - by rewrite Hsrc.
  - rewrite Hdev. apply Forall_insert; [done|]. by rewrite Hrng.
Qed.

(** A property that every dispatch of a sweep preserves holds after the
    sweep. *)
Lemma loadRequests_from_rule (P : Controller PQ -> Prop) x :
  (forall c i d p rest c2,
      wf c -> P c -> devices_ c !! i = Some d -> buffer_ c = p :: rest ->
      dispatch i d p x (with_buffer rest c) = Some c2 -> P c2) ->
  forall todo i c c',
    wf c -> P c -> loadRequests_from todo i x c = Some c' -> P c'.
Proof.
  intros Hstep. induction todo as [|todo IH]; intros i c c' Hwf HP H;
    simpl in H.
  { by injection H as <-. }
  destruct (devices_ c !! i) as [d|] eqn:Hd; [|by injection H as <-].
  destruct (Device.busy_ d); [by eapply IH|].
  unfold popRequest in H. destruct (buffer_ c) as [|p rest] eqn:Hbuf.
  { by injection H as <-. }
  destruct (dispatch i d p x (with_buffer rest c)) as [c2|] eqn:Hc2; [|done].
  pose proof (popRequest_wf c Hwf) as Hwf1.
  unfold popRequest in Hwf1. rewrite Hbuf in Hwf1. simpl in Hwf1.
  assert (p < length (mem c))%nat as Hp.
  { pose proof (wf_buffer _ Hwf) as Hlive. unfold live in Hlive.
    rewrite Hbuf in Hlive. by inversion Hlive. }
  destruct (dispatch_wf i d p x (with_buffer rest c) Hwf1 Hd Hp)
    as (c2' & Heq & Hwf2 & _).
  rewrite Hc2 in Heq. injection Heq as <-.
  eapply (IH (S i) c2); [done| |done].
  by eapply (Hstep c i d p rest).
Qed.

Lemma loadRequestsToFreeDevices_timely x c c' :
  wf c ->
  timely c ->
  (lastEventTime_ c <= x)%Q ->
  loadRequestsToFreeDevices x c = Some c' ->
  timely c'.
Proof.
  intros Hwf Ht Hlast H.
  apply (loadRequests_from_rule
           (fun c => timely c /\ (lastEventTime_ c <= x)%Q) x)
    in H; [by destruct H|clear c c' Hwf Ht Hlast H|done|done].
  intros c i d p rest c2 Hwf [Ht Hlast] Hd Hbuf Hc2.
  pose proof (popRequest_wf c Hwf) as Hwf1.
  unfold popRequest in Hwf1. rewrite Hbuf in Hwf1. simpl in Hwf1.
  pose proof (wf_buffer _ Hwf) as Hlive. unfold live in Hlive.
  pose proof (timely_buffer _ Ht) as Tb.
  rewrite Hbuf in Hlive, Tb.
  apply Forall_cons in Hlive as [Hp _], Tb as [Harr Tb].
  assert (timely (with_buffer rest c)) as Ht1.
  { destruct Ht as [Te _ Ta Td Ts Tv]. by constructor. }
  split.
  - eapply (dispatch_timely i d p x (with_buffer rest c)); try done.
    simpl. eapply Qle_trans; [exact Harr|exact Hlast].
  - destruct (lookup_lt_is_Some_2 _ _ Hp) as [r Hr].
    destruct (dispatch_fields i d p x (with_buffer rest c) r Hr)
      as (c2' & d' & ev & Heq & Hrest).
    rewrite Hc2 in Heq. injection Heq as <-.
    destruct Hrest as (_ & _ & _ & _ & _ & _ & _ & _ & _ & _ & _ & _ & ->).
    done.
Qed.

Lemma loadRequestsToFreeDevices_swept x c c' :
  wf c ->
  loadRequestsToFreeDevices x c = Some c' ->
  exists ps, swept c x ps c'.
Proof.
  intros Hwf H.
  apply (loadRequests_from_rule (fun c1 => exists ps, swept c x ps c1) x) in H;
    [done| |done|].
  2:{ exists []. repeat split; simpl; (done || lia || constructor). }
  clear c' H. intros c1 i d p rest c2 Hwf1 (ps & Hs & Hw & Ha & Hps) Hd Hbuf Hc2.
  assert (p < length (mem c1))%nat as Hp.
  { pose proof (wf_buffer _ Hwf1) as Hlive. unfold live in Hlive.
    rewrite Hbuf in Hlive. by inversion Hlive. }
  destruct (lookup_lt_is_Some_2 _ _ Hp) as [r Hr].
  destruct (dispatch_fields i d p x (with_buffer rest c1) r Hr)
    as (c2' & d' & ev & Heq & Hmem & _ & _ & _ & Hitems & Hty & Hreq & _
        & Hwait & Hserved & _).
  rewrite Hc2 in Heq. injection Heq as <-.
  exists (ps ++ [p]). split; [|split; [|split]].
  - rewrite Hserved, length_app. simpl. lia.
  - rewrite Hwait. unfold charge_waits. rewrite fold_left_app. simpl.
    unfold charge_waits in Hw. rewrite Hw.
    pose proof (Forall_lookup_1 _ _ _ _ (wf_store _ Hwf1) Hr) as Hok.
    simpl in Hok. rewrite Hok. rewrite <- Ha. unfold arrival. by rewrite Hr.
  - intros q. rewrite Hmem. simpl. rewrite <- Ha. by apply arrival_insert.
  - apply Forall_app. split.
    + eapply Forall_impl; [exact Hps|]. intros q (e & Hin & Hte & Hq).
      exists e. split; [|done]. rewrite Hitems. by right.
    + constructor; [|constructor]. exists ev. split; [|done].
      rewrite Hitems. by left.
Qed.

Lemma generate_timely i src x c :
  wf c ->
  timely c ->
  sources_ c !! i = Some src ->
  (lastEventTime_ c <= x)%Q ->
  timely (generate i src x c).
Proof.
  intros [Hb He Hs Hd Hm Hc Hy] [Te Tb Ta Td Ts Tv] Hi Hlast.
  assert (Hsrc : forall n, (0 <= draws (Source.rng_ src) n)%Q).
  { rewrite Forall_forall in Ts. apply Ts. by eapply list_elem_of_lookup_2. }
  unfold generate. simpl. constructor; simpl.
  - rewrite pq_items_push. constructor; [|done]. simpl.
    specialize (Hsrc (drawn (Source.rng_ src))). lra.
  - apply Forall_forall. intros p Hp.
    unfold live in Hb. rewrite Forall_forall in Hb, Tb.
    rewrite arrival_app by (by apply Hb). by apply Tb.
  - rewrite pq_items_push. constructor; simpl.
    + intros _. unfold arrival. rewrite lookup_app_r by done.
      rewrite Nat.sub_diag. simpl. apply Qle_refl.
    + apply Forall_forall. intros e Hin Hty.
      rewrite Forall_forall in He, Ta.
      rewrite arrival_app by (by apply He). by apply Ta.
  - intros p Hdisp.
    destruct (Td p) as (r & Hr & Hok).
    { destruct Hdisp as [(e & Hin & Hty & Hp)|(d & Hin & Hp)].
      - simpl in Hin. rewrite pq_items_push in Hin.
        apply elem_of_cons in Hin as [->|Hin]; [done|].
        left. by exists e.
      - right. by exists d. }
    exists r. split; [|done]. by apply lookup_app_l_Some.
  - apply Forall_insert; [done|]. done.
  - done.
Qed.

Lemma scheduleNextRequest_timely i x c :
  wf c ->
  timely c ->
  (lastEventTime_ c <= x)%Q ->
  timely (scheduleNextRequest i x c).
Proof.
  intros Hwf Ht Hlast. unfold scheduleNextRequest.
  destruct (sources_ c !! i) as [src|] eqn:Hi; [|done].
  destruct (maxRequests_ c <=? generatedRequestsCount_ c); [done|].
  by apply generate_timely.
Qed.

Lemma scheduleNextRequest_last i x c :
  lastEventTime_ (scheduleNextRequest i x c) = lastEventTime_ c.
Proof.
  unfold scheduleNextRequest.
  destruct (sources_ c !! i) as [src|]; [|done].
  by destruct (maxRequests_ c <=? generatedRequestsCount_ c).
Qed.

Lemma freeDevice_timely i d x c :
  timely c ->
  devices_ c !! i = Some d ->
  timely (with_devices (<[i := Device.freeDevice x d]> (devices_ c)) c).
Proof.
  intros [Te Tb Ta Td Ts Tv] Hi. constructor; simpl; try done.
  - intros p Hdisp. apply Td.
    destruct Hdisp as [(e & Hin & Hty & Hp)|(d' & Hin & Hp)].
    + left. by exists e.
    + simpl in Hin. apply elem_of_insert_inv in Hin as [->|Hin]; [done|].
      right. by exists d'.
  - apply Forall_insert; [done|]. simpl.
    rewrite Forall_forall in Tv. apply Tv. by eapply list_elem_of_lookup_2.
Qed.

Lemma handleEvent_timely ev q c c' :
  wf c ->
  timely c ->
  pq_pop PQ (events_ c) = Some (ev, q) ->
  handleEvent ev (with_events q c) = Some c' ->
  timely c'.
Proof.
  intros Hwf Ht Hpop Hev.
  destruct (pop_wf _ _ _ Hwf Hpop) as (Hwf1 & Hreq & Hid).
  apply (updateLastEventTime_wf (Event.time ev)) in Hwf1.
  destruct (pop_timely _ _ _ Ht Hpop) as (Ht1 & Hlast1 & Harr).
  set (x := Event.time ev) in *.
  set (c1 := updateLastEventTime x (with_events q c)) in *.
  assert (x <= lastEventTime_ c1)%Q as Hge.
  { pose proof (timely_events _ Ht) as Te.
    rewrite (pop_items _ _ _ Hpop) in Te. apply Forall_cons in Te as [Te _].
    by destruct (updateLastEventTime_last x (with_events q c) Te) as (_ & ? & _). }
  unfold handleEvent in Hev. fold x c1 in Hev.
  destruct (Event.type ev) eqn:Hty.
  - unfold handleRequestGenerated in Hev.
    destruct (lookup_lt_is_Some_2 _ _ Hreq) as [r Hr].
    destruct (addRequest_admission (Event.request ev) r c1 Hr (wf_buffer _ Hwf1))
      as (added & c2 & Hadd & Hadm).
    rewrite Hadd in Hev.
    pose proof (admission_wf _ _ _ _ _ Hadm Hr Hwf1) as Hwf2.
    assert (timely c2) as Ht2.
    { eapply admission_timely; try done.
      eapply Qle_trans; [by apply Harr|exact Hge]. }
    destruct (admission_frame _ _ _ _ _ Hadm) as (_ & _ & _ & _ & _ & _ & Hl2 & _).
    assert (exists c3,
      (if added then loadRequestsToFreeDevices x c2 else Some c2) = Some c3
      /\ wf c3 /\ timely c3 /\ lastEventTime_ c3 = lastEventTime_ c2)
      as (c3 & Heq & Hwf3 & Ht3 & Hl3).
    { destruct added.
      - destruct (loadRequestsToFreeDevices_wf x c2 Hwf2)
          as (c3 & Heq & Hwf3 & Hset & _).
        exists c3. split; [done|]. split; [done|]. split.
        + apply (loadRequestsToFreeDevices_timely x c2 c3); try done.
          by rewrite Hl2.
        + by destruct Hset as (_ & _ & _ & _ & _ & ? & _).
      - by exists c2. }
    rewrite Heq in Hev.
    destruct (mem c3 !! Event.request ev) as [r'|]; [|done].
    assert (lastEventTime_ c3 <= x)%Q as Hlast3 by (by rewrite Hl3, Hl2).
    destruct ((0 <=? Request.sourceIndex_ r')
              && (Request.sourceIndex_ r' <? Z.of_nat (length (sources_ c3))));
      injection Hev as <-; [|done].
    by apply scheduleNextRequest_timely.
  - unfold handleRequestFinished in Hev.
    destruct ((1 <=? Event.deviceId ev)
              && (Event.deviceId ev <=? Z.of_nat (length (devices_ c1))));
      [|done].
    destruct (devices_ c1 !! Z.to_nat (Event.deviceId ev - 1)) as [d|] eqn:Hd;
      [|done].
    eapply loadRequestsToFreeDevices_timely; [| | |exact Hev].
    + by apply freeDevice_wf.
    + by apply freeDevice_timely.
    + done.
Qed.

Lemma makeSources_durations n pr i seed :
  durations seed ->
  Forall (fun s => forall k, (0 <= draws (Source.rng_ s) k)%Q)
    (makeSources n pr i seed).
Proof.
  intros Hseed. revert i. induction n as [|n IH]; intros i; simpl;
    constructor; [|by apply IH].
  simpl. apply Hseed.
Qed.

Lemma makeDevices_durations n i seed :
  durations seed ->
  Forall (fun d => forall k, (0 <= draws (Device.rng_ d) k)%Q)
    (makeDevices n i seed).
Proof.
  intros Hseed. revert i. induction n as [|n IH]; intros i; simpl;
    constructor; [|by apply IH].
  simpl. apply Hseed.
Qed.

Lemma newController_timely nC nP nF nD maxR sseed dseed :
  durations sseed -> durations dseed ->
  timely (newController PQ nC nP nF nD maxR sseed dseed).
Proof.
  intros Hs Hd. constructor; simpl.
  - rewrite pq_items_new. constructor.
  - constructor.
  - rewrite pq_items_new. constructor.
  - intros p [(e & Hin & _)|(d & Hin & Hp)].
    + simpl in Hin. rewrite pq_items_new in Hin. by apply elem_of_nil in Hin.
    + simpl in Hin. apply list_elem_of_lookup in Hin as [k Hk].
      clear -Hk Hp. exfalso. revert Hk Hp. generalize 1 as i. revert k.
      induction (Z.to_nat nD) as [|n IH]; intros k i Hk Hp; simpl in Hk;
        [done|].
      destruct k as [|k]; simpl in Hk; [by injection Hk as <-|].
      by eapply IH.
  - repeat (apply Forall_app; split); by apply makeSources_durations.
  - by apply makeDevices_durations.
Qed.

Lemma generate_last i src x c :
  lastEventTime_ (generate i src x c) = lastEventTime_ c.
Proof. done. Qed.

Lemma initRequests_from_timely todo : forall i c,
  wf c ->
  timely c ->
  (lastEventTime_ c <= 0)%Q ->
  timely (initRequests_from todo i c).
Proof.
  induction todo as [|todo IH]; intros i c Hwf Ht Hlast; simpl; [done|].
  destruct (sources_ c !! i) as [src|] eqn:Hi; [|done].
  destruct (maxRequests_ c <=? generatedRequestsCount_ c) eqn:Hmax; [done|].
  apply Z.leb_gt in Hmax.
  apply IH.
  - by apply generate_wf.
  - by apply generate_timely.
  - by rewrite generate_last.
Qed.

Lemma start_timely nC nP nF nD maxR sseed dseed :
  durations sseed -> durations dseed ->
  timely (start PQ nC nP nF nD maxR sseed dseed).
Proof.
  intros Hs Hd. unfold start, initRequests.
  apply initRequests_from_timely.
  - apply newController_wf.
  - by apply newController_timely.
  - simpl. apply Qle_refl.
Qed.

Lemma reachable_timely c0 c :
  wf c0 -> timely c0 -> reachable c0 c -> timely c.
Proof.
  intros Hwf0 Ht0. induction 1 as [|c ev q c' Hreach IH _ Hpop Hev]; [done|].
  destruct (reachable_wf _ _ Hwf0 Hreach) as (Hwf & _).
  by eapply handleEvent_timely.
Qed.

(** C6: when every sample of the generators is a duration, a request that
    was dispatched (it is held by a device or by a pending completion) has
    [arrivalTime <= bufferEnterTime <= startServiceTime]. *)
Theorem C6_stamps_in_order nC nP nF nD maxR sseed dseed c p :
  durations sseed ->
  durations dseed ->
  reachable (start PQ nC nP nF nD maxR sseed dseed) c ->
  dispatched c p ->
  exists r,
    mem c !! p = Some r
    /\ (Request.arrivalTime_ r <= Request.bufferEnterTime_ r)%Q
    /\ (Request.bufferEnterTime_ r <= Request.startServiceTime_ r)%Q.
Proof.
  intros Hs Hd Hreach Hdisp.
  destruct (start_wf nC nP nF nD maxR sseed dseed) as (Hwf0 & _).
  pose proof (start_timely nC nP nF nD maxR sseed dseed Hs Hd) as Ht0.
  pose proof (reachable_timely _ _ Hwf0 Ht0 Hreach) as Ht.
  destruct (timely_dispatched _ Ht p Hdisp) as (r & Hr & Hok).
  by exists r.
Qed.

(** *** Waiting time *)

Lemma charge_waits_ext m m' x ps acc :
  (forall q, arrival m q = arrival m' q) ->
  charge_waits m x ps acc = charge_waits m' x ps acc.
Proof.
  intros Hm. unfold charge_waits. revert acc.
  induction ps as [|p ps IH]; intros acc; simpl; [done|].
  by rewrite Hm, IH.
Qed.

Lemma scheduleNextRequest_frame i x c :
  totalWaitTime_ (scheduleNextRequest i x c) = totalWaitTime_ c
  /\ forall e, e ∈ pq_items PQ (events_ c) ->
               e ∈ pq_items PQ (events_ (scheduleNextRequest i x c)).
Proof.
  unfold scheduleNextRequest.
  destruct (sources_ c !! i) as [src|]; [|done].
  destruct (maxRequests_ c <=? generatedRequestsCount_ c); [done|].
  split; [done|]. intros e He. unfold generate. simpl.
  rewrite pq_items_push. by right.
Qed.

Lemma swept_dispatched c0 x ps c :
  swept c0 x ps c -> Forall (dispatched c) ps.
Proof.
  intros (_ & _ & _ & Hps). eapply Forall_impl; [exact Hps|].
  intros p He. by left.
Qed.

(** What one iteration of the loop of [work] adds to the served counter
    and to the total waiting time. *)
Lemma handleEvent_waits ev q c c' :
  wf c ->
  pq_pop PQ (events_ c) = Some (ev, q) ->
  handleEvent ev (with_events q c) = Some c' ->
  exists ps,
    servedRequestsCount_ c' = servedRequestsCount_ c + Z.of_nat (length ps)
    /\ totalWaitTime_ c'
       = charge_waits (mem c) (Event.time ev) ps (totalWaitTime_ c)
    /\ Forall (dispatched c') ps.
Proof.
  intros Hwf Hpop Hev.
  destruct (pop_wf _ _ _ Hwf Hpop) as (Hwf1 & Hreq & Hid).
  apply (updateLastEventTime_wf (Event.time ev)) in Hwf1.
  set (x := Event.time ev) in *.
  set (c1 := updateLastEventTime x (with_events q c)) in *.
  unfold handleEvent in Hev. fold x c1 in Hev.
  destruct (Event.type ev) eqn:Hty.
  - unfold handleRequestGenerated in Hev.
    destruct (lookup_lt_is_Some_2 _ _ Hreq) as [r Hr].
    destruct (addRequest_admission (Event.request ev) r c1 Hr (wf_buffer _ Hwf1))
      as (added & c2 & Hadd & Hadm).
    rewrite Hadd in Hev.
    pose proof (admission_wf _ _ _ _ _ Hadm Hr Hwf1) as Hwf2.
    destruct (admission_frame _ _ _ _ _ Hadm)
      as (_ & _ & _ & _ & _ & Hserved2 & _ & Hwait2).
    assert (Harr2 : forall p, arrival (mem c2) p = arrival (mem c) p).
    { intros p. destruct Hadm; simpl; try done; by apply arrival_admitted. }
    assert (exists c3 ps,
      (if added then loadRequestsToFreeDevices x c2 else Some c2) = Some c3
      /\ wf c3 /\ swept c2 x ps c3) as (c3 & ps & Heq & Hwf3 & Hswept).
    { destruct added.
      - destruct (loadRequestsToFreeDevices_wf x c2 Hwf2)
          as (c3 & Heq & Hwf3 & _).
        destruct (loadRequestsToFreeDevices_swept x c2 c3 Hwf2 Heq) as [ps Hps].
        by exists c3, ps.
      - exists c2, []. split; [done|]. split; [done|].
        repeat split; simpl; (done || lia || constructor). }
    rewrite Heq in Hev.
    pose proof (swept_dispatched _ _ _ _ Hswept) as Hdisp.
    destruct Hswept as (Hs3 & Hw3 & _ & Hps).
    rewrite (charge_waits_ext _ _ _ _ _ Harr2) in Hw3.
    simpl in Hserved2, Hwait2. rewrite Hserved2 in Hs3. rewrite Hwait2 in Hw3.
    exists ps.
    destruct (mem c3 !! Event.request ev) as [r'|]; [|done].
    destruct ((0 <=? Request.sourceIndex_ r')
              && (Request.sourceIndex_ r' <? Z.of_nat (length (sources_ c3))));
      injection Hev as <-; [|done].
    destruct (scheduleNextRequest_frame
                (Z.to_nat (Request.sourceIndex_ r')) x c3) as [Hw4 He4].
    destruct (scheduleNextRequest_wf
                (Z.to_nat (Request.sourceIndex_ r')) x c3 Hwf3)
      as (_ & _ & _ & _ & Hs4 & _).
    rewrite Hs4, Hw4. split; [done|]. split; [done|].
    eapply Forall_impl; [exact Hps|].
    intros p (e & Hin & Hte & Hp). left. exists e. split; [by apply He4|done].
  - unfold handleRequestFinished in Hev.
    destruct ((1 <=? Event.deviceId ev)
              && (Event.deviceId ev <=? Z.of_nat (length (devices_ c1))));
      [|done].
    destruct (devices_ c1 !! Z.to_nat (Event.deviceId ev - 1)) as [d|] eqn:Hd;
      [|done].
    pose proof (freeDevice_wf _ _ x _ Hwf1 Hd) as Hwf2.
    destruct (loadRequestsToFreeDevices_swept x _ c' Hwf2 Hev) as [ps Hps].
    exists ps. pose proof (swept_dispatched _ _ _ _ Hps) as Hdisp.
    by destruct Hps as (Hs & Hw & _).
Qed.

(** C8: in every reachable state every request of the store has its
    [bufferEnterTime] equal to its [arrivalTime]; so an iteration of the
    loop charges, for each request it dispatches, the time of the event
    minus the arrival time of the request. *)
Theorem C8_bufferEnterTime_is_arrivalTime nC nP nF nD maxR sseed dseed c :
  reachable (start PQ nC nP nF nD maxR sseed dseed) c ->
  (forall p r, mem c !! p = Some r ->
     Request.bufferEnterTime_ r = Request.arrivalTime_ r)
  /\ forall ev q c',
       pq_pop PQ (events_ c) = Some (ev, q) ->
       handleEvent ev (with_events q c) = Some c' ->
       exists ps,
         servedRequestsCount_ c'
         = servedRequestsCount_ c + Z.of_nat (length ps)
         /\ totalWaitTime_ c'
            = charge_waits (mem c) (Event.time ev) ps (totalWaitTime_ c)
         /\ Forall (dispatched c') ps.
Proof.
  intros Hreach. apply reachable_start_wf in Hreach as (Hwf & _).
  split.
  - intros p r Hp. by apply (Forall_lookup_1 _ _ _ _ (wf_store _ Hwf) Hp).
  - intros ev q c'. by apply handleEvent_waits.
Qed.

(** *** Order of the buffer *)

Lemma may_precede_trans (a b d : Request.t) :
  may_precede a b -> may_precede b d -> may_precede a d.
Proof.
  unfold may_precede. intros [H1|[H1 H1']] [H2|[H2 H2']].
  - left. lia.
  - left. by rewrite <- H2.
  - left. by rewrite H1.
  - right. split; [congruence|]. eapply Qle_trans; eauto.
Qed.

Lemma insert_before_false req r :
  insert_before req r = false -> may_precede r req.
Proof.
  unfold insert_before, may_precede.
  destruct (priority_int (Request.priority_ r)
            <? priority_int (Request.priority_ req)) eqn:Hlt.
  - apply Z.ltb_lt in Hlt. by left.
  - destruct (bool_decide (Request.priority_ r = Request.priority_ req))
      eqn:Heq; simpl; [|done].
    apply bool_decide_eq_true in Heq.
    destruct (Qle_bool (Request.arrivalTime_ req) (Request.arrivalTime_ r))
      eqn:Hle; simpl; [done|]. intros _. right. split; [done|].
    destruct (Qlt_le_dec (Request.arrivalTime_ r) (Request.arrivalTime_ req))
      as [Hlt'|Hge].
    + by apply Qlt_le_weak.
    + apply Qle_bool_iff in Hge. congruence.
Qed.

Lemma insert_before_true req r :
  insert_before req r = true -> may_precede req r.
Proof.
  unfold insert_before, may_precede.
  destruct (priority_int (Request.priority_ r)
            <? priority_int (Request.priority_ req)) eqn:Hlt; [done|].
  apply Z.ltb_ge in Hlt.
  destruct (bool_decide (Request.priority_ r = Request.priority_ req)) eqn:Heq;
    simpl.
  - apply bool_decide_eq_true in Heq.
    destruct (Qle_bool (Request.arrivalTime_ req) (Request.arrivalTime_ r))
      eqn:Hle; simpl; [|done].
    intros _. right. apply Qle_bool_iff in Hle. by split.
  - apply bool_decide_eq_false in Heq. intros _. left.
    assert (priority_int (Request.priority_ r)
            <> priority_int (Request.priority_ req)); [|lia].
    intros Hp. apply Heq.
    by destruct (Request.priority_ r), (Request.priority_ req).
Qed.

(** The branch of [addRequest] for a buffer with room keeps an ordered
    buffer ordered. *)
Lemma insertion_keeps_order req r c it :
  mem c !! req = Some r ->
  buffer_ordered c ->
  find_if (insert_before r) (mem c) (buffer_ c) = Some it ->
  buffer_ordered
    (with_mem (admitted req r (mem c))
       (with_buffer (take it (buffer_ c) ++ req :: drop it (buffer_ c)) c)).
Proof.
  intros Hreq Hord Hit.
  destruct (find_if_Some _ _ _ _ Hit) as (Hle & Hbefore & Hat).
  set (c' := with_mem _ _).
  (* the key of an occupant of the new buffer *)
  assert (Hocc : forall k e, occupant c' k = Some e ->
    exists e0, Request.priority_ e = Request.priority_ e0
               /\ Request.arrivalTime_ e = Request.arrivalTime_ e0
               /\ ((k < it)%nat /\ occupant c k = Some e0
                   \/ k = it /\ e0 = r
                   \/ (it < k)%nat /\ occupant c (k - 1) = Some e0)).
  { intros k e Hk. unfold occupant in Hk. simpl in Hk.
    destruct ((take it (buffer_ c) ++ req :: drop it (buffer_ c)) !! k)
      as [p|] eqn:Hp; [|done].
    assert (exists e0, mem c !! p = Some e0
                       /\ Request.priority_ e = Request.priority_ e0
                       /\ Request.arrivalTime_ e = Request.arrivalTime_ e0)
      as (e0 & He0 & Hpr & Harr).
    { unfold admitted in Hk. destruct (decide (req = p)) as [->|Hne].
      - rewrite list_lookup_insert_eq in Hk by (by eapply lookup_lt_Some).
        injection Hk as <-. by exists r.
      - rewrite list_lookup_insert_ne in Hk by done. by exists e. }
    assert (length (take it (buffer_ c)) = it) as Hlen
      by (rewrite length_take; lia).
    destruct (decide (k < it)%nat) as [Hlt|Hge].
    - rewrite lookup_app_l, lookup_take_lt in Hp by lia.
      exists e0. split; [done|]. split; [done|]. left. split; [done|].
      unfold occupant. by rewrite Hp.
    - rewrite lookup_app_r in Hp by lia. rewrite Hlen in Hp.
      destruct (k - it)%nat as [|k'] eqn:Hk'; simpl in Hp.
      + injection Hp as <-. exists r. split; [congruence|].
        split; [congruence|]. right. left. split; [lia|done].
      + rewrite lookup_drop in Hp. exists e0. split; [done|]. split; [done|].
        right. right. split; [lia|]. unfold occupant.
        replace (k - 1)%nat with (it + k')%nat by lia. by rewrite Hp. }
  assert (Hkey : forall a a0 b b0,
    Request.priority_ a = Request.priority_ a0 ->
    Request.arrivalTime_ a = Request.arrivalTime_ a0 ->
    Request.priority_ b = Request.priority_ b0 ->
    Request.arrivalTime_ b = Request.arrivalTime_ b0 ->
    may_precede a0 b0 -> may_precede a b).
  { unfold may_precede. intros a a0 b b0 -> -> -> ->. done. }
  assert (Hfirst : forall k e0, (k < it)%nat -> occupant c k = Some e0 ->
                                may_precede e0 r).
  { intros k e0 Hk He0. apply occupant_lookup in He0 as (p & Hp & He0).
    destruct (Hbefore k p Hk Hp) as (r' & Hr' & Hpred).
    assert (r' = e0) as -> by congruence. by apply insert_before_false. }
  assert (Hlast : forall k e0, (it <= k)%nat -> occupant c k = Some e0 ->
                               may_precede r e0).
  { intros k e0 Hk He0.
    assert (it < length (buffer_ c))%nat as Hlt.
    { apply occupant_lookup in He0 as (p & Hp & _).
      apply lookup_lt_Some in Hp. lia. }
    destruct (Hat Hlt) as (p & e1 & Hp & He1 & Hpred).
    apply insert_before_true in Hpred.
    destruct (decide (k = it)) as [->|Hne].
    - unfold occupant in He0. rewrite Hp, He1 in He0. by injection He0 as <-.
    - eapply may_precede_trans; [exact Hpred|].
      apply (Hord it k); [lia| |done]. unfold occupant. by rewrite Hp. }
  intros i j a b Hij Ha Hb.
  destruct (Hocc i a Ha) as (a0 & Hpa & Haa & Hi).
  destruct (Hocc j b Hb) as (b0 & Hpb & Hab & Hj).
  apply (Hkey a a0 b b0); try done.
  destruct Hi as [[Hi Ha0]|[[-> ->]|[Hi Ha0]]],
           Hj as [[Hj Hb0]|[[-> ->]|[Hj Hb0]]]; try lia.
  - by apply (Hord i j).
  - by eapply Hfirst.
  - eapply may_precede_trans; [by eapply Hfirst|].
    eapply (Hlast (j - 1)%nat); [lia|done].
  - eapply (Hlast (j - 1)%nat); [lia|done].
  - apply (Hord (i - 1)%nat (j - 1)%nat); [lia|done|done].
Qed.

Lemma popRequest_keeps_order c :
  buffer_ordered c -> buffer_ordered (snd (popRequest c)).
Proof.
  intros Hord. unfold popRequest.
  destruct (buffer_ c) as [|p rest] eqn:Hbuf; [done|]. simpl.
  intros i j a b Hij Ha Hb. apply (Hord (S i) (S j)); [lia| |].
  - unfold occupant in *. simpl in Ha. by rewrite Hbuf.
  - unfold occupant in *. simpl in Hb. by rewrite Hbuf.
Qed.

(** *** The admission decision, for every priority *)

Lemma none_with_FREE_none_lower c r :
  Request.priority_ r = PREMIUM -> none_with FREE c -> none_lower r c.
Proof.
  intros Hpr Hno i e He. specialize (Hno i e He). rewrite Hpr.
  destruct (Request.priority_ e); simpl; (done || lia).
Qed.

Lemma none_lower_CORPORATE c r :
  Request.priority_ r = CORPORATE ->
  none_with FREE c -> none_with PREMIUM c -> none_lower r c.
Proof.
  intros Hpr HnoF HnoP i e He.
  specialize (HnoF i e He). specialize (HnoP i e He). rewrite Hpr.
  destruct (Request.priority_ e); simpl; (done || lia).
Qed.

Lemma none_lower_FREE c r : Request.priority_ r = FREE -> none_lower r c.
Proof.
  intros Hpr i e He. rewrite Hpr. destruct (Request.priority_ e); simpl; lia.
Qed.

Lemma first_with_lower pr c i r :
  first_with pr c i ->
  priority_int (Request.priority_ r) < priority_int pr ->
  ~ none_lower r c.
Proof.
  intros [(e & He & Hpe) _] Hlt Hno. specialize (Hno i e He).
  rewrite Hpe in Hno. lia.
Qed.

(** X2: A request offered to a full buffer is admitted exactly when some
    occupant has a strictly lower priority; a refusal leaves the buffer and
    the store as they were and charges the priority of the request. *)
Theorem addRequest_full_decision c req r :
  mem c !! req = Some r ->
  live (mem c) (buffer_ c) ->
  (BUFFER_SIZE <= length (buffer_ c))%nat ->
  exists added c',
    addRequest req c = Some (added, c')
    /\ (added = false <-> none_lower r c)
    /\ (added = false ->
        buffer_ c' = buffer_ c /\ mem c' = mem c
        /\ charges (Request.priority_ r) c c').
Proof.
  intros Hreq Hlive Hfull. apply live_is_Some in Hlive.
  unfold addRequest. rewrite Hreq.
  assert ((length (buffer_ c) <? BUFFER_SIZE)%nat = false) as ->
    by (by apply Nat.ltb_ge).
  destruct (find_if_is_Some (has_priority FREE) _ _ Hlive) as [iF HiF].
  destruct (find_if_is_Some (has_priority PREMIUM) _ _ Hlive) as [iP HiP].
  assert (Hrej : forall pr, Request.priority_ r = pr ->
    buffer_ (reject pr c) = buffer_ c /\ mem (reject pr c) = mem c
    /\ charges (Request.priority_ r) c (reject pr c)).
  { intros pr <-. repeat split; try done; apply reject_charges. }
  destruct (Request.priority_ r) eqn:Hpr; simpl; rewrite ?HiF.
  - destruct (iF <? length (buffer_ c))%nat eqn:HltF.
    + apply Nat.ltb_lt in HltF.
      pose proof (find_if_first_with _ _ _ HiF HltF) as Hfirst.
      destruct Hfirst as [(e & He & Hpe) Hbefore].
      destruct (evict_Some iF req r c e Hreq He) as (m' & _ & ->).
      eexists true, _. split; [reflexivity|]. split; [|done].
      split; [done|]. intros Hno. exfalso.
      eapply (first_with_lower FREE c iF r); [|rewrite Hpr; simpl; lia|done].
      split; [by exists e|done].
    + apply Nat.ltb_ge in HltF. rewrite HiP.
      assert (none_with FREE c) as HnoF
        by (eapply find_if_none_with; [exact HiF|lia]).
      destruct (iP <? length (buffer_ c))%nat eqn:HltP.
      * apply Nat.ltb_lt in HltP.
        pose proof (find_if_first_with _ _ _ HiP HltP) as Hfirst.
        destruct Hfirst as [(e & He & Hpe) Hbefore].
        destruct (evict_Some iP req r c e Hreq He) as (m' & _ & ->).
        eexists true, _. split; [reflexivity|]. split; [|done].
        split; [done|]. intros Hno. exfalso.
        eapply (first_with_lower PREMIUM c iP r);
          [|rewrite Hpr; simpl; lia|done].
        split; [by exists e|done].
      * apply Nat.ltb_ge in HltP.
        assert (none_with PREMIUM c) as HnoP
          by (eapply find_if_none_with; [exact HiP|lia]).
        eexists false, _. split; [reflexivity|]. split.
        -- split; [intros _|done]. by apply none_lower_CORPORATE.
        -- intros _. by apply Hrej.
  - destruct (iF <? length (buffer_ c))%nat eqn:HltF.
    + apply Nat.ltb_lt in HltF.
      pose proof (find_if_first_with _ _ _ HiF HltF) as Hfirst.
      destruct Hfirst as [(e & He & Hpe) Hbefore].
      destruct (evict_Some iF req r c e Hreq He) as (m' & _ & ->).
      eexists true, _. split; [reflexivity|]. split; [|done].
      split; [done|]. intros Hno. exfalso.
      eapply (first_with_lower FREE c iF r); [|rewrite Hpr; simpl; lia|done].
      split; [by exists e|done].
    + apply Nat.ltb_ge in HltF.
      assert (none_with FREE c) as HnoF
        by (eapply find_if_none_with; [exact HiF|lia]).
      eexists false, _. split; [reflexivity|]. split.
      * split; [intros _|done]. by apply none_with_FREE_none_lower.
      * intros _. by apply Hrej.
  - eexists false, _. split; [reflexivity|]. split.
    + split; [intros _|done]. by apply none_lower_FREE.
    + intros _. by apply Hrej.
Qed.

(** X3: A PREMIUM request offered to a full buffer evicts the first FREE
    occupant when there is one, and is refused otherwise, whatever PREMIUM
    occupants there are. *)
Theorem addRequest_full_PREMIUM c req r :
  mem c !! req = Some r ->
  Request.priority_ r = PREMIUM ->
  length (buffer_ c) = BUFFER_SIZE ->
  live (mem c) (buffer_ c) ->
  exists added c',
    addRequest req c = Some (added, c')
    /\ ((exists i, first_with FREE c i /\ added = true /\ evicts i req c c')
        \/ (none_with FREE c /\ added = false
            /\ buffer_ c' = buffer_ c /\ mem c' = mem c
            /\ charges PREMIUM c c')).
Proof.
  intros Hreq Hpr Hfull Hlive. apply live_is_Some in Hlive.
  unfold addRequest. rewrite Hreq, Hpr.
  assert ((length (buffer_ c) <? BUFFER_SIZE)%nat = false) as ->
    by (by rewrite Hfull).
  destruct (find_if_is_Some (has_priority FREE) _ _ Hlive) as [iF HiF].
  rewrite HiF.
  destruct (iF <? length (buffer_ c))%nat eqn:HltF.
  - apply Nat.ltb_lt in HltF.
    pose proof (find_if_first_with _ _ _ HiF HltF) as Hfirst.
    destruct Hfirst as [(e & He & Hpe) Hbefore].
    destruct (evict_Some iF req r c e Hreq He) as (m' & _ & Hev).
    eexists true, _. split; [exact Hev|]. left. exists iF.
    split; [split; [by exists e|done]|]. split; [done|].
    by eapply evict_evicts.
  - apply Nat.ltb_ge in HltF.
    eexists false, _. split; [reflexivity|]. right.
    split; [eapply find_if_none_with; [exact HiF|lia]|].
    repeat split; try done; apply (reject_charges PREMIUM c).
Qed.

(** *** Admission with room, survivors of an admission, and the head *)

(** X1: While the buffer has room, [addRequest] succeeds without touching the
    rejection counters: the request is inserted at one position, the occupants
    keep their relative order, its [bufferEnterTime] is set to its arrival
    time, and an ordered buffer stays ordered. *)
Theorem addRequest_with_room c req r :
  mem c !! req = Some r ->
  live (mem c) (buffer_ c) ->
  (length (buffer_ c) < BUFFER_SIZE)%nat ->
  exists it c',
    addRequest req c = Some (true, c')
    /\ (it <= length (buffer_ c))%nat
    /\ buffer_ c' = take it (buffer_ c) ++ req :: drop it (buffer_ c)
    /\ mem c' !! req
       = Some (Request.setBufferEnterTime (Request.arrivalTime_ r) r)
    /\ rejectedRequests_ c' = rejectedRequests_ c
    /\ rejectedByPriority_ c' = rejectedByPriority_ c
    /\ (buffer_ordered c -> buffer_ordered c').
Proof.
  intros Hreq Hlive Hroom.
  destruct (find_if_is_Some (insert_before r) _ _ (live_is_Some _ _ Hlive))
    as [it Hit].
  exists it. eexists. split.
  - unfold addRequest. rewrite Hreq.
    apply Nat.ltb_lt in Hroom. rewrite Hroom, Hit. simpl.
    rewrite (store_update_Some _ _ _ _ Hreq). reflexivity.
  - split; [by apply find_if_Some in Hit as (? & _)|]. split; [done|].
    split.
    + simpl. apply list_lookup_insert_eq. by eapply lookup_lt_Some.
    + split; [done|]. split; [done|].
      intros Hord. by apply insertion_keeps_order.
Qed.

Lemma elem_of_delete_other {A} (l : list A) i j x :
  l !! j = Some x -> i <> j -> x ∈ delete i l.
Proof.
  intros Hj Hne. apply list_elem_of_lookup.
  destruct (decide (j < i)%nat) as [Hlt|Hge].
  - exists j. by rewrite list_lookup_delete_lt.
  - exists (j - 1)%nat. rewrite list_lookup_delete_ge by lia.
    by replace (S (j - 1)) with j by lia.
Qed.

(** X4: [addRequest] never removes an occupant whose priority is equal to or
    higher than the priority of the incoming request: whatever the outcome,
    such an occupant is still in the buffer. *)
Theorem addRequest_keeps_higher c req r added c' p e :
  mem c !! req = Some r ->
  live (mem c) (buffer_ c) ->
  addRequest req c = Some (added, c') ->
  p ∈ buffer_ c ->
  mem c !! p = Some e ->
  priority_int (Request.priority_ e) <= priority_int (Request.priority_ r) ->
  p ∈ buffer_ c'.
Proof.
  intros Hreq Hlive Hadd Hin Hp Hle.
  destruct (addRequest_admission req r c Hreq Hlive)
    as (added' & c'' & Hadd' & Hadm).
  rewrite Hadd in Hadd'. injection Hadd' as <- <-.
  destruct Hadm as [it _ _|it e0 _ He0 Hlt|_]; simpl.
  - rewrite <- (take_drop it (buffer_ c)) in Hin.
    apply elem_of_app in Hin as [Hin|Hin]; apply elem_of_app; [by left|].
    right. by right.
  - apply elem_of_app. left.
    apply list_elem_of_lookup in Hin as [j Hj].
    apply (elem_of_delete_other _ it j); [done|].
    intros <-. unfold occupant in He0. rewrite Hj, Hp in He0.
    injection He0 as <-. lia.
  - done.
Qed.

(** X5: [popRequest] on an ordered buffer returns the occupant that may stand
    before every other one (the highest priority, then the earliest arrival)
    and removes only it; on the empty buffer it returns no request and changes
    nothing. *)
Theorem popRequest_head c :
  buffer_ordered c ->
  match popRequest c with
  | (Some p, c') =>
      isEmpty c = false
      /\ buffer_ c = p :: buffer_ c'
      /\ mem c' = mem c
      /\ forall e0 j e, mem c !! p = Some e0 -> occupant c' j = Some e ->
                        may_precede e0 e
  | (None, c') => isEmpty c = true /\ c' = c
  end.
Proof.
  intros Hord. unfold popRequest, isEmpty.
  destruct (buffer_ c) as [|p rest] eqn:Hbuf; [done|].
  split; [done|]. split; [done|]. split; [done|].
  intros e0 j e Hp He.
  apply (Hord 0%nat (S j)); [lia| |].
  - unfold occupant. by rewrite Hbuf.
  - unfold occupant in *. simpl in He. by rewrite Hbuf.
Qed.

(** *** The steps of an iteration *)

(** How [handleEvent] goes, for an arrival and for a completion. *)
Lemma handleEvent_cases ev q c c' :
  wf c ->
  pq_pop PQ (events_ c) = Some (ev, q) ->
  handleEvent ev (with_events q c) = Some c' ->
  wf (updateLastEventTime (Event.time ev) (with_events q c))
  /\ ((Event.type ev = REQUEST_GENERATED
       /\ exists r added c2 c3,
            mem c !! Event.request ev = Some r
            /\ admission (Event.request ev) r
                 (updateLastEventTime (Event.time ev) (with_events q c))
                 added c2
            /\ wf c2
            /\ (if added
                then loadRequestsToFreeDevices (Event.time ev) c2 = Some c3
                else c3 = c2)
            /\ wf c3
            /\ (c' = c3
                \/ exists i,
                     c' = scheduleNextRequest i (Event.time ev) c3
                     /\ exists r3,
                          mem c3 !! Event.request ev = Some r3
                          /\ Request.sourceIndex_ r3 = Z.of_nat i))
      \/ (Event.type ev = REQUEST_SERVED
          /\ exists i d,
               devices_ c !! i = Some d
               /\ Device.id_ d = Event.deviceId ev
               /\ loadRequestsToFreeDevices (Event.time ev)
                    (with_devices
                       (<[i := Device.freeDevice (Event.time ev) d]>
                          (devices_ c))
                       (updateLastEventTime (Event.time ev)
                          (with_events q c)))
                  = Some c')).
Proof.
  intros Hwf Hpop Hev.
  destruct (pop_wf _ _ _ Hwf Hpop) as (Hwf1 & Hreq & Hid).
  apply (updateLastEventTime_wf (Event.time ev)) in Hwf1.
  split; [done|].
  set (x := Event.time ev) in *.
  set (c1 := updateLastEventTime x (with_events q c)) in *.
  unfold handleEvent in Hev. fold x c1 in Hev.
  destruct (Event.type ev) eqn:Hty; [left|right]; (split; [done|]).
  - unfold handleRequestGenerated in Hev.
    destruct (lookup_lt_is_Some_2 _ _ Hreq) as [r Hr].
    destruct (addRequest_admission (Event.request ev) r c1 Hr (wf_buffer _ Hwf1))
      as (added & c2 & Hadd & Hadm).
    rewrite Hadd in Hev.
    pose proof (admission_wf _ _ _ _ _ Hadm Hr Hwf1) as Hwf2.
    assert (exists c3,
      (if added then loadRequestsToFreeDevices x c2 else Some c2) = Some c3
      /\ (if added then loadRequestsToFreeDevices x c2 = Some c3 else c3 = c2)
      /\ wf c3) as (c3 & Heq & Hc3 & Hwf3).
    { destruct added.
      - destruct (loadRequestsToFreeDevices_wf x c2 Hwf2)
          as (c3 & Heq & Hwf3 & _). by exists c3.
      - by exists c2. }
    rewrite Heq in Hev.
    exists r, added, c2, c3. do 5 (split; [done|]).
    destruct (mem c3 !! Event.request ev) as [r'|]; [|done].
    destruct ((0 <=? Request.sourceIndex_ r')
              && (Request.sourceIndex_ r' <? Z.of_nat (length (sources_ c3))))
      eqn:Hguard; injection Hev as <-; [right|by left].
    apply andb_true_iff in Hguard as [Hpos _]. apply Z.leb_le in Hpos.
    exists (Z.to_nat (Request.sourceIndex_ r')). split; [done|].
    exists r'. split; [done|]. lia.
  - unfold handleRequestFinished in Hev.
    destruct ((1 <=? Event.deviceId ev)
              && (Event.deviceId ev <=? Z.of_nat (length (devices_ c1))));
      [|done].
    destruct (devices_ c1 !! Z.to_nat (Event.deviceId ev - 1)) as [d|] eqn:Hd;
      [|done].
    exists (Z.to_nat (Event.deviceId ev - 1)), d. split; [done|].
    split; [|done].
    specialize (Hid eq_refl). simpl in Hid.
    rewrite (wf_devices _ Hwf _ _ Hd). lia.
Qed.

(** A property kept by every dispatch to an idle device holds after the
    sweep. *)
Lemma loadRequests_from_idle_rule (P : Controller PQ -> Prop) x :
  (forall c i d p rest c2,
      wf c -> P c -> devices_ c !! i = Some d -> Device.busy_ d = false ->
      buffer_ c = p :: rest ->
      dispatch i d p x (with_buffer rest c) = Some c2 -> P c2) ->
  forall todo i c c',
    wf c -> P c -> loadRequests_from todo i x c = Some c' -> P c'.
Proof.
  intros Hstep. induction todo as [|todo IH]; intros i c c' Hwf HP H;
    simpl in H.
  { by injection H as <-. }
  destruct (devices_ c !! i) as [d|] eqn:Hd; [|by injection H as <-].
  destruct (Device.busy_ d) eqn:Hbusy; [by eapply IH|].
  unfold popRequest in H. destruct (buffer_ c) as [|p rest] eqn:Hbuf.
  { by injection H as <-. }
  destruct (dispatch i d p x (with_buffer rest c)) as [c2|] eqn:Hc2; [|done].
  pose proof (popRequest_wf c Hwf) as Hwf1.
  unfold popRequest in Hwf1. rewrite Hbuf in Hwf1. simpl in Hwf1.
  assert (p < length (mem c))%nat as Hp.
  { pose proof (wf_buffer _ Hwf) as Hlive. unfold live in Hlive.
    rewrite Hbuf in Hlive. by inversion Hlive. }
  destruct (dispatch_wf i d p x (with_buffer rest c) Hwf1 Hd Hp)
    as (c2' & Heq & Hwf2 & _).
  rewrite Hc2 in Heq. injection Heq as <-.
  eapply (IH (S i) c2); [done| |done].
  by eapply (Hstep c i d p rest).
Qed.

(** *** Request ids and origins *)

Lemma identified_same c c' :
  mem c' = mem c ->
  sources_ c' = sources_ c ->
  generatedRequestsCount_ c' = generatedRequestsCount_ c ->
  identified c -> identified c'.
Proof.
  intros Hm Hs Hg [Hi Hc Hsrc Ho].
  constructor; rewrite ?Hm, ?Hs, ?Hg; done.
Qed.

Lemma identified_update c c' p f r :
  mem c' = <[p := f r]> (mem c) ->
  mem c !! p = Some r ->
  Request.id_ (f r) = Request.id_ r ->
  Request.priority_ (f r) = Request.priority_ r ->
  Request.sourceIndex_ (f r) = Request.sourceIndex_ r ->
  sources_ c' = sources_ c ->
  generatedRequestsCount_ c' = generatedRequestsCount_ c ->
  identified c -> identified c'.
Proof.
  intros Hm Hp Hfi Hfp Hfs Hs Hg [Hi Hc Hsrc Ho].
  assert (Hold : forall q r', mem c' !! q = Some r' ->
    exists r0, mem c !! q = Some r0
               /\ Request.id_ r' = Request.id_ r0
               /\ Request.priority_ r' = Request.priority_ r0
               /\ Request.sourceIndex_ r' = Request.sourceIndex_ r0).
  { intros q r' Hq. rewrite Hm in Hq.
    destruct (decide (p = q)) as [->|Hne].
    - rewrite list_lookup_insert_eq in Hq by (by eapply lookup_lt_Some).
      injection Hq as <-. by exists r.
    - rewrite list_lookup_insert_ne in Hq by done. by exists r'. }
  constructor.
  - intros q r' Hq. destruct (Hold q r' Hq) as (r0 & Hr0 & -> & _).
    by apply Hi.
  - by rewrite Hm, length_insert, Hg.
  - by rewrite Hs.
  - intros q r' Hq. destruct (Hold q r' Hq) as (r0 & Hr0 & _ & -> & ->).
    rewrite Hs. by eapply Ho.
Qed.

Lemma admission_identified req r c added c' :
  admission req r c added c' ->
  mem c !! req = Some r ->
  identified c -> identified c'.
Proof.
  intros Hadm Hreq Hid. destruct Hadm.
  - by eapply (identified_update c _ req
                 (Request.setBufferEnterTime (Request.arrivalTime_ r)) r).
  - eapply (identified_update c _ req
              (Request.setBufferEnterTime (Request.arrivalTime_ r)) r);
      [reflexivity|exact Hreq|reflexivity|reflexivity|reflexivity
      |reflexivity|reflexivity|exact Hid].
  - by apply (identified_same c).
Qed.

Lemma loadRequestsToFreeDevices_identified x c c' :
  wf c ->
  identified c ->
  loadRequestsToFreeDevices x c = Some c' ->
  identified c'.
Proof.
  intros Hwf Hid H.
  apply (loadRequests_from_rule identified x) in H; [done| |done|done].
  clear c c' Hwf Hid H. intros c i d p rest c2 Hwf Hid Hd Hbuf Hc2.
  assert (p < length (mem c))%nat as Hp.
  { pose proof (wf_buffer _ Hwf) as Hlive. unfold live in Hlive.
    rewrite Hbuf in Hlive. by inversion Hlive. }
  destruct (lookup_lt_is_Some_2 _ _ Hp) as [r Hr].
  pose proof (popRequest_wf c Hwf) as Hwf1.
  unfold popRequest in Hwf1. rewrite Hbuf in Hwf1. simpl in Hwf1.
  destruct (dispatch_wf i d p x (with_buffer rest c) Hwf1 Hd Hp)
    as (c2' & Heq & _ & Hset & _).
  rewrite Hc2 in Heq. injection Heq as <-.
  destruct (dispatch_fields i d p x (with_buffer rest c) r Hr)
    as (c2' & d' & ev & Heq & Hmem & _).
  rewrite Hc2 in Heq. injection Heq as <-.
  destruct Hset as (_ & Hg & _ & _ & Hs & _).
  by eapply (identified_update c c2 p (Request.setStartServiceTime x) r).
Qed.

Lemma generate_identified i src x c :
  wf c ->
  identified c ->
  sources_ c !! i = Some src ->
  identified (generate i src x c).
Proof.
  intros Hwf [Hi Hc Hsrc Ho] Hsi.
  destruct (wf_counters _ Hwf) as (_ & _ & _ & Hgid).
  pose proof (Hsrc _ _ Hsi) as Hidx.
  pose proof (lookup_lt_Some _ _ _ Hsi) as Hlt.
  unfold generate. simpl. constructor; simpl.
  - intros p r Hp. apply lookup_app_Some in Hp as [Hp|[Hge Hp]].
    + by apply Hi.
    + apply list_lookup_singleton_Some in Hp as [Hz <-]. simpl. lia.
  - rewrite length_app. simpl. lia.
  - intros j s Hj. destruct (decide (i = j)) as [->|Hne].
    + rewrite list_lookup_insert_eq in Hj by done. by injection Hj as <-.
    + rewrite list_lookup_insert_ne in Hj by done. by apply Hsrc.
  - assert (Hkeep : forall k s, sources_ c !! k = Some s ->
      exists s', <[i := Source.mk (Source.priority_ src)
                          (Source.sourceIndex_ src)
                          (mkRng (draws (Source.rng_ src))
                             (S (drawn (Source.rng_ src))))]>
                   (sources_ c) !! k = Some s'
                 /\ Source.priority_ s' = Source.priority_ s).
    { intros k s Hk. destruct (decide (i = k)) as [->|Hne].
      - rewrite list_lookup_insert_eq by done. eexists. split; [done|].
        simpl. congruence.
      - rewrite list_lookup_insert_ne by done. by exists s. }
    intros p r Hp. apply lookup_app_Some in Hp as [Hp|[Hge Hp]].
    + destruct (Ho _ _ Hp) as (s & Hs & Hpos & Hpr).
      destruct (Hkeep _ _ Hs) as (s' & Hs' & Hpr').
      exists s'. split; [done|]. split; [done|]. congruence.
    + apply list_lookup_singleton_Some in Hp as [Hz <-]. simpl.
      destruct (Hkeep _ _ Hsi) as (s' & Hs' & Hpr').
      rewrite Hidx, Nat2Z.id in *.
      exists s'. split; [done|]. split; [lia|]. exact Hpr'.
Qed.

Lemma scheduleNextRequest_identified i x c :
  wf c -> identified c -> identified (scheduleNextRequest i x c).
Proof.
  intros Hwf Hid. unfold scheduleNextRequest.
  destruct (sources_ c !! i) as [src|] eqn:Hi; [|done].
  destruct (maxRequests_ c <=? generatedRequestsCount_ c); [done|].
  by apply generate_identified.
Qed.

Lemma handleEvent_identified ev q c c' :
  wf c ->
  identified c ->
  pq_pop PQ (events_ c) = Some (ev, q) ->
  handleEvent ev (with_events q c) = Some c' ->
  identified c'.
Proof.
  intros Hwf Hid Hpop Hev.
  destruct (handleEvent_cases ev q c c' Hwf Hpop Hev) as (Hwf1 & Hcases).
  assert (identified (updateLastEventTime (Event.time ev) (with_events q c)))
    as Hid1 by (by apply (identified_same c)).
  destruct Hcases as [(_ & r & added & c2 & c3 & Hr & Hadm & Hwf2 & Hc3 & Hwf3 & Hc')
                     |(_ & i & d & Hd & _ & Hload)].
  - pose proof (admission_identified _ _ _ _ _ Hadm Hr Hid1) as Hid2.
    assert (identified c3) as Hid3.
    { destruct added; [|by subst].
      by apply (loadRequestsToFreeDevices_identified (Event.time ev) c2 c3). }
    destruct Hc' as [->|(i & -> & _)]; [done|].
    by apply scheduleNextRequest_identified.
  - eapply loadRequestsToFreeDevices_identified; [| |exact Hload].
    + exact (freeDevice_wf i d (Event.time ev)
               (updateLastEventTime (Event.time ev) (with_events q c))
               Hwf1 Hd).
    + by apply (identified_same
                  (updateLastEventTime (Event.time ev) (with_events q c))).
Qed.

Lemma makeSources_lookup n pr i0 seed k s :
  makeSources n pr i0 seed !! k = Some s ->
  Source.sourceIndex_ s = i0 + Z.of_nat k /\ Source.priority_ s = pr
  /\ Source.rng_ s = seed (i0 + Z.of_nat k).
Proof.
  revert i0 k. induction n as [|n IH]; intros i0 k H; simpl in H; [done|].
  destruct k as [|k]; simpl in H.
  - injection H as <-. simpl. by rewrite Z.add_0_r.
  - apply IH in H. replace (i0 + Z.of_nat (S k)) with (i0 + 1 + Z.of_nat k)
      by lia. done.
Qed.

Lemma makeSources_length n pr i0 seed : length (makeSources n pr i0 seed) = n.
Proof. revert i0. induction n as [|n IH]; intros i0; simpl; by rewrite ?IH. Qed.

Lemma makeDevices_lookup_new n i0 seed k d :
  makeDevices n i0 seed !! k = Some d ->
  d = Device.new (i0 + Z.of_nat k) (seed (i0 + Z.of_nat k)).
Proof.
  revert i0 k. induction n as [|n IH]; intros i0 k H; simpl in H; [done|].
  destruct k as [|k]; simpl in H.
  - injection H as <-. by rewrite Z.add_0_r.
  - apply IH in H. by replace (i0 + Z.of_nat (S k)) with (i0 + 1 + Z.of_nat k)
      by lia.
Qed.

Lemma newController_sources nC nP nF nD maxR sseed dseed :
  length (sources_ (newController PQ nC nP nF nD maxR sseed dseed))
  = (Z.to_nat nC + Z.to_nat nP + Z.to_nat nF)%nat
  /\ (forall i s,
        sources_ (newController PQ nC nP nF nD maxR sseed dseed) !! i
        = Some s ->
        Source.sourceIndex_ s = Z.of_nat i
        /\ Source.rng_ s = sseed (Z.of_nat i)
        /\ Source.priority_ s
           = if (i <? Z.to_nat nC)%nat then CORPORATE
             else if (i <? Z.to_nat nC + Z.to_nat nP)%nat then PREMIUM
             else FREE).
Proof.
  simpl. split; [rewrite !length_app, !makeSources_length; lia|].
  intros i s Hs. rewrite !makeSources_length in Hs.
  apply lookup_app_Some in Hs as [Hs|[Hge Hs]].
  - pose proof (lookup_lt_Some _ _ _ Hs) as Hlt.
    rewrite makeSources_length in Hlt.
    apply makeSources_lookup in Hs as (-> & -> & ->).
    apply Nat.ltb_lt in Hlt. by rewrite Hlt.
  - rewrite makeSources_length in Hge, Hs.
    apply Nat.ltb_ge in Hge as Hge'. rewrite Hge'.
    apply lookup_app_Some in Hs as [Hs|[Hge2 Hs]].
    + pose proof (lookup_lt_Some _ _ _ Hs) as Hlt.
      rewrite makeSources_length in Hlt.
      apply makeSources_lookup in Hs as (-> & -> & ->).
      assert ((i <? Z.to_nat nC + Z.to_nat nP)%nat = true) as ->
        by (apply Nat.ltb_lt; lia).
      replace (Z.of_nat (Z.to_nat nC) + Z.of_nat (i - Z.to_nat nC))
        with (Z.of_nat i) by lia. done.
    + rewrite makeSources_length in Hge2, Hs.
      apply makeSources_lookup in Hs as (-> & -> & ->).
      assert ((i <? Z.to_nat nC + Z.to_nat nP)%nat = false) as ->
        by (apply Nat.ltb_ge; lia).
      replace (Z.of_nat (Z.to_nat nC + Z.to_nat nP)
               + Z.of_nat (i - Z.to_nat nC - Z.to_nat nP))
        with (Z.of_nat i) by lia. done.
Qed.

(** X6: [Controller::Controller] lays the sources out by class, numbers them
    from 0 and the devices from 1, and starts with empty queue and buffer,
    idle devices and counters at zero; a count that is not positive gives no
    source, or no device. *)
Theorem newController_layout nC nP nF nD maxR sseed dseed :
  let c := newController PQ nC nP nF nD maxR sseed dseed in
  length (sources_ c) = (Z.to_nat nC + Z.to_nat nP + Z.to_nat nF)%nat
  /\ (forall i s, sources_ c !! i = Some s ->
        Source.sourceIndex_ s = Z.of_nat i
        /\ Source.rng_ s = sseed (Z.of_nat i)
        /\ Source.priority_ s
           = if (i <? Z.to_nat nC)%nat then CORPORATE
             else if (i <? Z.to_nat nC + Z.to_nat nP)%nat then PREMIUM
             else FREE)
  /\ length (devices_ c) = Z.to_nat nD
  /\ (forall i d, devices_ c !! i = Some d ->
        d = Device.new (Z.of_nat i + 1) (dseed (Z.of_nat i + 1)))
  /\ pq_items PQ (events_ c) = [] /\ buffer_ c = [] /\ mem c = []
  /\ generatedRequestsCount_ c = 0 /\ servedRequestsCount_ c = 0
  /\ rejectedRequests_ c = 0
  /\ (forall pr, getRejectedByPriority pr c = 0).
Proof.
  destruct (newController_sources nC nP nF nD maxR sseed dseed)
    as [Hlen Hsrc].
  simpl. split; [exact Hlen|]. split; [exact Hsrc|].
  split; [by rewrite makeDevices_length|].
  split.
  { intros i d H. apply makeDevices_lookup_new in H.
    by replace (Z.of_nat i + 1) with (1 + Z.of_nat i) by lia. }
  rewrite pq_items_new. repeat split; try done.
  intros []; by vm_compute.
Qed.

Lemma newController_identified nC nP nF nD maxR sseed dseed :
  identified (newController PQ nC nP nF nD maxR sseed dseed).
Proof.
  destruct (newController_sources nC nP nF nD maxR sseed dseed)
    as (_ & Hsrc).
  constructor; try done. intros i s Hs. by apply Hsrc in Hs as (? & _).
Qed.

Lemma initRequests_from_identified todo : forall i c,
  wf c -> identified c -> identified (initRequests_from todo i c).
Proof.
  induction todo as [|todo IH]; intros i c Hwf Hid; simpl; [done|].
  destruct (sources_ c !! i) as [src|] eqn:Hi; [|done].
  destruct (maxRequests_ c <=? generatedRequestsCount_ c) eqn:Hmax; [done|].
  apply Z.leb_gt in Hmax. apply IH.
  - by apply generate_wf.
  - by apply generate_identified.
Qed.

Lemma reachable_identified nC nP nF nD maxR sseed dseed c :
  reachable (start PQ nC nP nF nD maxR sseed dseed) c -> identified c.
Proof.
  destruct (start_wf nC nP nF nD maxR sseed dseed) as (Hwf0 & _).
  induction 1 as [|c ev q c' Hreach IH _ Hpop Hev].
  - apply initRequests_from_identified.
    + apply newController_wf.
    + apply newController_identified.
  - destruct (reachable_wf _ _ Hwf0 Hreach) as (Hwf & _).
    by eapply handleEvent_identified.
Qed.

(** X8: The requests of a run are numbered 1, 2, ... in the order of their
    creation: the generated counter is the number of requests created, and no
    two requests have the same id. *)
Theorem request_ids_unique nC nP nF nD maxR sseed dseed c :
  reachable (start PQ nC nP nF nD maxR sseed dseed) c ->
  Z.of_nat (length (mem c)) = generatedRequestsCount_ c
  /\ (forall p r, mem c !! p = Some r ->
        Request.id_ r = Z.of_nat p + 1
        /\ 1 <= Request.id_ r <= generatedRequestsCount_ c)
  /\ (forall p p' r r', mem c !! p = Some r -> mem c !! p' = Some r' ->
        Request.id_ r = Request.id_ r' -> p = p').
Proof.
  intros Hreach. apply reachable_identified in Hreach as [Hi Hc _ _].
  split; [done|]. split.
  - intros p r Hp. split; [by apply Hi|].
    rewrite (Hi _ _ Hp). apply lookup_lt_Some in Hp. lia.
  - intros p p' r r' Hp Hp' Heq.
    rewrite (Hi _ _ Hp), (Hi _ _ Hp') in Heq. lia.
Qed.

(** X9: Every request carries the index and the priority of one of the
    sources, so the guard of [handleRequestGenerated] on the source index
    always holds and the source of an arrival is always asked for its next
    request. *)
Theorem request_origin nC nP nF nD maxR sseed dseed c p r :
  reachable (start PQ nC nP nF nD maxR sseed dseed) c ->
  mem c !! p = Some r ->
  0 <= Request.sourceIndex_ r < Z.of_nat (length (sources_ c))
  /\ exists s,
       sources_ c !! Z.to_nat (Request.sourceIndex_ r) = Some s
       /\ Source.sourceIndex_ s = Request.sourceIndex_ r
       /\ Source.priority_ s = Request.priority_ r.
Proof.
  intros Hreach Hp. apply reachable_identified in Hreach as [_ _ Hsrc Ho].
  destruct (Ho _ _ Hp) as (s & Hs & Hpos & Hpr).
  pose proof (lookup_lt_Some _ _ _ Hs) as Hlt.
  split; [lia|]. exists s. split; [done|]. split; [|done].
  rewrite (Hsrc _ _ Hs). lia.
Qed.

(** *** No request waits while a device is idle *)

Lemma dispatch_explicit i d p x c r c2 :
  mem c !! p = Some r ->
  dispatch i d p x c = Some c2 ->
  devices_ c2 = <[i := loaded p x d]> (devices_ c)
  /\ pq_items PQ (events_ c2)
     ≡ₚ Event.mk REQUEST_SERVED (Device.finishTime_ (loaded p x d)) p
          (Device.id_ d) :: pq_items PQ (events_ c)
  /\ buffer_ c2 = buffer_ c
  /\ lastEventTime_ c2 = lastEventTime_ c
  /\ totalWaitTime_ c2
     = (totalWaitTime_ c + (x - Request.bufferEnterTime_ r))%Q.
Proof.
  intros Hr. unfold dispatch, Device.loadRequest. simpl.
  rewrite (store_update_Some _ _ _ _ Hr).
  rewrite list_lookup_insert_eq by (by eapply lookup_lt_Some).
  intros H. injection H as <-. simpl.
  repeat split; try reflexivity. apply pq_items_push.
Qed.

Lemma loadRequests_from_conserving x todo : forall i c c',
  wf c ->
  (i + todo = length (devices_ c))%nat ->
  Forall (fun d => Device.busy_ d = true) (take i (devices_ c)) ->
  loadRequests_from todo i x c = Some c' ->
  conserving c'.
Proof.
  induction todo as [|todo IH]; intros i c c' Hwf Hlen Hbusy H; simpl in H.
  { injection H as <-. right. by rewrite take_ge in Hbusy by lia. }
  destruct (lookup_lt_is_Some_2 (devices_ c) i) as [d Hd]; [lia|].
  rewrite Hd in H.
  destruct (Device.busy_ d) eqn:Hb.
  { apply (IH (S i) c c'); [done|lia| |done].
    rewrite (take_S_r _ _ _ Hd). apply Forall_app. split; [done|].
    by constructor. }
  unfold popRequest in H. destruct (buffer_ c) as [|p rest] eqn:Hbuf.
  { injection H as <-. by left. }
  destruct (dispatch i d p x (with_buffer rest c)) as [c2|] eqn:Hc2; [|done].
  pose proof (popRequest_wf c Hwf) as Hwf1.
  unfold popRequest in Hwf1. rewrite Hbuf in Hwf1. simpl in Hwf1.
  assert (p < length (mem c))%nat as Hp.
  { pose proof (wf_buffer _ Hwf) as Hlive. unfold live in Hlive.
    rewrite Hbuf in Hlive. by inversion Hlive. }
  destruct (lookup_lt_is_Some_2 _ _ Hp) as [r Hr].
  destruct (dispatch_wf i d p x (with_buffer rest c) Hwf1 Hd Hp)
    as (c2' & Heq & Hwf2 & _).
  rewrite Hc2 in Heq. injection Heq as <-.
  destruct (dispatch_explicit i d p x (with_buffer rest c) r c2 Hr Hc2)
    as (Hdev & _).
  simpl in Hdev.
  assert (devices_ c2 !! i = Some (loaded p x d)) as Hd2.
  { rewrite Hdev. apply list_lookup_insert_eq. by eapply lookup_lt_Some. }
  apply (IH (S i) c2 c'); [done| | |done].
  - rewrite Hdev, length_insert. lia.
  - rewrite (take_S_r _ _ _ Hd2). apply Forall_app. split.
    + rewrite Hdev, take_insert_ge by lia. done.
    + by constructor.
Qed.

Lemma handleEvent_conserving ev q c c' :
  wf c ->
  conserving c ->
  pq_pop PQ (events_ c) = Some (ev, q) ->
  handleEvent ev (with_events q c) = Some c' ->
  conserving c'.
Proof.
  intros Hwf Hcons Hpop Hev.
  destruct (handleEvent_cases ev q c c' Hwf Hpop Hev) as (Hwf1 & Hcases).
  destruct Hcases as [(_ & r & added & c2 & c3 & Hr & Hadm & Hwf2 & Hc3 & Hwf3 & Hc')
                     |(_ & i & d & Hd & _ & Hload)].
  - assert (conserving c3) as Hcons3.
    { destruct added.
      - apply (loadRequests_from_conserving (Event.time ev)
                 (length (devices_ c2)) 0%nat c2 c3); done.
      - subst c3. inversion Hadm; subst. exact Hcons. }
    destruct Hc' as [->|(i & -> & _)]; [done|].
    destruct (scheduleNextRequest_wf i (Event.time ev) c3 Hwf3)
      as (_ & _ & _ & _ & _ & Hdev & Hbuf & _).
    unfold conserving. by rewrite Hdev, Hbuf.
  - unfold loadRequestsToFreeDevices in Hload.
    eapply loadRequests_from_conserving; [| | |exact Hload].
    + exact (freeDevice_wf i d (Event.time ev)
               (updateLastEventTime (Event.time ev) (with_events q c))
               Hwf1 Hd).
    + done.
    + rewrite take_0. constructor.
Qed.

Lemma reachable_conserving nC nP nF nD maxR sseed dseed c :
  reachable (start PQ nC nP nF nD maxR sseed dseed) c -> conserving c.
Proof.
  destruct (start_wf nC nP nF nD maxR sseed dseed)
    as (Hwf0 & _ & _ & _ & _ & Hbuf0).
  induction 1 as [|c ev q c' Hreach IH _ Hpop Hev]; [by left|].
  destruct (reachable_wf _ _ Hwf0 Hreach) as (Hwf & _).
  by eapply handleEvent_conserving.
Qed.

(** X10: At the head of every iteration of the loop of [work], the buffer is
    empty or every device is busy: a request never waits while a device is
    idle. *)
Theorem no_wait_while_idle nC nP nF nD maxR sseed dseed c d :
  reachable (start PQ nC nP nF nD maxR sseed dseed) c ->
  d ∈ devices_ c ->
  Device.busy_ d = false ->
  buffer_ c = [].
Proof.
  intros Hreach Hin Hidle.
  destruct (reachable_conserving _ _ _ _ _ _ _ _ Hreach) as [?|Hbusy];
    [done|].
  rewrite Forall_forall in Hbusy. specialize (Hbusy d Hin). congruence.
Qed.

(** *** Devices and their completions *)

Lemma completions_of_cons_other id e l :
  ~ (Event.type e = REQUEST_SERVED /\ Event.deviceId e = id) ->
  completions_of id (e :: l) = completions_of id l.
Proof. intros H. unfold completions_of. by rewrite filter_cons_False. Qed.

Lemma completions_of_cons_same id e l :
  Event.type e = REQUEST_SERVED -> Event.deviceId e = id ->
  completions_of id (e :: l) = e :: completions_of id l.
Proof. intros H1 H2. unfold completions_of. by rewrite filter_cons_True. Qed.

Lemma completions_of_perm id l k :
  l ≡ₚ k -> completions_of id l ≡ₚ completions_of id k.
Proof. intros H. unfold completions_of. by rewrite H. Qed.

Lemma paired_perm l k d : l ≡ₚ k -> paired l d -> paired k d.
Proof.
  intros H (Hlen & Hall & Hidle).
  pose proof (completions_of_perm (Device.id_ d) l k H) as Hp.
  split; [|split; [|done]].
  - by rewrite <- Hp.
  - by rewrite <- Hp.
Qed.

Lemma paired_cons_other e l d :
  ~ (Event.type e = REQUEST_SERVED /\ Event.deviceId e = Device.id_ d) ->
  paired (e :: l) d <-> paired l d.
Proof.
  intros H. unfold paired. by rewrite (completions_of_cons_other _ _ _ H).
Qed.

Lemma timed_mono x y d : (x <= y)%Q -> timed x d -> timed y d.
Proof.
  intros Hxy [H0 H]. split; [done|]. destruct (Device.busy_ d).
  - destruct H as (H1 & H2 & H3). repeat split; try done.
    eapply Qle_trans; [exact H3|exact Hxy].
  - eapply Qle_trans; [exact H|exact Hxy].
Qed.

(** A step that keeps the devices and adds or removes arrivals only. *)
Lemma clocked_frame c c' :
  devices_ c' = devices_ c ->
  (exists l, pq_items PQ (events_ c') ≡ₚ l ++ pq_items PQ (events_ c)
             /\ Forall (fun e => Event.type e = REQUEST_GENERATED) l) ->
  (lastEventTime_ c <= lastEventTime_ c')%Q ->
  totalWaitTime_ c' = totalWaitTime_ c ->
  clocked c -> clocked c'.
Proof.
  intros Hdev (l & Hperm & Hgen) Hlast Hwait [Hp Ht Hw].
  constructor.
  - rewrite Hdev. eapply Forall_impl; [exact Hp|]. intros d Hd.
    apply (paired_perm (l ++ pq_items PQ (events_ c))); [done|].
    clear Hperm. induction l as [|e l IH]; [done|].
    apply Forall_cons in Hgen as [He Hgen]. simpl.
    apply paired_cons_other; [|by apply IH].
    intros [Hty _]. congruence.
  - rewrite Hdev. eapply Forall_impl; [exact Ht|]. intros d Hd.
    by eapply timed_mono.
  - by rewrite Hwait.
Qed.

Lemma pop_arrival_clocked c ev q :
  timely c ->
  clocked c ->
  pq_pop PQ (events_ c) = Some (ev, q) ->
  Event.type ev = REQUEST_GENERATED ->
  clocked (updateLastEventTime (Event.time ev) (with_events q c)).
Proof.
  intros Ht [Hp Hti Hw] Hpop Hty.
  pose proof (pop_items _ _ _ Hpop) as Hperm.
  pose proof (timely_events _ Ht) as Te. rewrite Hperm in Te.
  apply Forall_cons in Te as [Te1 _].
  destruct (updateLastEventTime_last (Event.time ev) (with_events q c) Te1)
    as (_ & _ & Hmono).
  constructor.
  - change (Forall (paired (pq_items PQ q)) (devices_ c)).
    eapply Forall_impl; [exact Hp|]. intros d Hd.
    apply (paired_perm _ _ _ Hperm) in Hd.
    apply paired_cons_other in Hd; [done|]. intros [Hs _]. congruence.
  - change (Forall (timed (lastEventTime_
              (updateLastEventTime (Event.time ev) (with_events q c))))
              (devices_ c)).
    eapply Forall_impl; [exact Hti|]. intros d Hd.
    eapply timed_mono; [exact Hmono|exact Hd].
  - exact Hw.
Qed.

Lemma distinct_ids c i j d e :
  wf c ->
  devices_ c !! i = Some d ->
  devices_ c !! j = Some e ->
  i <> j ->
  Device.id_ e <> Device.id_ d.
Proof.
  intros Hwf Hi Hj Hne.
  rewrite (wf_devices _ Hwf _ _ Hi), (wf_devices _ Hwf _ _ Hj). lia.
Qed.

(** The completion that is popped belongs to a busy device, and is due at
    the finish time of that device. *)
Lemma pop_completion_busy c ev q i d :
  clocked c ->
  pq_pop PQ (events_ c) = Some (ev, q) ->
  Event.type ev = REQUEST_SERVED ->
  devices_ c !! i = Some d ->
  Device.id_ d = Event.deviceId ev ->
  Device.busy_ d = true
  /\ Event.time ev = Device.finishTime_ d
  /\ Device.currentRequest_ d = Some (Event.request ev)
  /\ completions_of (Device.id_ d) (pq_items PQ q) = [].
Proof.
  intros [Hp _ _] Hpop Hty Hd Hid.
  pose proof (pop_items _ _ _ Hpop) as Hperm.
  rewrite Forall_lookup in Hp. specialize (Hp i d Hd).
  apply (paired_perm _ _ _ Hperm) in Hp.
  destruct Hp as (Hlen & Hall & _).
  rewrite (completions_of_cons_same _ _ _ Hty (eq_sym Hid)) in Hlen, Hall.
  apply Forall_cons in Hall as [[Htime Hreq] _].
  destruct (Device.busy_ d); simpl in Hlen; [|lia].
  do 3 (split; [done|]).
  apply nil_length_inv. lia.
Qed.

Lemma pop_completion_clocked c ev q i d :
  wf c ->
  timely c ->
  clocked c ->
  pq_pop PQ (events_ c) = Some (ev, q) ->
  Event.type ev = REQUEST_SERVED ->
  devices_ c !! i = Some d ->
  Device.id_ d = Event.deviceId ev ->
  clocked (with_devices (<[i := Device.freeDevice (Event.time ev) d]>
                           (devices_ c))
             (updateLastEventTime (Event.time ev) (with_events q c))).
Proof.
  intros Hwf Ht Hcl Hpop Hty Hd Hid.
  destruct (pop_completion_busy c ev q i d Hcl Hpop Hty Hd Hid)
    as (Hbusy & Htime & _ & Hnone).
  destruct Hcl as [Hp Hti Hw].
  pose proof (pop_items _ _ _ Hpop) as Hperm.
  pose proof (timely_events _ Ht) as Te. rewrite Hperm in Te.
  apply Forall_cons in Te as [Te1 _].
  destruct (updateLastEventTime_last (Event.time ev) (with_events q c) Te1)
    as (_ & Hge & Hmono).
  set (c1 := updateLastEventTime (Event.time ev) (with_events q c)) in *.
  rewrite Forall_lookup in Hp. rewrite Forall_lookup in Hti.
  constructor.
  - change (Forall (paired (pq_items PQ q))
              (<[i := Device.freeDevice (Event.time ev) d]> (devices_ c))).
    apply Forall_lookup. intros j e Hj.
    destruct (decide (i = j)) as [<-|Hne].
    + rewrite list_lookup_insert_eq in Hj by (by eapply lookup_lt_Some).
      injection Hj as <-. unfold paired. simpl. rewrite Hnone.
      by repeat split.
    + rewrite list_lookup_insert_ne in Hj by done.
      specialize (Hp j e Hj). apply (paired_perm _ _ _ Hperm) in Hp.
      apply paired_cons_other in Hp; [done|]. intros [_ Hsame].
      apply (distinct_ids c i j d e Hwf Hd Hj Hne). congruence.
  - change (Forall (timed (lastEventTime_ c1))
              (<[i := Device.freeDevice (Event.time ev) d]> (devices_ c))).
    revert Hge Hmono. generalize (lastEventTime_ c1). intros now Hge Hmono.
    apply Forall_lookup. intros j e Hj.
    destruct (decide (i = j)) as [<-|Hne].
    + rewrite list_lookup_insert_eq in Hj by (by eapply lookup_lt_Some).
      injection Hj as <-.
      destruct (Hti i d Hd) as [H0 Hb]. rewrite Hbusy in Hb.
      destruct Hb as (H1 & H2 & H3). rewrite <- Htime in H2.
      unfold timed. simpl. split; lra.
    + rewrite list_lookup_insert_ne in Hj by done.
      eapply timed_mono; [exact Hmono|]. by eapply Hti.
  - exact Hw.
Qed.

Lemma dispatch_clocked i d p x c c2 :
  wf c ->
  timely c ->
  clocked c ->
  devices_ c !! i = Some d ->
  Device.busy_ d = false ->
  (p < length (mem c))%nat ->
  (arrival (mem c) p <= x)%Q ->
  (lastEventTime_ c <= x)%Q ->
  (x <= lastEventTime_ c)%Q ->
  dispatch i d p x c = Some c2 ->
  clocked c2.
Proof.
  intros Hwf Ht [Hp Hti Hw] Hd Hidle Hlt Harr Hle Hge Hc2.
  destruct (lookup_lt_is_Some_2 _ _ Hlt) as [r Hr].
  destruct (dispatch_explicit i d p x c r c2 Hr Hc2)
    as (Hdev & Hperm & _ & Hlast & Hwait).
  pose proof (timely_devices _ Ht) as Tv.
  rewrite Forall_lookup in Tv. specialize (Tv i d Hd).
  rewrite Forall_lookup in Hp. rewrite Forall_lookup in Hti.
  constructor.
  - rewrite Hdev. apply Forall_lookup. intros j e Hj.
    apply (paired_perm _ _ _ (symmetry Hperm)).
    destruct (decide (i = j)) as [<-|Hne].
    + rewrite list_lookup_insert_eq in Hj by (by eapply lookup_lt_Some).
      injection Hj as <-.
      destruct (Hp i d Hd) as (Hlen & _ & _). rewrite Hidle in Hlen.
      apply nil_length_inv in Hlen.
      unfold paired.
      change (Device.id_ (loaded p x d)) with (Device.id_ d).
      rewrite completions_of_cons_same by done. rewrite Hlen. simpl.
      split; [done|]. split; [|done].
      constructor; [|constructor]. by split.
    + rewrite list_lookup_insert_ne in Hj by done.
      apply paired_cons_other; [|by eapply Hp].
      simpl. intros [_ Hsame].
      by apply (distinct_ids c i j d e Hwf Hd Hj Hne).
  - rewrite Hdev, Hlast. apply Forall_lookup. intros j e Hj.
    destruct (decide (i = j)) as [<-|Hne].
    + rewrite list_lookup_insert_eq in Hj by (by eapply lookup_lt_Some).
      injection Hj as <-.
      destruct (Hti i d Hd) as [H0 Hb]. rewrite Hidle in Hb.
      specialize (Tv (drawn (Device.rng_ d))).
      unfold timed. simpl. repeat split; lra.
    + rewrite list_lookup_insert_ne in Hj by done. by eapply Hti.
  - rewrite Hwait.
    pose proof (wf_store _ Hwf) as Hst. unfold store_ok in Hst.
    rewrite Forall_lookup in Hst. rewrite (Hst p r Hr).
    unfold arrival in Harr. rewrite Hr in Harr. lra.
Qed.

Lemma loadRequestsToFreeDevices_clocked x c c' :
  wf c ->
  timely c ->
  clocked c ->
  (lastEventTime_ c <= x)%Q ->
  (x <= lastEventTime_ c)%Q ->
  loadRequestsToFreeDevices x c = Some c' ->
  clocked c'.
Proof.
  intros Hwf Ht Hcl Hle Hge H.
  apply (loadRequests_from_idle_rule
           (fun c => timely c /\ clocked c
                     /\ (lastEventTime_ c <= x)%Q
                     /\ (x <= lastEventTime_ c)%Q) x)
    in H; [by destruct H as (_ & ? & _)|clear c c' Hwf Ht Hcl Hle Hge H
          |done|done].
  intros c i d p rest c2 Hwf (Ht & Hcl & Hle & Hge) Hd Hidle Hbuf Hc2.
  pose proof (popRequest_wf c Hwf) as Hwf1.
  unfold popRequest in Hwf1. rewrite Hbuf in Hwf1. simpl in Hwf1.
  pose proof (wf_buffer _ Hwf) as Hlive. unfold live in Hlive.
  pose proof (timely_buffer _ Ht) as Tb.
  rewrite Hbuf in Hlive, Tb.
  apply Forall_cons in Hlive as [Hp _], Tb as [Harr Tb].
  assert (timely (with_buffer rest c)) as Ht1.
  { destruct Ht as [Te _ Ta Td Ts Tv]. by constructor. }
  assert (clocked (with_buffer rest c)) as Hcl1.
  { destruct Hcl as [Hp1 Hp2 Hp3]. by constructor. }
  assert (arrival (mem c) p <= x)%Q as Harrx.
  { eapply Qle_trans; [exact Harr|exact Hle]. }
  destruct (lookup_lt_is_Some_2 _ _ Hp) as [r Hr].
  destruct (dispatch_explicit i d p x (with_buffer rest c) r c2 Hr Hc2)
    as (_ & _ & _ & Hlast & _).
  split; [|split; [|by rewrite Hlast]].
  - by eapply (dispatch_timely i d p x (with_buffer rest c)).
  - by eapply (dispatch_clocked i d p x (with_buffer rest c)).
Qed.

Lemma generate_clocked i src x c : clocked c -> clocked (generate i src x c).
Proof.
  apply clocked_frame; try done.
  - exists [Event.mk REQUEST_GENERATED
              (x + fst (Source.generateInterArrivalTime x src))
              (length (mem c)) (-1)].
    split; [|by repeat constructor].
    unfold generate. simpl. apply pq_items_push.
  - apply Qle_refl.
Qed.

Lemma scheduleNextRequest_clocked i x c :
  clocked c -> clocked (scheduleNextRequest i x c).
Proof.
  intros H. unfold scheduleNextRequest.
  destruct (sources_ c !! i) as [src|]; [|done].
  destruct (maxRequests_ c <=? generatedRequestsCount_ c); [done|].
  by apply generate_clocked.
Qed.

Lemma initRequests_from_clocked todo : forall i c,
  clocked c -> clocked (initRequests_from todo i c).
Proof.
  induction todo as [|todo IH]; intros i c H; simpl; [done|].
  destruct (sources_ c !! i) as [src|]; [|done].
  destruct (maxRequests_ c <=? generatedRequestsCount_ c); [done|].
  by apply IH, generate_clocked.
Qed.

Lemma makeDevices_new n : forall i seed d,
  d ∈ makeDevices n i seed -> exists k, d = Device.new k (seed k).
Proof.
  induction n as [|n IH]; intros i seed d Hd; simpl in Hd.
  - by apply elem_of_nil in Hd.
  - apply elem_of_cons in Hd as [->|Hd]; [by exists i|by eapply IH].
Qed.

Lemma newController_clocked nC nP nF nD maxR sseed dseed :
  clocked (newController PQ nC nP nF nD maxR sseed dseed).
Proof.
  constructor; simpl.
  - rewrite pq_items_new. apply Forall_forall. intros d Hd.
    apply makeDevices_new in Hd as [k ->]. by repeat split.
  - apply Forall_forall. intros d Hd.
    apply makeDevices_new in Hd as [k ->]. by repeat split.
  - done.
Qed.

Lemma start_clocked nC nP nF nD maxR sseed dseed :
  clocked (start PQ nC nP nF nD maxR sseed dseed).
Proof. apply initRequests_from_clocked, newController_clocked. Qed.

Lemma admission_clocked req r c added c' :
  admission req r c added c' -> clocked c -> clocked c'.
Proof.
  intros Hadm.
  destruct (admission_frame _ _ _ _ _ Hadm)
    as (He & _ & Hd & _ & _ & _ & Hl & Hw).
  apply clocked_frame; try done.
  - exists []. by rewrite He.
  - rewrite Hl. apply Qle_refl.
Qed.

Lemma handleEvent_clocked ev q c c' :
  wf c ->
  timely c ->
  clocked c ->
  pq_pop PQ (events_ c) = Some (ev, q) ->
  handleEvent ev (with_events q c) = Some c' ->
  clocked c'.
Proof.
  intros Hwf Ht Hcl Hpop Hev.
  destruct (handleEvent_cases ev q c c' Hwf Hpop Hev) as (Hwf1 & Hcases).
  destruct (pop_timely c ev q Ht Hpop) as (Ht1 & Hle & Harr).
  pose proof (pop_items _ _ _ Hpop) as Hperm.
  pose proof (timely_events _ Ht) as Te. rewrite Hperm in Te.
  apply Forall_cons in Te as [Te1 _].
  destruct (updateLastEventTime_last (Event.time ev) (with_events q c) Te1)
    as (_ & Hge & _).
  set (x := Event.time ev) in *.
  set (c1 := updateLastEventTime x (with_events q c)) in *.
  destruct Hcases as [(Hty & r & added & c2 & c3 & Hr & Hadm & Hwf2 & Hc3 & Hwf3 & Hc')
                     |(Hty & i & d & Hd & Hid & Hload)].
  - pose proof (pop_arrival_clocked c ev q Ht Hcl Hpop Hty) as Hcl1.
    fold x c1 in Hcl1.
    pose proof (admission_clocked _ _ _ _ _ Hadm Hcl1) as Hcl2.
    assert (timely c2) as Ht2.
    { apply (admission_timely _ _ _ _ _ Hadm); [done| |done].
      eapply Qle_trans; [exact (Harr Hty)|exact Hge]. }
    destruct (admission_frame _ _ _ _ _ Hadm)
      as (_ & _ & _ & _ & _ & _ & Hl & _).
    assert (clocked c3) as Hcl3.
    { destruct added; [|by subst c3].
      apply (loadRequestsToFreeDevices_clocked x c2 c3); try done;
        by rewrite Hl. }
    destruct Hc' as [->|(i & -> & _)]; [done|].
    by apply scheduleNextRequest_clocked.
  - pose proof (pop_completion_clocked c ev q i d Hwf Ht Hcl Hpop Hty Hd Hid)
      as Hcl1.
    fold x c1 in Hcl1.
    apply (loadRequestsToFreeDevices_clocked x _ c' ) in Hload; try done.
    + exact (freeDevice_wf i d x c1 Hwf1 Hd).
    + exact (freeDevice_timely i d x c1 Ht1 Hd).
Qed.

Lemma reachable_clocked nC nP nF nD maxR sseed dseed c :
  durations sseed -> durations dseed ->
  reachable (start PQ nC nP nF nD maxR sseed dseed) c ->
  clocked c.
Proof.
  intros Hs Hd.
  destruct (start_wf nC nP nF nD maxR sseed dseed) as (Hwf0 & _).
  pose proof (start_timely nC nP nF nD maxR sseed dseed Hs Hd) as Ht0.
  induction 1 as [|c ev q c' Hreach IH _ Hpop Hev]; [apply start_clocked|].
  destruct (reachable_wf _ _ Hwf0 Hreach) as (Hwf & _).
  pose proof (reachable_timely _ _ Hwf0 Ht0 Hreach) as Ht.
  by eapply handleEvent_clocked.
Qed.

(** X11: At the head of every iteration of the loop of [work], a busy device
    has exactly one pending completion event: the event is due at the
    [finishTime_] of the device and carries its [currentRequest_]. An idle
    device has no pending completion and holds no request. *)
Theorem busy_device_has_one_completion nC nP nF nD maxR sseed dseed c d :
  durations sseed -> durations dseed ->
  reachable (start PQ nC nP nF nD maxR sseed dseed) c ->
  d ∈ devices_ c ->
  if Device.busy_ d
  then exists e,
         completions_of (Device.id_ d) (pq_items PQ (events_ c)) = [e]
         /\ Event.time e = Device.finishTime_ d
         /\ Device.currentRequest_ d = Some (Event.request e)
  else completions_of (Device.id_ d) (pq_items PQ (events_ c)) = []
       /\ Device.currentRequest_ d = None.
Proof.
  intros Hs Hd Hreach Hin.
  pose proof (reachable_clocked _ _ _ _ _ _ _ _ Hs Hd Hreach) as [Hp _ _].
  rewrite Forall_forall in Hp. destruct (Hp d Hin) as (Hlen & Hall & Hidle).
  destruct (Device.busy_ d).
  - destruct (completions_of (Device.id_ d) (pq_items PQ (events_ c)))
      as [|e [|e' l]]; simpl in Hlen; try lia.
    exists e. split; [done|]. by apply Forall_cons in Hall as [[? ?] _].
  - split; [by apply nil_length_inv|by apply Hidle].
Qed.

(** X12: The completion that [work] pops names a busy device, is due exactly
    at its [finishTime_], and is for its [currentRequest_]. *)
Theorem completion_frees_a_busy_device nC nP nF nD maxR sseed dseed c ev q :
  durations sseed -> durations dseed ->
  reachable (start PQ nC nP nF nD maxR sseed dseed) c ->
  pq_pop PQ (events_ c) = Some (ev, q) ->
  Event.type ev = REQUEST_SERVED ->
  exists d,
    devices_ c !! Z.to_nat (Event.deviceId ev - 1) = Some d
    /\ Device.id_ d = Event.deviceId ev
    /\ Device.busy_ d = true
    /\ Device.finishTime_ d = Event.time ev
    /\ Device.currentRequest_ d = Some (Event.request ev).
Proof.
  intros Hs Hd Hreach Hpop Hty.
  destruct (start_wf nC nP nF nD maxR sseed dseed) as (Hwf0 & _).
  destruct (reachable_wf _ _ Hwf0 Hreach) as (Hwf & _).
  pose proof (reachable_clocked _ _ _ _ _ _ _ _ Hs Hd Hreach) as Hcl.
  destruct (pop_wf _ _ _ Hwf Hpop) as (_ & _ & Hrange).
  specialize (Hrange Hty).
  destruct (lookup_lt_is_Some_2 (devices_ c)
              (Z.to_nat (Event.deviceId ev - 1))) as [d Hdev]; [lia|].
  assert (Device.id_ d = Event.deviceId ev) as Hid.
  { rewrite (wf_devices _ Hwf _ _ Hdev). lia. }
  destruct (pop_completion_busy c ev q _ d Hcl Hpop Hty Hdev Hid)
    as (Hbusy & Htime & Hreq & _).
  exists d. by repeat split.
Qed.

(** X13: The busy time that a device has accumulated is never negative and
    never more than the time of the last event processed, and the total
    waiting time is never negative. *)
Theorem busy_time_within_elapsed nC nP nF nD maxR sseed dseed c :
  durations sseed -> durations dseed ->
  reachable (start PQ nC nP nF nD maxR sseed dseed) c ->
  (0 <= totalWaitTime_ c)%Q
  /\ forall d, d ∈ devices_ c ->
       (0 <= Device.busyTotalTime_ d)%Q
       /\ (Device.busyTotalTime_ d <= lastEventTime_ c)%Q.
Proof.
  intros Hs Hd Hreach.
  pose proof (reachable_clocked _ _ _ _ _ _ _ _ Hs Hd Hreach) as [_ Ht Hw].
  split; [done|]. intros d Hin.
  rewrite Forall_forall in Ht. destruct (Ht d Hin) as [H0 Hb].
  split; [done|]. destruct (Device.busy_ d); [|done].
  destruct Hb as (H1 & _ & H3). eapply Qle_trans; [exact H1|exact H3].
Qed.

(** *** The clock, the counters and the statistics *)

(** X14: One iteration of the loop of [work] sets the clock to the time of the
    event it pops, which is never before the clock: [lastEventTime_] never
    goes back. *)
Theorem clock_follows_events nC nP nF nD maxR sseed dseed c ev q c' :
  durations sseed -> durations dseed ->
  reachable (start PQ nC nP nF nD maxR sseed dseed) c ->
  pq_pop PQ (events_ c) = Some (ev, q) ->
  handleEvent ev (with_events q c) = Some c' ->
  (lastEventTime_ c <= Event.time ev)%Q
  /\ (lastEventTime_ c' == Event.time ev)%Q.
Proof.
  intros Hs Hd Hreach Hpop Hev.
  destruct (start_wf nC nP nF nD maxR sseed dseed) as (Hwf0 & _).
  pose proof (start_timely nC nP nF nD maxR sseed dseed Hs Hd) as Ht0.
  destruct (reachable_wf _ _ Hwf0 Hreach) as (Hwf & _).
  pose proof (reachable_timely _ _ Hwf0 Ht0 Hreach) as Ht.
  pose proof (pop_items _ _ _ Hpop) as Hperm.
  pose proof (timely_events _ Ht) as Te. rewrite Hperm in Te.
  apply Forall_cons in Te as [Te1 _].
  split; [done|].
  destruct (updateLastEventTime_last (Event.time ev) (with_events q c) Te1)
    as (Hle & Hge & _).
  destruct (handleEvent_cases ev q c c' Hwf Hpop Hev) as (Hwf1 & Hcases).
  set (x := Event.time ev) in *.
  set (c1 := updateLastEventTime x (with_events q c)) in *.
  assert (lastEventTime_ c' = lastEventTime_ c1) as ->;
    [|by apply Qle_antisym].
  assert (Hsweep : forall a b : Controller PQ,
            wf a -> loadRequestsToFreeDevices x a = Some b ->
            lastEventTime_ b = lastEventTime_ a).
  { intros a b Hwfa Hab.
    destruct (loadRequestsToFreeDevices_wf x a Hwfa)
      as (b' & Heq & _ & Hsame & _).
    rewrite Hab in Heq. injection Heq as <-.
    by destruct Hsame as (_ & _ & _ & _ & _ & ? & _). }
  destruct Hcases as [(_ & r & added & c2 & c3 & _ & Hadm & Hwf2 & Hc3 & _ & Hc')
                     |(_ & i & d & Hdev & _ & Hload)].
  - destruct (admission_frame _ _ _ _ _ Hadm)
      as (_ & _ & _ & _ & _ & _ & Hl & _).
    assert (lastEventTime_ c3 = lastEventTime_ c2) as Hl3.
    { destruct added; [by apply Hsweep|by subst c3]. }
    destruct Hc' as [->|(i & -> & _)].
    + by rewrite Hl3.
    + by rewrite scheduleNextRequest_last, Hl3.
  - apply Hsweep in Hload; [done|].
    exact (freeDevice_wf i d x c1 Hwf1 Hdev).
Qed.

(** X15: The three counters of rejections by priority add up to the counter of
    all rejections, and none of them is negative. *)
Theorem rejections_by_priority_add_up nC nP nF nD maxR sseed dseed c :
  reachable (start PQ nC nP nF nD maxR sseed dseed) c ->
  getRejectedByPriority CORPORATE c + getRejectedByPriority PREMIUM c
  + getRejectedByPriority FREE c = rejectedRequests_ c
  /\ forall pr, 0 <= getRejectedByPriority pr c.
Proof.
  intros Hreach.
  apply reachable_start_wf in Hreach as (Hwf & _).
  destruct (wf_by_priority _ Hwf) as (Hpos & Hsum).
  assert (Heq : forall pr, getRejectedByPriority pr c
                           = rejected_of (rejectedByPriority_ c) pr).
  { intros pr. unfold getRejectedByPriority, rejected_of.
    by destruct (rejectedByPriority_ c !! pr). }
  rewrite !Heq. split; [done|]. intros pr. rewrite Heq. apply Hpos.
Qed.

(** X17: What [printStatistics] prints is in range: the average waiting time
    is not negative, and the utilization of every device is between 0 and 1 (a
    load between 0 and 100 %). *)
Theorem statistics_in_range nC nP nF nD maxR sseed dseed c :
  durations sseed -> durations dseed ->
  reachable (start PQ nC nP nF nD maxR sseed dseed) c ->
  (0 <= avgWaitTime c)%Q
  /\ forall d, d ∈ devices_ c ->
       (0 <= utilization c d)%Q /\ (utilization c d <= 1)%Q.
Proof.
  intros Hs Hd Hreach.
  pose proof (reachable_clocked _ _ _ _ _ _ _ _ Hs Hd Hreach) as [_ Ht Hw].
  split.
  - unfold avgWaitTime.
    destruct (0 <? servedRequestsCount_ c) eqn:Hpos; [|apply Qle_refl].
    apply Z.ltb_lt in Hpos.
    apply Qle_shift_div_l.
    + change 0%Q with (inject_Z 0). rewrite <- Zlt_Qlt. exact Hpos.
    + by rewrite Qmult_0_l.
  - intros d Hin. rewrite Forall_forall in Ht.
    destruct (Ht d Hin) as [H0 Hb].
    assert (Device.busyTotalTime_ d <= lastEventTime_ c)%Q as Hle.
    { destruct (Device.busy_ d); [|done].
      destruct Hb as (H1 & _ & H3). eapply Qle_trans; [exact H1|exact H3]. }
    unfold utilization. simpl.
    destruct (Qle_bool (lastEventTime_ c) 0) eqn:Hz; simpl.
    + split; [apply Qle_refl|done].
    + assert (0 < lastEventTime_ c)%Q as Hlast.
      { apply Qnot_le_lt. intros Hneg. apply Qle_bool_iff in Hneg.
        congruence. }
      split.
      * apply Qle_shift_div_l; [done|]. by rewrite Qmult_0_l.
      * apply Qle_shift_div_r; [done|]. by rewrite Qmult_1_l.
Qed.

(** *** The first arrivals *)

Lemma initRequests_from_spec todo : forall i c n,
  todo = length (drop i (sources_ c)) ->
  n = Z.to_nat (Z.min (Z.of_nat todo)
                  (maxRequests_ c - generatedRequestsCount_ c)) ->
  generatedRequestsCount_ (initRequests_from todo i c)
  = generatedRequestsCount_ c + Z.of_nat n
  /\ mem (initRequests_from todo i c)
     = mem c
       ++ imap (fun k s =>
                  Request.new (globalRequestId_ c + Z.of_nat k + 1)
                    (Source.priority_ s)
                    (0 + fst (exponential_distribution (Source.rng_ s)))
                    (Source.sourceIndex_ s))
            (take n (drop i (sources_ c)))
  /\ pq_items PQ (events_ (initRequests_from todo i c))
     ≡ₚ imap (fun k s =>
                Event.mk REQUEST_GENERATED
                  (0 + fst (exponential_distribution (Source.rng_ s)))
                  (length (mem c) + k) (-1))
          (take n (drop i (sources_ c)))
        ++ pq_items PQ (events_ c).
Proof.
  induction todo as [|todo IH]; intros i c n Hlen Hn.
  { assert (n = 0%nat) as -> by lia. simpl. by rewrite Z.add_0_r, app_nil_r. }
  simpl. destruct (sources_ c !! i) as [s|] eqn:Hs.
  2:{ apply lookup_ge_None in Hs. rewrite drop_ge in Hlen by done.
      discriminate Hlen. }
  destruct (maxRequests_ c <=? generatedRequestsCount_ c) eqn:Hmax.
  { apply Z.leb_le in Hmax. assert (n = 0%nat) as -> by lia.
    simpl. by rewrite Z.add_0_r, app_nil_r. }
  apply Z.leb_gt in Hmax.
  rewrite (drop_S _ _ _ Hs) in Hlen |- *. simpl in Hlen.
  injection Hlen as Hlen.
  set (c2 := generate i s 0 c).
  assert (drop (S i) (sources_ c2) = drop (S i) (sources_ c)) as Hdrop.
  { unfold c2, generate. simpl. apply drop_insert_lt. lia. }
  destruct (IH (S i) c2 (Z.to_nat (Z.min (Z.of_nat todo)
                           (maxRequests_ c2 - generatedRequestsCount_ c2))))
    as (Hg & Hm & He); [by rewrite Hdrop|done|].
  rewrite Hdrop in Hm, He.
  assert (n = S (Z.to_nat (Z.min (Z.of_nat todo)
                    (maxRequests_ c2 - generatedRequestsCount_ c2)))) as ->.
  { unfold c2, generate. simpl. lia. }
  set (n' := Z.to_nat (Z.min (Z.of_nat todo)
                (maxRequests_ c2 - generatedRequestsCount_ c2))) in *.
  split; [|split].
  - rewrite Hg. unfold c2, generate. simpl. lia.
  - rewrite Hm. unfold c2, generate. simpl. rewrite <- app_assoc. simpl.
    do 2 f_equal.
    + by rewrite Z.add_0_r.
    + apply imap_ext. intros k x _. simpl. f_equal. lia.
  - rewrite He. unfold c2, generate. simpl.
    rewrite pq_items_push, length_app. simpl.
    rewrite Nat.add_0_r.
    rewrite <- Permutation_middle. constructor.
    apply Permutation_app_tail.
    erewrite imap_ext; [reflexivity|].
    intros k x _. simpl. f_equal. lia.
Qed.

(** X7: [initRequests] creates one request for each of the first [n] sources,
    in their order, where [n] is the number of sources or the target if that
    is less (none when the target is not positive). The request of the source
    at index [k] has the id [k + 1], the priority and the index of the source,
    and arrives at the first sample of the source; its arrival is pending. *)
Theorem initRequests_first_arrivals nC nP nF nD maxR sseed dseed n :
  n = Z.to_nat (Z.min (Z.of_nat (Z.to_nat nC + Z.to_nat nP + Z.to_nat nF))
                  maxR) ->
  generatedRequestsCount_ (start PQ nC nP nF nD maxR sseed dseed)
  = Z.of_nat n
  /\ mem (start PQ nC nP nF nD maxR sseed dseed)
     = imap (fun k s =>
               Request.new (Z.of_nat k + 1) (Source.priority_ s)
                 (0 + draws (sseed (Z.of_nat k)) (drawn (sseed (Z.of_nat k))))
                 (Z.of_nat k))
         (take n (sources_ (newController PQ nC nP nF nD maxR sseed dseed)))
  /\ pq_items PQ (events_ (start PQ nC nP nF nD maxR sseed dseed))
     ≡ₚ map (fun k =>
               Event.mk REQUEST_GENERATED
                 (0 + draws (sseed (Z.of_nat k)) (drawn (sseed (Z.of_nat k))))
                 k (-1))
          (seq 0 n).
Proof.
  intros Hn.
  destruct (newController_sources nC nP nF nD maxR sseed dseed)
    as (Hlen & Hsrc).
  set (c0 := newController PQ nC nP nF nD maxR sseed dseed) in *.
  destruct (initRequests_from_spec (length (sources_ c0)) 0%nat c0 n)
    as (Hg & Hm & He).
  { by rewrite drop_0. }
  { rewrite Hlen. unfold c0. simpl. by rewrite Z.sub_0_r. }
  rewrite drop_0 in Hm, He.
  change (initRequests_from (length (sources_ c0)) 0 c0)
    with (start PQ nC nP nF nD maxR sseed dseed) in Hg, Hm, He.
  assert (Hlook : forall k s, take n (sources_ c0) !! k = Some s ->
            Source.sourceIndex_ s = Z.of_nat k
            /\ Source.rng_ s = sseed (Z.of_nat k)).
  { intros k s Hk. apply lookup_take_Some in Hk as [Hk _].
    by destruct (Hsrc k s Hk) as (? & ? & _). }
  split; [exact Hg|]. split.
  - rewrite Hm. simpl. apply imap_ext. intros k s Hk.
    destruct (Hlook k s Hk) as [-> ->]. simpl. f_equal. 
  - rewrite He.
    change (pq_items PQ (events_ c0)) with (pq_items PQ (pq_new PQ)).
    rewrite pq_items_new, app_nil_r.
    change (length (mem c0)) with 0%nat.
    assert (length (take n (sources_ c0)) = n) as Hl.
    { rewrite length_take, Hlen. lia. }
    replace (seq 0 n) with (seq 0 (length (take n (sources_ c0))))
      by (by rewrite Hl).
    revert Hlook. clear.
    generalize (take n (sources_ c0)). intros l.
    assert (forall j,
              (forall k s, l !! k = Some s ->
                 Source.sourceIndex_ s = Z.of_nat (j + k)
                 /\ Source.rng_ s = sseed (Z.of_nat (j + k))) ->
              imap (fun k s =>
                      Event.mk REQUEST_GENERATED
                        (0 + fst (exponential_distribution (Source.rng_ s)))
                        (j + k) (-1)) l
              = map (fun k =>
                       Event.mk REQUEST_GENERATED
                         (0 + draws (sseed (Z.of_nat k))
                                (drawn (sseed (Z.of_nat k))))
                         k (-1))
                  (seq j (length l))) as H.
    { induction l as [|s l IH]; intros j Hf; [done|].
      simpl. f_equal.
      - destruct (Hf 0%nat s eq_refl) as [_ ->]. by rewrite Nat.add_0_r.
      - rewrite <- (IH (S j)).
        + apply imap_ext. intros k x _. simpl. f_equal. lia.
        + intros k x Hk. replace (S j + k)%nat with (j + S k)%nat by lia.
          by apply (Hf (S k)). }
    intros Hlook. by rewrite <- (H 0%nat Hlook).
Qed.

(** *** How a run ends *)

(** X18: With a target that is not positive, [initRequests] generates nothing
    and [work] returns at once: the run ends in the state that the constructor
    built. *)
Theorem nonpositive_target nC nP nF nD maxR sseed dseed :
  maxR <= 0 ->
  start PQ nC nP nF nD maxR sseed dseed
  = newController PQ nC nP nF nD maxR sseed dseed
  /\ work (start PQ nC nP nF nD maxR sseed dseed)
     = Returns (newController PQ nC nP nF nD maxR sseed dseed).
Proof.
  intros Hmax.
  assert (start PQ nC nP nF nD maxR sseed dseed
          = newController PQ nC nP nF nD maxR sseed dseed) as ->.
  { unfold start, initRequests.
    set (c0 := newController PQ nC nP nF nD maxR sseed dseed).
    destruct (length (sources_ c0)) as [|todo]; [reflexivity|].
    cbn [initRequests_from].
    destruct (sources_ c0 !! 0%nat); [|reflexivity].
    change (maxRequests_ c0) with maxR.
    change (generatedRequestsCount_ c0) with 0.
    by destruct (Z.leb_spec maxR 0); [|lia]. }
  split; [done|]. unfold work.
  set (c0 := newController PQ nC nP nF nD maxR sseed dseed).
  assert ((servedRequestsCount_ c0 <? maxRequests_ c0) = false) as Hlt.
  { change ((0 <? maxR) = false). apply Z.ltb_ge. lia. }
  destruct (iterations_left c0); cbn [work_loop]; by rewrite Hlt.
Qed.

(** X19: When the loop of [work] is at a state whose event queue is empty,
    every device is idle and holds no request; with at least one device the
    buffer is empty too, and every request generated was served or rejected.
    *)
Theorem drained_queue nC nP nF nD maxR sseed dseed c :
  durations sseed -> durations dseed ->
  reachable (start PQ nC nP nF nD maxR sseed dseed) c ->
  pq_items PQ (events_ c) = [] ->
  Forall (fun d => Device.busy_ d = false
                   /\ Device.currentRequest_ d = None) (devices_ c)
  /\ (0 < nD ->
      buffer_ c = []
      /\ generatedRequestsCount_ c
         = servedRequestsCount_ c + rejectedRequests_ c).
Proof.
  intros Hs Hd Hreach Hempty.
  pose proof (reachable_clocked _ _ _ _ _ _ _ _ Hs Hd Hreach) as [Hp _ _].
  rewrite Hempty in Hp.
  assert (Forall (fun d => Device.busy_ d = false
                           /\ Device.currentRequest_ d = None) (devices_ c))
    as Hidle.
  { eapply Forall_impl; [exact Hp|]. intros d (Hlen & _ & Hcur).
    destruct (Device.busy_ d); [discriminate Hlen|]. by split; [|apply Hcur]. }
  split; [done|]. intros HnD.
  pose proof (reachable_conserving _ _ _ _ _ _ _ _ Hreach) as Hcons.
  pose proof (conservation_invariant _ _ _ _ _ _ _ _ Hreach) as Hsum.
  destruct (reachable_start_wf _ _ _ _ _ _ _ _ Hreach) as (_ & _ & _ & Hlen).
  assert (buffer_ c = []) as Hbuf.
  { destruct Hcons as [?|Hbusy]; [done|].
    destruct (devices_ c) as [|d l]; [simpl in Hlen; lia|].
    apply Forall_cons in Hbusy as [Hb _], Hidle as [[Hi _] _]. congruence. }
  split; [done|].
  unfold pending_arrivals in Hsum. rewrite Hempty, Hbuf in Hsum.
  change (count_type REQUEST_GENERATED []) with 0%nat in Hsum.
  simpl in Hsum. lia.
Qed.

(** *** The number of iterations *)

Lemma work_loop_more fuel : forall c c' more,
  work_loop fuel c = Returns c' ->
  (fuel <= more)%nat ->
  work_loop more c = Returns c'.
Proof.
  induction fuel as [|fuel IH]; intros c c' more H Hle;
    rewrite work_loop_unfold in H; rewrite work_loop_unfold;
    destruct (servedRequestsCount_ c <? maxRequests_ c); try done;
    destruct (pq_pop PQ (events_ c)) as [[ev q]|]; try done.
  destruct more as [|more]; [lia|].
  destruct (handleEvent ev (with_events q c)) as [c1|]; [|done].
  apply (IH c1 c' more H). lia.
Qed.

Lemma count_type_imap ty (f : nat -> Source.t -> Event.t) l :
  (forall k s, Event.type (f k s) = REQUEST_GENERATED) ->
  count_type ty (imap f l)
  = if decide (REQUEST_GENERATED = ty) then length l else 0%nat.
Proof.
  revert f. induction l as [|s l IH]; intros f Hf.
  - by destruct (decide _).
  - simpl. rewrite count_type_cons, Hf, IH by (intros; apply Hf).
    by destruct (decide _).
Qed.

Lemma start_iterations_left nC nP nF nD maxR sseed dseed :
  (iterations_left (start PQ nC nP nF nD maxR sseed dseed)
   <= 3 * Z.to_nat maxR)%nat.
Proof.
  set (c0 := newController PQ nC nP nF nD maxR sseed dseed).
  destruct (initRequests_from_spec (length (sources_ c0)) 0%nat c0 _
              ltac:(by rewrite drop_0) eq_refl) as (Hg & _ & He).
  destruct (start_wf nC nP nF nD maxR sseed dseed)
    as (_ & _ & Hmax & _ & _ & Hbuf).
  change (initRequests_from (length (sources_ c0)) 0 c0)
    with (start PQ nC nP nF nD maxR sseed dseed) in Hg, He.
  change (pq_items PQ (events_ c0)) with (pq_items PQ (pq_new PQ)) in He.
  rewrite pq_items_new, app_nil_r in He.
  unfold iterations_left.
  rewrite !(count_type_perm _ _ _ He), !count_type_imap by done.
  rewrite Hbuf, Hg, Hmax. simpl.
  rewrite length_take, length_drop.
  change (maxRequests_ c0) with maxR.
  change (generatedRequestsCount_ c0) with 0.
  lia.
Qed.

(** X20: [work] returns within [3 * maxRequests] iterations of its loop (an
    arrival, a dispatch and a completion for each request of the target):
    15000 for the configuration of [main]. *)
Theorem work_iteration_bound nC nP nF nD maxR sseed dseed fuel :
  (3 * Z.to_nat maxR <= fuel)%nat ->
  exists c',
    work_loop fuel (start PQ nC nP nF nD maxR sseed dseed) = Returns c'
    /\ work (start PQ nC nP nF nD maxR sseed dseed) = Returns c'.
Proof.
  intros Hfuel.
  destruct (start_wf nC nP nF nD maxR sseed dseed) as (Hwf & _).
  destruct (work_returns _ Hwf) as (c' & Hret & _).
  exists c'. split; [|done].
  apply (work_loop_more _ _ _ _ Hret).
  pose proof (start_iterations_left nC nP nF nD maxR sseed dseed). lia.
Qed.

(** *** The map of rejections *)

Lemma reachable_counters_present nC nP nF nD maxR sseed dseed c :
  reachable (start PQ nC nP nF nD maxR sseed dseed) c ->
  forall pr, is_Some (rejectedByPriority_ c !! pr).
Proof.
  assert (Hgen : forall i src x (a : Controller PQ),
            rejectedByPriority_ (generate i src x a) = rejectedByPriority_ a)
    by done.
  assert (Hsched : forall i x (a : Controller PQ),
            rejectedByPriority_ (scheduleNextRequest i x a)
            = rejectedByPriority_ a).
  { intros i x a. unfold scheduleNextRequest.
    destruct (sources_ a !! i); [|done].
    by destruct (maxRequests_ a <=? generatedRequestsCount_ a). }
  assert (Hinit : forall todo i (a : Controller PQ),
            rejectedByPriority_ (initRequests_from todo i a)
            = rejectedByPriority_ a).
  { induction todo as [|todo IH]; intros i a; simpl; [done|].
    destruct (sources_ a !! i); [|done].
    destruct (maxRequests_ a <=? generatedRequestsCount_ a); [done|].
    by rewrite IH. }
  assert (Hsweep : forall x (a b : Controller PQ),
            wf a -> loadRequestsToFreeDevices x a = Some b ->
            rejectedByPriority_ b = rejectedByPriority_ a).
  { intros x a b Hwfa Hab.
    destruct (loadRequestsToFreeDevices_wf x a Hwfa)
      as (b' & Heq & _ & Hsame & _).
    rewrite Hab in Heq. injection Heq as <-.
    by destruct Hsame as (_ & _ & _ & ? & _). }
  destruct (start_wf nC nP nF nD maxR sseed dseed) as (Hwf0 & _).
  induction 1 as [|c ev q c' Hreach IH _ Hpop Hev]; intros pr.
  - unfold start, initRequests. rewrite Hinit. simpl.
    destruct pr; vm_compute; by eexists.
  - destruct (reachable_wf _ _ Hwf0 Hreach) as (Hwf & _).
    destruct (handleEvent_cases ev q c c' Hwf Hpop Hev) as (Hwf1 & Hcases).
    destruct Hcases
      as [(_ & r & added & c2 & c3 & _ & Hadm & Hwf2 & Hc3 & _ & Hc')
         |(_ & i & d & Hdev & _ & Hload)].
    + assert (is_Some (rejectedByPriority_ c2 !! pr)) as H2.
      { destruct Hadm; simpl; try apply IH;
          (destruct (decide (pr = Request.priority_ e)) as [->|Hne]
           || destruct (decide (pr = Request.priority_ r)) as [->|Hne]);
          rewrite ?lookup_insert_eq, ?lookup_insert_ne by done;
          (done || apply IH). }
      assert (rejectedByPriority_ c3 = rejectedByPriority_ c2) as H3.
      { destruct added; [by eapply Hsweep|by subst c3]. }
      destruct Hc' as [->|(i & -> & _)]; rewrite ?Hsched, H3; exact H2.
    + rewrite (Hsweep _ _ _ (freeDevice_wf i d _ _ Hwf1 Hdev) Hload).
      simpl. apply IH.
Qed.

(** X16: The map of rejections keeps the three entries that the constructor
    creates: in a run [getRejectedByPriority] always finds the entry of a
    priority, and its fallback [return 0] is never reached. *)
Theorem rejection_counters_present nC nP nF nD maxR sseed dseed c pr :
  reachable (start PQ nC nP nF nD maxR sseed dseed) c ->
  exists n,
    rejectedByPriority_ c !! pr = Some n
    /\ getRejectedByPriority pr c = n.
Proof.
  intros Hreach.
  destruct (reachable_counters_present _ _ _ _ _ _ _ _ Hreach pr) as [n Hn].
  exists n. split; [done|]. unfold getRejectedByPriority. by rewrite Hn.
Qed.

(** *** The size of the event queue *)

Lemma source_of_insert m p r r' e :
  m !! p = Some r ->
  Request.sourceIndex_ r' = Request.sourceIndex_ r ->
  source_of (<[p := r']> m) e = source_of m e.
Proof.
  intros Hp Hsame. unfold source_of.
  destruct (decide (p = Event.request e)) as [<-|Hne].
  - rewrite list_lookup_insert_eq by (by eapply lookup_lt_Some).
    by rewrite Hp.
  - by rewrite list_lookup_insert_ne.
Qed.

Lemma same_arrivals_refl c : same_arrivals c c.
Proof. by split. Qed.

Lemma same_arrivals_trans c1 c2 c3 :
  same_arrivals c1 c2 -> same_arrivals c2 c3 -> same_arrivals c1 c3.
Proof.
  intros [H1 P1] [H2 P2]. split.
  - intros e. by rewrite H2, H1.
  - by rewrite P2, P1.
Qed.

Lemma same_arrivals_pending c c' :
  same_arrivals c c' -> pending_sources c' ≡ₚ pending_sources c.
Proof.
  intros [Hsrc Hperm]. unfold pending_sources. rewrite Hperm.
  erewrite list_fmap_ext; [reflexivity|]. intros i e _. apply Hsrc.
Qed.

Lemma admission_same_arrivals req r c added c' :
  admission req r c added c' ->
  mem c !! req = Some r ->
  same_arrivals c c'.
Proof.
  intros Hadm Hr. split; [|by destruct Hadm].
  intros e. destruct Hadm; simpl; try done;
    by apply (source_of_insert _ _ r).
Qed.

Lemma loadRequestsToFreeDevices_same_arrivals x c c' :
  wf c ->
  loadRequestsToFreeDevices x c = Some c' ->
  same_arrivals c c'.
Proof.
  intros Hwf H.
  apply (loadRequests_from_rule (fun c1 => same_arrivals c c1) x) in H;
    [done| |done|apply same_arrivals_refl].
  clear c' H. intros c1 i d p rest c2 Hwf1 Hsame Hd Hbuf Hc2.
  apply (same_arrivals_trans c c1 c2 Hsame).
  assert (p < length (mem c1))%nat as Hp.
  { pose proof (wf_buffer _ Hwf1) as Hlive. unfold live in Hlive.
    rewrite Hbuf in Hlive. by inversion Hlive. }
  destruct (lookup_lt_is_Some_2 _ _ Hp) as [r Hr].
  destruct (dispatch_fields i d p x (with_buffer rest c1) r Hr)
    as (c2' & d' & ev & Heq & Hmem & _ & _ & _ & Hperm & Hty & _).
  rewrite Hc2 in Heq. injection Heq as <-.
  split.
  - intros e. rewrite Hmem. simpl. by apply (source_of_insert _ _ r).
  - unfold arrivals. rewrite Hperm. simpl.
    rewrite filter_cons_False; [done|]. congruence.
Qed.

(** A new arrival is of the source that generates it. *)
Lemma generate_pending i src x c :
  wf c ->
  pending_sources (generate i src x c)
  ≡ₚ Source.sourceIndex_ src :: pending_sources c.
Proof.
  intros Hwf. unfold pending_sources, generate. simpl.
  unfold arrivals. rewrite pq_items_push.
  rewrite filter_cons_True by done. rewrite fmap_cons.
  match goal with
  | |- ?a :: ?l ≡ₚ ?b :: ?k =>
      assert (a = b) as ->; [|assert (l = k) as ->; [|done]]
  end.
  { unfold source_of. simpl. by rewrite lookup_app_r, Nat.sub_diag. }
  apply list_fmap_ext. intros k e Hk.
  apply list_elem_of_lookup_2, list_elem_of_filter in Hk as [_ Hin].
  pose proof (wf_events _ Hwf) as He. rewrite Forall_forall in He.
  unfold source_of. by rewrite lookup_app_l by (by apply He).
Qed.

Lemma scheduleNextRequest_pending i x c :
  wf c ->
  pending_sources (scheduleNextRequest i x c) = pending_sources c
  \/ exists src,
       sources_ c !! i = Some src
       /\ pending_sources (scheduleNextRequest i x c)
          ≡ₚ Source.sourceIndex_ src :: pending_sources c.
Proof.
  intros Hwf. unfold scheduleNextRequest.
  destruct (sources_ c !! i) as [src|]; [|by left].
  destruct (maxRequests_ c <=? generatedRequestsCount_ c); [by left|].
  right. exists src. split; [done|]. by apply generate_pending.
Qed.

Lemma pop_arrivals c ev q :
  pq_pop PQ (events_ c) = Some (ev, q) ->
  arrivals (pq_items PQ (events_ c))
  ≡ₚ (if decide (Event.type ev = REQUEST_GENERATED) then [ev] else [])
     ++ arrivals (pq_items PQ q).
Proof.
  intros Hpop. unfold arrivals. rewrite (pop_items _ _ _ Hpop).
  rewrite filter_cons. by destruct (decide _).
Qed.

Lemma handleEvent_spaced ev q c c' :
  wf c ->
  identified c ->
  NoDup (pending_sources c) ->
  pq_pop PQ (events_ c) = Some (ev, q) ->
  handleEvent ev (with_events q c) = Some c' ->
  NoDup (pending_sources c').
Proof.
  intros Hwf Hid Hnd Hpop Hev.
  destruct (handleEvent_cases ev q c c' Hwf Hpop Hev) as (Hwf1 & Hcases).
  pose proof (pop_arrivals c ev q Hpop) as Harr.
  set (x := Event.time ev) in *.
  set (c1 := updateLastEventTime x (with_events q c)) in *.
  assert (identified c1) as Hid1 by (by apply (identified_same c)).
  assert (pending_sources c
          ≡ₚ (if decide (Event.type ev = REQUEST_GENERATED)
              then [source_of (mem c) ev] else [])
             ++ pending_sources c1) as Hc1.
  { unfold pending_sources. rewrite Harr, fmap_app.
    by destruct (decide _). }
  destruct Hcases
    as [(Hty & r & added & c2 & c3 & Hr & Hadm & Hwf2 & Hc3 & Hwf3 & Hc')
       |(Hty & i & d & Hd & _ & Hload)].
  - rewrite decide_True in Hc1 by done. simpl in Hc1.
    pose proof (admission_same_arrivals _ _ _ _ _ Hadm Hr) as H12.
    pose proof (admission_identified _ _ _ _ _ Hadm Hr Hid1) as Hid2.
    assert (same_arrivals c2 c3 /\ identified c3) as [H23 Hid3].
    { destruct added.
      - split; [by apply (loadRequestsToFreeDevices_same_arrivals x)|].
        by apply (loadRequestsToFreeDevices_identified x c2 c3).
      - subst c3. split; [apply same_arrivals_refl|done]. }
    pose proof (same_arrivals_trans _ _ _ H12 H23) as H13.
    rewrite Hc1, <- (same_arrivals_pending _ _ H13) in Hnd.
    apply NoDup_cons in Hnd as [Hfresh Hnd3].
    destruct Hc' as [->|(i & -> & r3 & Hr3 & Hidx)]; [done|].
    destruct (scheduleNextRequest_pending i x c3 Hwf3)
      as [->|(src & Hsrc & ->)]; [done|].
    apply NoDup_cons. split; [|done].
    rewrite (identified_sources _ Hid3 _ _ Hsrc), <- Hidx.
    destruct H13 as [Hstable _].
    replace (Request.sourceIndex_ r3) with (source_of (mem c3) ev)
      by (unfold source_of; by rewrite Hr3).
    by rewrite Hstable.
  - rewrite decide_False in Hc1 by congruence. simpl in Hc1.
    assert (same_arrivals c1 c') as H1.
    { apply (same_arrivals_trans _
               (with_devices (<[i := Device.freeDevice x d]> (devices_ c))
                  c1)); [by split|].
      apply (loadRequestsToFreeDevices_same_arrivals x); [|done].
      exact (freeDevice_wf i d x c1 Hwf1 Hd). }
    by rewrite (same_arrivals_pending _ _ H1), <- Hc1.
Qed.

Lemma initRequests_from_spaced todo : forall i c,
  wf c ->
  identified c ->
  NoDup (pending_sources c) ->
  (forall z, z ∈ pending_sources c -> z < Z.of_nat i) ->
  NoDup (pending_sources (initRequests_from todo i c)).
Proof.
  induction todo as [|todo IH]; intros i c Hwf Hid Hnd Hlt; simpl; [done|].
  destruct (sources_ c !! i) as [src|] eqn:Hsrc; [|done].
  destruct (maxRequests_ c <=? generatedRequestsCount_ c) eqn:Hmax; [done|].
  apply Z.leb_gt in Hmax.
  pose proof (generate_pending i src 0 c Hwf) as Hp.
  rewrite (identified_sources _ Hid _ _ Hsrc) in Hp.
  apply IH.
  - by apply generate_wf.
  - by apply generate_identified.
  - rewrite Hp. apply NoDup_cons. split; [|done].
    intros Hin. apply Hlt in Hin. lia.
  - intros z Hz. rewrite Hp in Hz.
    apply elem_of_cons in Hz as [->|Hz]; [lia|].
    apply Hlt in Hz. lia.
Qed.

Lemma reachable_spaced nC nP nF nD maxR sseed dseed c :
  reachable (start PQ nC nP nF nD maxR sseed dseed) c ->
  NoDup (pending_sources c).
Proof.
  destruct (start_wf nC nP nF nD maxR sseed dseed) as (Hwf0 & _).
  induction 1 as [|c ev q c' Hreach IH _ Hpop Hev].
  - apply initRequests_from_spaced.
    + apply newController_wf.
    + apply newController_identified.
    + unfold pending_sources. simpl. rewrite pq_items_new. constructor.
    + unfold pending_sources. simpl. rewrite pq_items_new.
      intros z Hz. by apply elem_of_nil in Hz.
  - destruct (reachable_wf _ _ Hwf0 Hreach) as (Hwf & _).
    pose proof (reachable_identified _ _ _ _ _ _ _ _ Hreach) as Hid.
    by eapply handleEvent_spaced.
Qed.

Lemma pending_sources_range c z :
  wf c ->
  identified c ->
  z ∈ pending_sources c ->
  0 <= z < Z.of_nat (length (sources_ c)).
Proof.
  intros Hwf Hid Hz. unfold pending_sources in Hz.
  apply list_elem_of_fmap in Hz as (e & -> & He).
  apply list_elem_of_filter in He as [_ He].
  pose proof (wf_events _ Hwf) as Hlive. rewrite Forall_forall in Hlive.
  destruct (lookup_lt_is_Some_2 _ _ (Hlive e He)) as [r Hr].
  unfold source_of. rewrite Hr.
  destruct (identified_origin _ Hid _ _ Hr) as (s & Hs & Hpos & _).
  apply lookup_lt_Some in Hs. lia.
Qed.

Lemma pending_arrivals_bound c :
  wf c ->
  identified c ->
  NoDup (pending_sources c) ->
  (pending_arrivals c <= length (sources_ c))%nat.
Proof.
  intros Hwf Hid Hnd.
  assert (pending_arrivals c = length (pending_sources c)) as ->.
  { unfold pending_sources. by rewrite length_fmap. }
  assert (length (Z.of_nat <$> seq 0 (length (sources_ c)))
          = length (sources_ c)) as <- by (by rewrite length_fmap, length_seq).
  apply submseteq_length, NoDup_submseteq; [done|].
  intros z Hz. apply (pending_sources_range c z Hwf Hid) in Hz.
  apply list_elem_of_fmap. exists (Z.to_nat z). split; [lia|].
  apply elem_of_seq. lia.
Qed.

(** X23: The pending arrivals are of sources that are all different: a source
    has at most one arrival pending, so there are never more pending arrivals
    than sources. *)
Theorem one_arrival_per_source nC nP nF nD maxR sseed dseed c :
  reachable (start PQ nC nP nF nD maxR sseed dseed) c ->
  NoDup (pending_sources c)
  /\ (forall z, z ∈ pending_sources c ->
        0 <= z < Z.of_nat (length (sources_ c)))
  /\ (pending_arrivals c <= length (sources_ c))%nat.
Proof.
  intros Hreach.
  destruct (reachable_start_wf _ _ _ _ _ _ _ _ Hreach) as (Hwf & _).
  pose proof (reachable_identified _ _ _ _ _ _ _ _ Hreach) as Hid.
  pose proof (reachable_spaced _ _ _ _ _ _ _ _ Hreach) as Hnd.
  split; [done|]. split.
  - intros z. by apply pending_sources_range.
  - by apply pending_arrivals_bound.
Qed.

Lemma completions_none (ds : list Device.t) (e : Event.t) :
  (Event.type e = REQUEST_SERVED -> Event.deviceId e ∉ Device.id_ <$> ds) ->
  sum_list_with (fun d => length (completions_of (Device.id_ d) [e])) ds
  = 0%nat.
Proof.
  intros Hnot. induction ds as [|d ds IH]; [done|]. simpl.
  rewrite IH.
  2:{ intros Hty Hin. apply (Hnot Hty). rewrite fmap_cons. by right. }
  unfold completions_of. rewrite filter_cons_False; [done|].
  intros [Hty Heq]. apply (Hnot Hty). rewrite fmap_cons, <- Heq. by left.
Qed.

Lemma completions_one (ds : list Device.t) (e : Event.t) :
  NoDup (Device.id_ <$> ds) ->
  Event.type e = REQUEST_SERVED ->
  Event.deviceId e ∈ Device.id_ <$> ds ->
  sum_list_with (fun d => length (completions_of (Device.id_ d) [e])) ds
  = 1%nat.
Proof.
  intros Hnd Hty. induction ds as [|d ds IH]; intros Hin.
  { by apply elem_of_nil in Hin. }
  rewrite fmap_cons in Hnd, Hin. apply NoDup_cons in Hnd as [Hfresh Hnd].
  simpl. destruct (decide (Event.deviceId e = Device.id_ d)) as [Heq|Hne].
  - rewrite completions_of_cons_same by done. simpl.
    rewrite completions_none; [done|]. intros _. by rewrite Heq.
  - rewrite completions_of_cons_other by (intros [_ ?]; done). simpl.
    apply IH; [done|]. by apply elem_of_cons in Hin as [?|?].
Qed.

Lemma completions_of_app id l k :
  completions_of id (l ++ k) = completions_of id l ++ completions_of id k.
Proof. unfold completions_of. by rewrite filter_app. Qed.

Lemma sum_list_with_add {A} (f g : A -> nat) l :
  sum_list_with (fun x => (f x + g x)%nat) l
  = (sum_list_with f l + sum_list_with g l)%nat.
Proof. induction l as [|x l IH]; simpl; [done|]. rewrite IH. lia. Qed.

Lemma sum_list_with_same {A} (f g : A -> nat) l :
  (forall x, f x = g x) -> sum_list_with f l = sum_list_with g l.
Proof. intros H. induction l as [|x l IH]; simpl; [done|]. by rewrite H, IH. Qed.

(** Completions are counted once each when they are counted device by
    device. *)
Lemma served_partition (ds : list Device.t) l :
  NoDup (Device.id_ <$> ds) ->
  Forall (fun e => Event.type e = REQUEST_SERVED ->
                   Event.deviceId e ∈ Device.id_ <$> ds) l ->
  count_type REQUEST_SERVED l
  = sum_list_with (fun d => length (completions_of (Device.id_ d) l)) ds.
Proof.
  intros Hnd. induction l as [|e l IH]; intros Hall.
  { clear. induction ds as [|d ds IH]; [done|].
    cbn [sum_list_with]. rewrite <- IH. reflexivity. }
  apply Forall_cons in Hall as [He Hall].
  rewrite count_type_cons, (IH Hall).
  rewrite (sum_list_with_same
             (fun d => length (completions_of (Device.id_ d) (e :: l)))
             (fun d => (length (completions_of (Device.id_ d) [e])
                        + length (completions_of (Device.id_ d) l))%nat)).
  2:{ intros d. by rewrite (completions_of_app _ [e] l), length_app. }
  rewrite sum_list_with_add. f_equal.
  destruct (decide (Event.type e = REQUEST_SERVED)) as [Hty|Hty].
  - by rewrite completions_one by auto.
  - by rewrite completions_none by done.
Qed.

Lemma busy_count l (ds : list Device.t) :
  Forall (paired l) ds ->
  sum_list_with (fun d => length (completions_of (Device.id_ d) l)) ds
  = length (filter (fun d => Device.busy_ d = true) ds).
Proof.
  induction 1 as [|d ds (Hlen & _) _ IH]; [done|]. simpl.
  rewrite IH, Hlen, filter_cons.
  destruct (Device.busy_ d); by destruct (decide _).
Qed.

Lemma device_ids c :
  wf c ->
  NoDup (Device.id_ <$> devices_ c)
  /\ Forall (fun e => Event.type e = REQUEST_SERVED ->
                      Event.deviceId e ∈ Device.id_ <$> devices_ c)
       (pq_items PQ (events_ c)).
Proof.
  intros Hwf. split.
  - apply NoDup_alt. intros i j z Hi Hj.
    rewrite list_lookup_fmap in Hi, Hj.
    destruct (devices_ c !! i) as [d|] eqn:Hd; [|done].
    destruct (devices_ c !! j) as [d'|] eqn:Hd'; [|done].
    simpl in Hi, Hj. injection Hi as Hi. injection Hj as Hj.
    rewrite (wf_devices _ Hwf _ _ Hd) in Hi.
    rewrite (wf_devices _ Hwf _ _ Hd') in Hj. lia.
  - eapply Forall_impl; [exact (wf_served _ Hwf)|].
    intros e He Hty. specialize (He Hty).
    destruct (lookup_lt_is_Some_2 (devices_ c)
                (Z.to_nat (Event.deviceId e - 1))) as [d Hd]; [lia|].
    apply list_elem_of_fmap. exists d. split.
    + rewrite (wf_devices _ Hwf _ _ Hd). lia.
    + by eapply list_elem_of_lookup_2.
Qed.

Lemma length_by_type l :
  length l
  = (count_type REQUEST_GENERATED l + count_type REQUEST_SERVED l)%nat.
Proof.
  induction l as [|e l IH]; [done|].
  rewrite !count_type_cons. simpl. rewrite IH.
  destruct (Event.type e); repeat destruct (decide _); try done; lia.
Qed.

(** X24: The event queue holds one completion for each busy device and at most
    one arrival for each source and nothing else: it never has more events
    than there are sources and devices. *)
Theorem event_queue_bounded nC nP nF nD maxR sseed dseed c :
  durations sseed -> durations dseed ->
  reachable (start PQ nC nP nF nD maxR sseed dseed) c ->
  count_type REQUEST_SERVED (pq_items PQ (events_ c)) = in_service c
  /\ (length (pq_items PQ (events_ c))
      <= length (sources_ c) + length (devices_ c))%nat.
Proof.
  intros Hs Hd Hreach.
  destruct (reachable_start_wf _ _ _ _ _ _ _ _ Hreach) as (Hwf & _).
  pose proof (reachable_identified _ _ _ _ _ _ _ _ Hreach) as Hid.
  pose proof (reachable_spaced _ _ _ _ _ _ _ _ Hreach) as Hnd.
  pose proof (reachable_clocked _ _ _ _ _ _ _ _ Hs Hd Hreach) as [Hp _ _].
  destruct (device_ids c Hwf) as [Hids Hin].
  assert (count_type REQUEST_SERVED (pq_items PQ (events_ c)) = in_service c)
    as Hserved.
  { rewrite (served_partition (devices_ c)) by done. by apply busy_count. }
  split; [done|].
  rewrite length_by_type, Hserved.
  pose proof (pending_arrivals_bound c Hwf Hid Hnd) as Hgen.
  unfold pending_arrivals in Hgen.
  pose proof (length_filter (fun d => Device.busy_ d = true) (devices_ c)).
  unfold in_service. lia.
Qed.

End Properties.

(** ** The time formatter *)

Example sixty_is_60 : Fmt.sixty = Fmt.double_of 60 0.
Proof. reflexivity. Qed.

Example formatTime_25_5 :
  Fmt.formatTime (Fmt.double_of 51 (-1)) = Some "01:30"%string.
Proof. reflexivity. Qed.

(** 0.35 is not a binary64 number; for the nearest one the rounded product
    is 21, although the exact product is below 21. *)
Example formatTime_0_35 :
  Fmt.formatTime (S754_finite false 6305039478318694 (-54))
  = Some "00:21"%string.
Proof. reflexivity. Qed.

Example formatTime_negative :
  Fmt.formatTime (Fmt.double_of (-1) (-1)) = Some "00:-3"%string.
Proof. reflexivity. Qed.

Lemma fmt_02d_two_digits z : 0 <= z < 100 -> Fmt.fmt_02d z = Fmt.two_digits z.
Proof.
  intros Hz.
  assert (Hall : forallb (fun n => String.eqb (Fmt.fmt_02d (Z.of_nat n))
                                     (Fmt.two_digits (Z.of_nat n)))
                   (seq 0 100) = true) by (vm_compute; reflexivity).
  rewrite forallb_forall in Hall.
  specialize (Hall (Z.to_nat z)).
  rewrite Z2Nat.id in Hall by lia.
  apply String.eqb_eq, Hall, in_seq. lia.
Qed.

(** Rounding keeps the sign it is given. *)
Lemma binary_round_aux_sign s mx ex lx :
  match binary_round_aux Fmt.prec Fmt.emax s mx ex lx with
  | S754_zero s' | S754_infinity s' | S754_finite s' _ _ => s' = s
  | S754_nan => True
  end.
Proof.
  unfold binary_round_aux.
  destruct (shr_fexp _ _ mx ex lx) as [mrs' e'].
  destruct (shr_fexp _ _ _ e' loc_Exact) as [mrs'' e''].
  destruct (shr_m mrs''); [reflexivity| |exact I].
  destruct (Z.leb _ _); reflexivity.
Qed.

Lemma floor_minutes_nonneg hours m :
  Fmt.non_negative hours = true ->
  Fmt.floor (SFmul Fmt.prec Fmt.emax hours Fmt.sixty) = Some m ->
  0 <= m.
Proof.
  intros Hpos Hfloor.
  destruct hours as [s|s| |s mx ex]; simpl in Hfloor.
  - injection Hfloor as <-. lia.
  - discriminate Hfloor.
  - discriminate Hpos.
  - destruct s; [discriminate Hpos|]. simpl in Hfloor.
    pose proof (binary_round_aux_sign false
                  (Z.pos (mx * 8444249301319680)) (ex + -47) loc_Exact) as Hs.
    destruct (binary_round_aux Fmt.prec Fmt.emax false _ _ loc_Exact)
      as [s'|s'| |s' m' e']; simpl in Hfloor; try discriminate Hfloor.
    + injection Hfloor as <-. lia.
    + subst s'. injection Hfloor as <-.
      destruct (0 <=? e') eqn:He.
      * apply Z.leb_le in He. apply Z.mul_nonneg_nonneg; [lia|].
        by apply Z.pow_nonneg.
      * apply Z.leb_gt in He. apply Z.div_pos; [lia|].
        apply Z.pow_pos_nonneg; lia.
Qed.

(** C7, within the range of [int]: for a time that is not negative and
    whose minutes [m], the floor of the product by 60, fit an [int],
    [formatTime] renders [m] as [HH:MM], hours modulo 24 and minutes modulo
    60, each on two digits. *)
Theorem C7_formatTime hours m :
  Fmt.non_negative hours = true ->
  Fmt.floor (SFmul Fmt.prec Fmt.emax hours Fmt.sixty) = Some m ->
  m <= Fmt.INT_MAX ->
  Fmt.formatTime hours = Some (Fmt.HHMM m).
Proof.
  intros Hpos Hfloor Hmax.
  pose proof (floor_minutes_nonneg hours m Hpos Hfloor) as Hm.
  unfold Fmt.formatTime, Fmt.static_cast_int. rewrite Hfloor.
  assert ((Fmt.INT_MIN <=? m) && (m <=? Fmt.INT_MAX) = true) as ->.
  { apply andb_true_iff. split; apply Z.leb_le; [|done].
    unfold Fmt.INT_MIN. lia. }
  rewrite Z.quot_div_nonneg, !Z.rem_mod_nonneg; try lia.
  2:{ apply Z.div_pos; lia. }
  pose proof (Z.mod_pos_bound (m / 60) 24).
  pose proof (Z.mod_pos_bound m 60).
  rewrite !fmt_02d_two_digits by lia.
  reflexivity.
Qed.

Lemma C7_formatTime_witness :
  Fmt.non_negative (Fmt.double_of 51 (-1)) = true
  /\ Fmt.floor (SFmul Fmt.prec Fmt.emax (Fmt.double_of 51 (-1)) Fmt.sixty)
     = Some 1530
  /\ 1530 <= Fmt.INT_MAX
  /\ Fmt.formatTime (Fmt.double_of 51 (-1)) = Some "01:30"%string.
Proof.
  assert (H1 : Fmt.non_negative (Fmt.double_of 51 (-1)) = true)
    by reflexivity.
  assert (H2 : Fmt.floor (SFmul Fmt.prec Fmt.emax (Fmt.double_of 51 (-1))
                            Fmt.sixty) = Some 1530) by reflexivity.
  assert (H3 : 1530 <= Fmt.INT_MAX) by (vm_compute; discriminate).
  split; [exact H1|]. split; [exact H2|]. split; [exact H3|].
  exact (C7_formatTime (Fmt.double_of 51 (-1)) 1530 H1 H2 H3).
Defined.

(** C7 as stated fails beyond the range of [int]: 35791395 hours are
    2147483700 minutes, which do not fit; the conversion is undefined and
    nothing is rendered. *)
Lemma C7_counterexample :
  valid_binary Fmt.prec Fmt.emax (Fmt.double_of 35791395 0) = true
  /\ Fmt.non_negative (Fmt.double_of 35791395 0) = true
  /\ Fmt.floor (SFmul Fmt.prec Fmt.emax (Fmt.double_of 35791395 0) Fmt.sixty)
     = Some 2147483700
  /\ Fmt.formatTime (Fmt.double_of 35791395 0) = None
  /\ Fmt.formatTime (Fmt.double_of 35791395 0) <> Some (Fmt.HHMM 2147483700).
Proof.
  split; [reflexivity|]. split; [reflexivity|]. split; [reflexivity|].
  split; [reflexivity|discriminate].
Qed.

Lemma C4_witness :
  exists c',
    addRequest 8%nat (full_of_free (Request.new 8 FREE 8 0))
    = Some (false, c')
    /\ buffer_ c' = seq 0 8
    /\ rejectedRequests_ c' = 1
    /\ getRejectedByPriority FREE c' = 1.
Proof.
  destruct (C4_full_buffer_refuses_FREE ListPQ
              (full_of_free (Request.new 8 FREE 8 0)) 8%nat
              (Request.new 8 FREE 8 0) eq_refl eq_refl eq_refl)
    as (c' & Hadd & Hbuf & _ & Hrej & Hfree & _).
  exists c'. split; [exact Hadd|]. split; [exact Hbuf|].
  split; [exact Hrej|exact Hfree].
Defined.

Lemma C2_witness :
  exists added c',
    addRequest 8%nat (full_of_free (Request.new 8 CORPORATE 8 0))
    = Some (added, c')
    /\ added = true
    /\ buffer_ c' = [1; 2; 3; 4; 5; 6; 7; 8]%nat
    /\ rejectedRequests_ c' = 1
    /\ getRejectedByPriority FREE c' = 1
    /\ getRejectedByPriority CORPORATE c' = 0.
Proof.
  assert (Hlive : forall i,
    (i < length (buffer_ (full_of_free (Request.new 8 CORPORATE 8 0))))%nat ->
    is_Some (occupant (full_of_free (Request.new 8 CORPORATE 8 0)) i)).
  { intros i Hi. simpl in Hi.
    do 8 (destruct i as [|i]; [by eexists|]). lia. }
  destruct (C2_full_buffer_CORPORATE ListPQ
              (full_of_free (Request.new 8 CORPORATE 8 0)) 8%nat
              (Request.new 8 CORPORATE 8 0) eq_refl eq_refl eq_refl Hlive)
    as (added & c' & Hadd & _).
  exists added, c'. split; [exact Hadd|].
  vm_compute in Hadd. injection Hadd as <- <-.
  repeat split; reflexivity.
Defined.

Lemma C5_witness :
  exists c',
    calls (take 9 (nine_admissions ++ [CallPop; CallAdd 0%nat]))
      (store_with (Request.new 8 PREMIUM 8 0)) = Some c'
    /\ (length (buffer_ c') <= 8)%nat.
Proof.
  apply (C5_capacity ListPQ); [reflexivity|].
  intros req Hin. simpl in Hin.
  repeat (apply elem_of_cons in Hin as [Hin|Hin];
          [try discriminate Hin; injection Hin as ->; by eexists|]).
  by apply elem_of_nil in Hin.
Defined.

(** C1 fails on the code: after eight FREE admissions the buffer is full,
    and the PREMIUM request that evicts the first of them is appended
    behind the seven FREE requests that remain. *)
Theorem C1_eviction_breaks_order :
  calls nine_admissions (store_with (Request.new 8 PREMIUM 8 0))
  = Some after_nine_admissions
  /\ buffer_ after_nine_admissions = [1; 2; 3; 4; 5; 6; 7; 8]%nat
  /\ (Request.priority_ <$> occupant after_nine_admissions 6)
     = Some FREE
  /\ (Request.priority_ <$> occupant after_nine_admissions 7)
     = Some PREMIUM
  /\ ~ buffer_ordered after_nine_admissions.
Proof.
  assert (H6 : (Request.priority_ <$> occupant after_nine_admissions 6)
               = Some FREE) by (vm_compute; reflexivity).
  assert (H7 : (Request.priority_ <$> occupant after_nine_admissions 7)
               = Some PREMIUM) by (vm_compute; reflexivity).
  split; [vm_compute; reflexivity|]. split; [vm_compute; reflexivity|].
  split; [exact H6|]. split; [exact H7|].
  intros Hord.
  destruct (occupant after_nine_admissions 6) as [a|] eqn:Ha;
    [|discriminate H6].
  destruct (occupant after_nine_admissions 7) as [b|] eqn:Hb;
    [|discriminate H7].
  injection H6 as H6. injection H7 as H7.
  specialize (Hord 6%nat 7%nat a b (Nat.lt_succ_diag_r 6) Ha Hb).
  unfold may_precede in Hord. rewrite H6, H7 in Hord.
  destruct Hord as [Hlt|[Heq _]]; [|discriminate Heq].
  vm_compute in Hlt. discriminate Hlt.
Qed.

Lemma in_service_state_reachable :
  reachable one_request in_service_state.
Proof.
  apply (reachable_iteration ListPQ one_request one_request first_arrival []).
  - apply reachable_start.
  - vm_compute. reflexivity.
  - vm_compute. reflexivity.
  - vm_compute. reflexivity.
Qed.

Lemma in_service_state_events :
  pq_items ListPQ (events_ in_service_state) = [first_completion].
Proof. vm_compute. reflexivity. Qed.

(** C3 as stated fails on the code: this run ends with one request
    generated, one served and none rejected, the buffer empty and the
    device still loaded, so the right-hand side of the claim is 2. *)
Lemma C3_counterexample :
  work one_request = Returns in_service_state
  /\ generatedRequestsCount_ in_service_state = 1
  /\ servedRequestsCount_ in_service_state = 1
  /\ rejectedRequests_ in_service_state = 0
  /\ buffer_ in_service_state = []
  /\ in_service in_service_state = 1%nat
  /\ generatedRequestsCount_ in_service_state
     <> servedRequestsCount_ in_service_state
        + rejectedRequests_ in_service_state
        + Z.of_nat (length (buffer_ in_service_state)
                    + in_service in_service_state).
Proof.
  do 6 (split; [vm_compute; reflexivity|]).
  vm_compute. discriminate.
Qed.

(** C10 as stated fails on the code: with the configuration of [main]
    (5 devices, a target of 5000), whatever the queue and the random
    streams, [work] never returns with more than 5000 requests served. *)
Lemma C10_counterexample :
  ~ exists (PQ : EventQueue) (sseed dseed : Z -> mt19937) (c' : Controller PQ),
      work (start PQ 2 4 6 5 5000 sseed dseed) = Returns c'
      /\ 5000 < servedRequestsCount_ c'.
Proof.
  intros (PQ & sseed & dseed & c' & Hret & Hlt).
  destruct (start_wf PQ 2 4 6 5 5000 sseed dseed) as (Hwf0 & _).
  destruct (work_returns PQ _ Hwf0) as (c'' & Hret' & Hreach & _).
  rewrite Hret in Hret'. injection Hret' as <-.
  apply served_at_most_target in Hreach. lia.
Qed.

Lemma C6_witness :
  exists r,
    mem in_service_state !! 0%nat = Some r
    /\ (Request.arrivalTime_ r <= Request.bufferEnterTime_ r)%Q
    /\ (Request.bufferEnterTime_ r <= Request.startServiceTime_ r)%Q.
Proof.
  apply (C6_stamps_in_order ListPQ 1 0 0 1 1
           (constant_seed (1 # 2)) (constant_seed (2 # 3)) in_service_state 0%nat).
  - intros i n. vm_compute. discriminate.
  - intros i n. vm_compute. discriminate.
  - exact in_service_state_reachable.
  - left. exists first_completion.
    split; [rewrite in_service_state_events; apply list_elem_of_here|].
    split; reflexivity.
Defined.

Lemma C9_witness :
  exists d,
    devices_ in_service_state !! 0%nat = Some d /\ Device.id_ d = 1.
Proof.
  assert (Hin : first_completion
                ∈ pq_items ListPQ (events_ in_service_state)).
  { rewrite in_service_state_events. apply list_elem_of_here. }
  destruct (C9_completion_names_a_device ListPQ 1 0 0 1 1
              (constant_seed (1 # 2)) (constant_seed (2 # 3)) in_service_state
              first_completion in_service_state_reachable Hin eq_refl)
    as (_ & _ & d & Hd & Hid).
  exists d. split; [exact Hd|exact Hid].
Defined.

Lemma C8_witness :
  (forall p r, mem one_request !! p = Some r ->
     Request.bufferEnterTime_ r = Request.arrivalTime_ r)
  /\ exists ps,
       servedRequestsCount_ in_service_state
       = servedRequestsCount_ one_request + Z.of_nat (length ps)
       /\ totalWaitTime_ in_service_state
          = charge_waits (mem one_request) (Event.time first_arrival) ps
              (totalWaitTime_ one_request)
       /\ Forall (dispatched in_service_state) ps.
Proof.
  assert (Hpop : pq_pop ListPQ (events_ one_request)
                 = Some (first_arrival, [])) by (vm_compute; reflexivity).
  assert (Hev : handleEvent first_arrival
                  (with_events (PQ:=ListPQ) [] one_request)
                = Some in_service_state) by (vm_compute; reflexivity).
  destruct (C8_bufferEnterTime_is_arrivalTime ListPQ 1 0 0 1 1
              (constant_seed (1 # 2)) (constant_seed (2 # 3)) one_request
              (reachable_start ListPQ one_request)) as [Hstore Hwait].
  split; [exact Hstore|].
  exact (Hwait first_arrival [] in_service_state Hpop Hev).
Defined.


(** *** What the rendering keeps *)

Lemma digit_inj x y :
  0 <= x < 10 -> 0 <= y < 10 -> Fmt.digit x = Fmt.digit y -> x = y.
Proof.
  intros Hx Hy H. unfold Fmt.digit in H.
  apply (f_equal nat_of_ascii) in H.
  rewrite !nat_ascii_embedding in H by lia. lia.
Qed.

Lemma render_digits k :
  0 <= k < 1440 ->
  render k
  = String (Fmt.digit (k / 60 / 10))
      (String (Fmt.digit ((k / 60) mod 10))
         (String ":"
            (String (Fmt.digit (k mod 60 / 10))
               (String (Fmt.digit ((k mod 60) mod 10)) EmptyString)))).
Proof.
  intros Hk. unfold render.
  rewrite !fmt_02d_two_digits
    by (Z.to_euclidean_division_equations; lia).
  reflexivity.
Qed.

Lemma render_injective a b :
  0 <= a < 1440 -> 0 <= b < 1440 -> render a = render b -> a = b.
Proof.
  intros Ha Hb Heq.
  rewrite (render_digits a Ha), (render_digits b Hb) in Heq.
  injection Heq as H1 H2 H3 H4.
  apply digit_inj in H1, H2, H3, H4;
    Z.to_euclidean_division_equations; lia.
Qed.

Lemma formatTime_render hours m :
  Fmt.non_negative hours = true ->
  Fmt.floor (SFmul Fmt.prec Fmt.emax hours Fmt.sixty) = Some m ->
  m <= Fmt.INT_MAX ->
  Fmt.formatTime hours = Some (render (m mod 1440)).
Proof.
  intros Hpos Hfloor Hmax.
  pose proof (floor_minutes_nonneg hours m Hpos Hfloor) as Hm.
  unfold Fmt.formatTime, Fmt.static_cast_int. rewrite Hfloor.
  assert ((Fmt.INT_MIN <=? m) && (m <=? Fmt.INT_MAX) = true) as ->.
  { apply andb_true_iff. split; apply Z.leb_le; [|done].
    unfold Fmt.INT_MIN. lia. }
  rewrite Z.quot_div_nonneg, !Z.rem_mod_nonneg; try lia.
  2:{ apply Z.div_pos; lia. }
  assert ((m / 60) mod 24 = (m mod 1440) / 60) as ->
    by (Z.to_euclidean_division_equations; lia).
  assert (m mod 60 = (m mod 1440) mod 60) as ->
    by (Z.to_euclidean_division_equations; lia).
  reflexivity.
Qed.

(** X21: Two times that are not negative are rendered alike by [formatTime]
    exactly when their minutes agree modulo a day (1440 minutes): the
    rendering drops the day and nothing else. *)
Theorem formatTime_drops_the_day h1 h2 m1 m2 :
  Fmt.non_negative h1 = true ->
  Fmt.non_negative h2 = true ->
  Fmt.floor (SFmul Fmt.prec Fmt.emax h1 Fmt.sixty) = Some m1 ->
  Fmt.floor (SFmul Fmt.prec Fmt.emax h2 Fmt.sixty) = Some m2 ->
  m1 <= Fmt.INT_MAX ->
  m2 <= Fmt.INT_MAX ->
  Fmt.formatTime h1 = Fmt.formatTime h2 <-> m1 mod 1440 = m2 mod 1440.
Proof.
  intros Hp1 Hp2 Hf1 Hf2 Hx1 Hx2.
  rewrite (formatTime_render h1 m1 Hp1 Hf1 Hx1).
  rewrite (formatTime_render h2 m2 Hp2 Hf2 Hx2).
  split.
  - intros Heq. injection Heq as Heq.
    apply render_injective; [| |done]; apply Z.mod_pos_bound; lia.
  - by intros ->.
Qed.

(** X22: Whenever [formatTime] is defined its result has exactly five
    characters, also for a negative time, where a sign takes the place of a
    digit and [snprintf] cuts the text to the size of the buffer. *)
Theorem formatTime_five_characters hours s :
  Fmt.formatTime hours = Some s -> String.length s = 5%nat.
Proof.
  unfold Fmt.formatTime.
  destruct (Fmt.floor _) as [m|]; [|done].
  destruct (Fmt.static_cast_int m) as [t|]; [|done].
  intros H. injection H as <-.
  pose proof (Z.rem_bound_abs (Z.quot t 60) 24 ltac:(lia)) as Hh.
  pose proof (Z.rem_bound_abs t 60 ltac:(lia)) as Hmin.
  set (a := Z.rem (Z.quot t 60) 24) in *. set (b := Z.rem t 60) in *.
  assert (Hall : forallb (fun x =>
                   forallb (fun y =>
                     Nat.eqb (String.length
                       (Fmt.snprintf 6
                          (Fmt.fmt_02d (Z.of_nat x - 23) ++ ":" ++
                           Fmt.fmt_02d (Z.of_nat y - 59))%string)) 5)
                     (seq 0 119))
                   (seq 0 47) = true) by (vm_compute; reflexivity).
  rewrite forallb_forall in Hall.
  specialize (Hall (Z.to_nat (a + 23))).
  rewrite forallb_forall in Hall.
  specialize (Hall ltac:(apply in_seq; lia) (Z.to_nat (b + 59))
                ltac:(apply in_seq; lia)).
  apply Nat.eqb_eq in Hall.
  by replace (Z.of_nat (Z.to_nat (a + 23)) - 23) with a in Hall by lia;
     replace (Z.of_nat (Z.to_nat (b + 59)) - 59) with b in Hall by lia.
Qed.

(** ** Runs of the properties *)

Lemma half_hours : durations (constant_seed (1 # 2)).
Proof. intros i n. vm_compute. discriminate. Qed.

Lemma forty_minutes : durations (constant_seed (2 # 3)).
Proof. intros i n. vm_compute. discriminate. Qed.

Lemma hundred_hours : durations (constant_seed 100).
Proof. intros i n. vm_compute. discriminate. Qed.

Lemma Returns_eq (a b : Controller ListPQ) : Returns a = Returns b -> a = b.
Proof. intros H. by injection H. Qed.

Lemma overloaded_end_reachable : reachable overloaded overloaded_end.
Proof.
  destruct (start_wf ListPQ 0 0 1 1 12 (constant_seed (1 # 2))
              (constant_seed 100)) as (Hwf & _).
  destruct (work_returns ListPQ overloaded Hwf) as (c' & Hret & Hreach & _).
  assert (work overloaded = Returns overloaded_end) as Hend
    by (vm_compute; reflexivity).
  rewrite Hend in Hret. apply Returns_eq in Hret. subst c'. exact Hreach.
Qed.

Lemma two_waiting_live : live (mem two_waiting) (buffer_ two_waiting).
Proof. unfold live. apply (bool_decide_unpack _). vm_compute. exact I. Qed.

Lemma addRequest_with_room_witness :
  mem two_waiting !! 8%nat = Some (Request.new 8 CORPORATE 8 0)
  /\ exists it c',
       addRequest 8%nat two_waiting = Some (true, c')
       /\ (it <= length (buffer_ two_waiting))%nat
       /\ buffer_ c'
          = take it (buffer_ two_waiting)
            ++ 8%nat :: drop it (buffer_ two_waiting)
       /\ mem c' !! 8%nat
          = Some (Request.setBufferEnterTime
                    (Request.arrivalTime_ (Request.new 8 CORPORATE 8 0))
                    (Request.new 8 CORPORATE 8 0))
       /\ rejectedRequests_ c' = rejectedRequests_ two_waiting
       /\ rejectedByPriority_ c' = rejectedByPriority_ two_waiting
       /\ (buffer_ordered two_waiting -> buffer_ordered c').
Proof.
  split; [reflexivity|].
  apply (addRequest_with_room ListPQ two_waiting 8%nat
           (Request.new 8 CORPORATE 8 0)).
  - reflexivity.
  - exact two_waiting_live.
  - vm_compute. lia.
Defined.

Lemma full_of_free_live extra :
  live (mem (full_of_free extra)) (buffer_ (full_of_free extra)).
Proof.
  unfold live. simpl.
  apply Forall_forall. intros p Hp. apply (elem_of_seq 0 8) in Hp. lia.
Qed.

Lemma addRequest_full_decision_witness :
  exists c',
    addRequest 8%nat (full_of_free (Request.new 8 FREE 8 0))
    = Some (false, c')
    /\ none_lower (Request.new 8 FREE 8 0)
         (full_of_free (Request.new 8 FREE 8 0))
    /\ buffer_ c' = seq 0 8.
Proof.
  destruct (addRequest_full_decision ListPQ
              (full_of_free (Request.new 8 FREE 8 0)) 8%nat
              (Request.new 8 FREE 8 0) eq_refl
              (full_of_free_live (Request.new 8 FREE 8 0))
              (le_n 8))
    as (added & c' & Hadd & Hiff & Hkeep).
  assert (added = false) as ->.
  { vm_compute in Hadd. by injection Hadd as <- _. }
  exists c'. split; [exact Hadd|]. split; [by apply Hiff|].
  by destruct (Hkeep eq_refl) as (-> & _).
Defined.

Lemma addRequest_full_PREMIUM_witness :
  exists c',
    addRequest 8%nat (full_of_free (Request.new 8 PREMIUM 8 0))
    = Some (true, c')
    /\ first_with FREE (full_of_free (Request.new 8 PREMIUM 8 0)) 0
    /\ buffer_ c' = [1; 2; 3; 4; 5; 6; 7; 8]%nat.
Proof.
  destruct (addRequest_full_PREMIUM ListPQ
              (full_of_free (Request.new 8 PREMIUM 8 0)) 8%nat
              (Request.new 8 PREMIUM 8 0) eq_refl eq_refl eq_refl
              (full_of_free_live (Request.new 8 PREMIUM 8 0)))
    as (added & c' & Hadd & Hcases).
  assert (added = true) as Htrue.
  { vm_compute in Hadd. by injection Hadd as <- _. }
  destruct Hcases as [(i & Hfirst & _ & Hbuf & _)|(_ & Hfalse & _)];
    [|congruence].
  subst added. exists c'. split; [exact Hadd|].
  assert (i = 0%nat) as ->.
  { destruct i as [|i]; [done|]. destruct Hfirst as [_ Hno].
    by destruct (Hno 0%nat (Request.new 0 FREE 0 0) (Nat.lt_0_succ i) eq_refl). }
  split; [exact Hfirst|]. by rewrite Hbuf.
Defined.

Lemma addRequest_keeps_higher_witness :
  addRequest 8%nat (full_of_free (Request.new 8 FREE 8 0))
  = Some (false, after_refusal)
  /\ 3%nat ∈ buffer_ after_refusal.
Proof.
  assert (addRequest 8%nat (full_of_free (Request.new 8 FREE 8 0))
          = Some (false, after_refusal)) as Hadd by (vm_compute; reflexivity).
  split; [exact Hadd|].
  apply (addRequest_keeps_higher ListPQ
           (full_of_free (Request.new 8 FREE 8 0)) 8%nat
           (Request.new 8 FREE 8 0) false after_refusal 3%nat
           (Request.new 3 FREE 3 0)).
  - reflexivity.
  - exact (full_of_free_live (Request.new 8 FREE 8 0)).
  - exact Hadd.
  - apply (list_elem_of_lookup_2 _ 3%nat). reflexivity.
  - reflexivity.
  - simpl. lia.
Defined.

Lemma two_waiting_ordered : buffer_ordered two_waiting.
Proof.
  intros i j a b Hij Ha Hb.
  destruct j as [|[|j]]; [lia| |discriminate Hb].
  destruct i as [|i]; [|lia].
  injection Ha as <-. injection Hb as <-.
  right. split; [reflexivity|]. vm_compute. discriminate.
Qed.

Lemma popRequest_head_witness :
  buffer_ordered two_waiting
  /\ match popRequest two_waiting with
     | (Some p, c') =>
         isEmpty two_waiting = false
         /\ buffer_ two_waiting = p :: buffer_ c'
         /\ mem c' = mem two_waiting
         /\ forall e0 j e,
              mem two_waiting !! p = Some e0 -> occupant c' j = Some e ->
              may_precede e0 e
     | (None, c') => isEmpty two_waiting = true /\ c' = two_waiting
     end.
Proof.
  split; [exact two_waiting_ordered|].
  exact (popRequest_head ListPQ two_waiting two_waiting_ordered).
Defined.

Lemma request_ids_unique_witness :
  Z.of_nat (length (mem overloaded_end))
  = generatedRequestsCount_ overloaded_end
  /\ (forall p r, mem overloaded_end !! p = Some r ->
        Request.id_ r = Z.of_nat p + 1
        /\ 1 <= Request.id_ r <= generatedRequestsCount_ overloaded_end)
  /\ (forall p p' r r',
        mem overloaded_end !! p = Some r ->
        mem overloaded_end !! p' = Some r' ->
        Request.id_ r = Request.id_ r' -> p = p').
Proof.
  exact (request_ids_unique ListPQ 0 0 1 1 12 (constant_seed (1 # 2))
           (constant_seed 100) overloaded_end overloaded_end_reachable).
Defined.

Lemma request_origin_witness :
  mem in_service_state !! 0%nat
  = Some (Request.mk 1 CORPORATE (1 # 2) 0 (1 # 2) (1 # 2))
  /\ exists s,
       sources_ in_service_state !! 0%nat = Some s
       /\ Source.sourceIndex_ s = 0
       /\ Source.priority_ s = CORPORATE.
Proof.
  assert (mem in_service_state !! 0%nat
          = Some (Request.mk 1 CORPORATE (1 # 2) 0 (1 # 2) (1 # 2))) as Hr
    by (vm_compute; reflexivity).
  split; [exact Hr|].
  destruct (request_origin ListPQ 1 0 0 1 1 (constant_seed (1 # 2))
              (constant_seed (2 # 3)) in_service_state 0%nat _
              in_service_state_reachable Hr) as (_ & s & Hs).
  exists s. exact Hs.
Defined.

Lemma initRequests_first_arrivals_witness :
  generatedRequestsCount_ overloaded = 1
  /\ mem overloaded = [Request.new 1 FREE (0 + (1 # 2)) 0]
  /\ pq_items ListPQ (events_ overloaded)
     ≡ₚ [Event.mk REQUEST_GENERATED (0 + (1 # 2)) 0%nat (-1)].
Proof.
  exact (initRequests_first_arrivals ListPQ 0 0 1 1 12
           (constant_seed (1 # 2)) (constant_seed 100) 1%nat eq_refl).
Defined.

Lemma nonpositive_target_witness :
  start ListPQ 2 4 6 5 0 (constant_seed (1 # 2)) (constant_seed (2 # 3))
  = newController ListPQ 2 4 6 5 0 (constant_seed (1 # 2))
      (constant_seed (2 # 3))
  /\ work (start ListPQ 2 4 6 5 0 (constant_seed (1 # 2))
             (constant_seed (2 # 3)))
     = Returns (newController ListPQ 2 4 6 5 0 (constant_seed (1 # 2))
                  (constant_seed (2 # 3))).
Proof.
  exact (nonpositive_target ListPQ 2 4 6 5 0 (constant_seed (1 # 2))
           (constant_seed (2 # 3)) (Z.le_refl 0)).
Defined.

Lemma no_wait_while_idle_witness :
  devices_ overloaded_end !! 0%nat
  = Some (Device.mk 1 false (1801 # 2) (235929600 # 262144) (1601 # 2)
            None 100 (mkRng (fun _ => 100%Q) 9))
  /\ buffer_ overloaded_end = [].
Proof.
  assert (devices_ overloaded_end !! 0%nat
          = Some (Device.mk 1 false (1801 # 2) (235929600 # 262144)
                    (1601 # 2) None 100 (mkRng (fun _ => 100%Q) 9))) as Hd
    by (vm_compute; reflexivity).
  split.
  - exact Hd.
  - apply (no_wait_while_idle ListPQ 0 0 1 1 12 (constant_seed (1 # 2))
             (constant_seed 100) overloaded_end _ overloaded_end_reachable
             (list_elem_of_lookup_2 _ _ _ Hd) eq_refl).
Defined.

Lemma busy_device_has_one_completion_witness :
  devices_ in_service_state !! 0%nat
  = Some (Device.mk 1 true (7 # 6) 0 (1 # 2) (Some 0%nat) (2 # 3)
            (mkRng (fun _ => 2 # 3) 1))
  /\ exists e,
       completions_of 1 (pq_items ListPQ (events_ in_service_state)) = [e]
       /\ Event.time e = 7 # 6
       /\ Some 0%nat = Some (Event.request e).
Proof.
  assert (devices_ in_service_state !! 0%nat
          = Some (Device.mk 1 true (7 # 6) 0 (1 # 2) (Some 0%nat) (2 # 3)
                    (mkRng (fun _ => 2 # 3) 1))) as Hd
    by (vm_compute; reflexivity).
  split; [exact Hd|].
  exact (busy_device_has_one_completion ListPQ 1 0 0 1 1
           (constant_seed (1 # 2)) (constant_seed (2 # 3)) in_service_state _
           half_hours forty_minutes in_service_state_reachable
           (list_elem_of_lookup_2 _ _ _ Hd)).
Defined.

Lemma completion_frees_a_busy_device_witness :
  pq_pop ListPQ (events_ in_service_state) = Some (first_completion, [])
  /\ exists d,
       devices_ in_service_state !! 0%nat = Some d
       /\ Device.id_ d = 1
       /\ Device.busy_ d = true
       /\ Device.finishTime_ d = Event.time first_completion
       /\ Device.currentRequest_ d = Some 0%nat.
Proof.
  assert (pq_pop ListPQ (events_ in_service_state)
          = Some (first_completion, [])) as Hpop by (vm_compute; reflexivity).
  split; [exact Hpop|].
  exact (completion_frees_a_busy_device ListPQ 1 0 0 1 1
           (constant_seed (1 # 2)) (constant_seed (2 # 3)) in_service_state
           first_completion [] half_hours forty_minutes
           in_service_state_reachable Hpop eq_refl).
Defined.

Lemma busy_time_within_elapsed_witness :
  (0 <= totalWaitTime_ overloaded_end)%Q
  /\ forall d, d ∈ devices_ overloaded_end ->
       (0 <= Device.busyTotalTime_ d)%Q
       /\ (Device.busyTotalTime_ d <= lastEventTime_ overloaded_end)%Q.
Proof.
  exact (busy_time_within_elapsed ListPQ 0 0 1 1 12 (constant_seed (1 # 2))
           (constant_seed 100) overloaded_end half_hours hundred_hours
           overloaded_end_reachable).
Defined.

Lemma clock_follows_events_witness :
  pq_pop ListPQ (events_ one_request) = Some (first_arrival, [])
  /\ handleEvent first_arrival (with_events (PQ:=ListPQ) [] one_request)
     = Some in_service_state
  /\ (lastEventTime_ one_request <= Event.time first_arrival)%Q
  /\ (lastEventTime_ in_service_state == Event.time first_arrival)%Q.
Proof.
  assert (Hpop : pq_pop ListPQ (events_ one_request)
                 = Some (first_arrival, [])) by (vm_compute; reflexivity).
  assert (Hev : handleEvent first_arrival
                  (with_events (PQ:=ListPQ) [] one_request)
                = Some in_service_state) by (vm_compute; reflexivity).
  split; [exact Hpop|]. split; [exact Hev|].
  exact (clock_follows_events ListPQ 1 0 0 1 1 (constant_seed (1 # 2))
           (constant_seed (2 # 3)) one_request first_arrival []
           in_service_state half_hours forty_minutes
           (reachable_start ListPQ one_request) Hpop Hev).
Defined.

Lemma rejections_by_priority_add_up_witness :
  rejectedRequests_ overloaded_end = 3
  /\ getRejectedByPriority CORPORATE overloaded_end
     + getRejectedByPriority PREMIUM overloaded_end
     + getRejectedByPriority FREE overloaded_end
     = rejectedRequests_ overloaded_end
  /\ forall pr, 0 <= getRejectedByPriority pr overloaded_end.
Proof.
  split; [vm_compute; reflexivity|].
  exact (rejections_by_priority_add_up ListPQ 0 0 1 1 12
           (constant_seed (1 # 2)) (constant_seed 100) overloaded_end
           overloaded_end_reachable).
Defined.

Lemma statistics_in_range_witness :
  (0 <= avgWaitTime overloaded_end)%Q
  /\ forall d, d ∈ devices_ overloaded_end ->
       (0 <= utilization overloaded_end d)%Q
       /\ (utilization overloaded_end d <= 1)%Q.
Proof.
  exact (statistics_in_range ListPQ 0 0 1 1 12 (constant_seed (1 # 2))
           (constant_seed 100) overloaded_end half_hours hundred_hours
           overloaded_end_reachable).
Defined.

Lemma drained_queue_witness :
  pq_items ListPQ (events_ overloaded_end) = []
  /\ servedRequestsCount_ overloaded_end = 9
  /\ Forall (fun d => Device.busy_ d = false
                      /\ Device.currentRequest_ d = None)
       (devices_ overloaded_end)
  /\ buffer_ overloaded_end = []
  /\ generatedRequestsCount_ overloaded_end
     = servedRequestsCount_ overloaded_end
       + rejectedRequests_ overloaded_end.
Proof.
  assert (pq_items ListPQ (events_ overloaded_end) = []) as Hempty
    by (vm_compute; reflexivity).
  split; [exact Hempty|]. split; [vm_compute; reflexivity|].
  destruct (drained_queue ListPQ 0 0 1 1 12 (constant_seed (1 # 2))
              (constant_seed 100) overloaded_end half_hours hundred_hours
              overloaded_end_reachable Hempty) as [Hidle Hrest].
  split; [exact Hidle|]. exact (Hrest Z.lt_0_1).
Defined.

Lemma formatTime_drops_the_day_witness :
  Fmt.floor (SFmul Fmt.prec Fmt.emax (Fmt.double_of 3 (-1)) Fmt.sixty)
  = Some 90
  /\ Fmt.floor (SFmul Fmt.prec Fmt.emax (Fmt.double_of 51 (-1)) Fmt.sixty)
     = Some 1530
  /\ (Fmt.formatTime (Fmt.double_of 3 (-1))
      = Fmt.formatTime (Fmt.double_of 51 (-1))
      <-> 90 mod 1440 = 1530 mod 1440).
Proof.
  assert (H1 : Fmt.floor (SFmul Fmt.prec Fmt.emax (Fmt.double_of 3 (-1))
                            Fmt.sixty) = Some 90)
    by (vm_compute; reflexivity).
  assert (H2 : Fmt.floor (SFmul Fmt.prec Fmt.emax (Fmt.double_of 51 (-1))
                            Fmt.sixty) = Some 1530)
    by (vm_compute; reflexivity).
  split; [exact H1|]. split; [exact H2|].
  apply (formatTime_drops_the_day (Fmt.double_of 3 (-1))
           (Fmt.double_of 51 (-1)) 90 1530).
  - vm_compute. reflexivity.
  - vm_compute. reflexivity.
  - exact H1.
  - exact H2.
  - unfold Fmt.INT_MAX. lia.
  - unfold Fmt.INT_MAX. lia.
Defined.

Lemma formatTime_five_characters_witness :
  Fmt.formatTime (Fmt.double_of (-1) (-1)) = Some "00:-3"%string
  /\ String.length "00:-3" = 5%nat.
Proof.
  assert (Fmt.formatTime (Fmt.double_of (-1) (-1)) = Some "00:-3"%string)
    as H by (vm_compute; reflexivity).
  split; [exact H|].
  exact (formatTime_five_characters (Fmt.double_of (-1) (-1)) "00:-3" H).
Defined.

Lemma work_iteration_bound_witness :
  exists c',
    work_loop 3 one_request = Returns c' /\ work one_request = Returns c'.
Proof.
  exact (work_iteration_bound ListPQ 1 0 0 1 1 (constant_seed (1 # 2))
           (constant_seed (2 # 3)) 3%nat (le_n 3)).
Defined.

Lemma rejection_counters_present_witness :
  exists n,
    rejectedByPriority_ overloaded_end !! FREE = Some n
    /\ getRejectedByPriority FREE overloaded_end = n.
Proof.
  exact (rejection_counters_present ListPQ 0 0 1 1 12
           (constant_seed (1 # 2)) (constant_seed 100) overloaded_end FREE
           overloaded_end_reachable).
Defined.

Lemma one_arrival_per_source_witness :
  pending_sources one_request = [0]
  /\ NoDup (pending_sources one_request)
  /\ (forall z, z ∈ pending_sources one_request ->
        0 <= z < Z.of_nat (length (sources_ one_request)))
  /\ (pending_arrivals one_request <= length (sources_ one_request))%nat.
Proof.
  split; [vm_compute; reflexivity|].
  exact (one_arrival_per_source ListPQ 1 0 0 1 1 (constant_seed (1 # 2))
           (constant_seed (2 # 3)) one_request
           (reachable_start ListPQ one_request)).
Defined.

Lemma event_queue_bounded_witness :
  count_type REQUEST_SERVED (pq_items ListPQ (events_ in_service_state))
  = in_service in_service_state
  /\ (length (pq_items ListPQ (events_ in_service_state))
      <= length (sources_ in_service_state)
         + length (devices_ in_service_state))%nat.
Proof.
  exact (event_queue_bounded ListPQ 1 0 0 1 1 (constant_seed (1 # 2))
           (constant_seed (2 # 3)) in_service_state half_hours forty_minutes
           in_service_state_reachable).
Defined.
